(** * Verification of my_malloc.c: a best-fit allocator over an address-ordered free list

    The development embeds [src/my_malloc.c] shallowly.  Memory is a store of
    header records indexed by address (one [metadata_t] per block address) and
    a store of payload bytes; the two globals [address_list] and
    [my_malloc_errno] are fields of the allocator state.  Header records at
    different addresses are independent of each other and of the payload
    bytes: the layout of [metadata_t] is in my_malloc.h, and the allocator
    keeps headers of live and free blocks apart.  Pointers and [size_t] values
    are 64-bit unsigned machine words (LP64), represented as [Z] with the
    wrap-around written out.  Loops that follow [next] links take a fuel
    argument; the theorems show that a fuel exceeding the length of the free
    list always suffices.  [TOTAL_METADATA_SIZE] and [SBRK_SIZE], also from
    my_malloc.h, are parameters. *)

From Stdlib Require Import ZArith List Bool Lia Sorted Permutation.
Import ListNotations.
Open Scope Z_scope.

Module MyMalloc.

(** ** Machine words *)

Definition modulus : Z := 2 ^ 64.

(** Unsigned 64-bit wrap-around ([size_t], [uintptr_t], [unsigned long]). *)
Definition wrap (z : Z) : Z := z mod modulus.

Arguments wrap : simpl never.

(** Conversion to a 32-bit [int] (used by [my_realloc] for [min]). *)
Definition to_int (z : Z) : Z :=
  let r := z mod 2 ^ 32 in if r <? 2 ^ 31 then r else r - 2 ^ 32.

Definition NULL : Z := 0.

(** ** Data model *)

(** [metadata_t]: the header that prefixes every block. *)
Record metadata_t : Type := mk_metadata { next : Z; size : Z }.

(** [enum my_malloc_err]. *)
Inductive my_malloc_err : Type :=
| NO_ERROR
| OUT_OF_MEMORY
| SINGLE_REQUEST_TOO_LARGE.

(** The allocator state: the header store, the payload bytes, the two globals
    of my_malloc.c, and the program break of the heap-extension primitive
    together with the bound beyond which the primitive fails. *)
Record state : Type := mk_state {
  hdr : Z -> metadata_t;
  mem : Z -> Z;
  address_list : Z;
  my_malloc_errno : my_malloc_err;
  brk : Z;
  heap_limit : Z
}.

Definition set_hdr (h : Z -> metadata_t) (st : state) : state :=
  mk_state h (mem st) (address_list st) (my_malloc_errno st) (brk st) (heap_limit st).

Definition set_mem (m : Z -> Z) (st : state) : state :=
  mk_state (hdr st) m (address_list st) (my_malloc_errno st) (brk st) (heap_limit st).

Definition set_address_list (p : Z) (st : state) : state :=
  mk_state (hdr st) (mem st) p (my_malloc_errno st) (brk st) (heap_limit st).

Definition set_errno (e : my_malloc_err) (st : state) : state :=
  mk_state (hdr st) (mem st) (address_list st) e (brk st) (heap_limit st).

Definition set_brk (b : Z) (st : state) : state :=
  mk_state (hdr st) (mem st) (address_list st) (my_malloc_errno st) b (heap_limit st).

(** [a->size = v] *)
Definition set_size (a v : Z) (st : state) : state :=
  set_hdr (fun x => if x =? a then mk_metadata (next (hdr st a)) v else hdr st x) st.

(** [a->next = v] *)
Definition set_next (a v : Z) (st : state) : state :=
  set_hdr (fun x => if x =? a then mk_metadata v (size (hdr st a)) else hdr st x) st.

(** Sequencing of fallible (fuel-bounded) steps. *)
Definition bind {A B : Type} (m : option A) (k : A -> option B) : option B :=
  match m with Some a => k a | None => None end.

Notation "x <- m ;; k" := (bind m (fun x => k))
  (at level 61, m at next level, right associativity).

(** [memset(p, c, n)] on the payload bytes: an address is written when its
    offset from [p], as a machine word, is below [n]. *)
Definition memset (p c n : Z) (st : state) : state :=
  set_mem (fun a => if wrap (a - p) <? n then c else mem st a) st.

(** [memcpy(dst, src, n)] on the payload bytes (regions do not overlap). *)
Definition memcpy (dst src n : Z) (st : state) : state :=
  set_mem (fun a => if wrap (a - dst) <? n then mem st (wrap (src + wrap (a - dst))) else mem st a) st.

(** Modelled from the spec: my_sbrk, the heap-extension primitive, is not part
    of my_malloc.c.  It returns the previous boundary address and advances the
    boundary by the increment, or returns the failure sentinel
    [(void * ) -1] and changes nothing when the heap cannot grow. *)
Definition my_sbrk (increment : Z) (st : state) : Z * state :=
  if brk st + increment <=? heap_limit st
  then (brk st, set_brk (brk st + increment) st)
  else (wrap (-1), st).

Section Allocator.

(** The two constants of my_malloc.h: [sizeof(metadata_t)] and the chunk size
    requested from [my_sbrk]. *)
Variable TOTAL_METADATA_SIZE : Z.
Variable SBRK_SIZE : Z.

(** ** Free-list helpers (my_malloc.c, lines 23-139) *)

(** [merge] (lines 23-26). *)
Definition merge (left right : Z) (st : state) : state :=
  let st := set_size left
              (wrap (size (hdr st left) + size (hdr st right) + TOTAL_METADATA_SIZE)) st in
  set_next left (next (hdr st right)) st.

(** The [while] loop of [mergeAll] (lines 38-45); returns the state and [i]. *)
Fixpoint mergeAll_loop (fuel : nat) (prev curr : Z) (i : bool) (st : state)
  : option (state * bool) :=
  match fuel with
  | O => None
  | S fuel' =>
      if curr =? NULL then Some (st, i)
      else
        if wrap (prev + TOTAL_METADATA_SIZE + size (hdr st prev)) =? curr
        then let st' := merge prev curr st in
             mergeAll_loop fuel' curr (next (hdr st' curr)) true st'
        else mergeAll_loop fuel' curr (next (hdr st curr)) i st
  end.

(** [mergeAll] (lines 31-49); the recursive call consumes fuel. *)
Fixpoint mergeAll (fuel : nat) (st : state) : option state :=
  match fuel with
  | O => None
  | S fuel' =>
      if address_list st =? NULL then Some st
      else
        r <- mergeAll_loop fuel (address_list st) (next (hdr st (address_list st))) false st ;;
        (if snd r then mergeAll fuel' (fst r) else Some (fst r))
  end.

(** [split_block] (lines 56-62): returns the new block and the state. *)
Definition split_block (block sz : Z) (st : state) : Z * state :=
  let realSize := wrap (sz + TOTAL_METADATA_SIZE) in
  let newBlock :=
    wrap (block + TOTAL_METADATA_SIZE + size (hdr st block) - realSize) in
  let st := set_size block (wrap (size (hdr st block) - realSize)) st in
  let st := set_size newBlock sz st in
  (newBlock, st).

(** The scan of [add_to_addr_list] (lines 74-77): returns [(prev, curr)]. *)
Fixpoint add_scan (fuel : nat) (block prev curr : Z) (st : state) : option (Z * Z) :=
  match fuel with
  | O => None
  | S fuel' =>
      if negb (curr =? NULL) && (curr <? block)
      then add_scan fuel' block curr (next (hdr st curr)) st
      else Some (prev, curr)
  end.

(** [add_to_addr_list] (lines 67-86). *)
Definition add_to_addr_list (fuel : nat) (block : Z) (st : state) : option state :=
  if address_list st =? NULL then Some (set_address_list block st)
  else
    pc <- add_scan fuel block NULL (address_list st) st ;;
    let '(prev, curr) := pc in
    if prev =? NULL
    then Some (set_next block curr (set_address_list block st))
    else Some (set_next block curr (set_next prev block st)).

(** The scan of [remove_from_addr_list] (lines 97-100). *)
Fixpoint remove_scan (fuel : nat) (block prev curr : Z) (st : state) : option (Z * Z) :=
  match fuel with
  | O => None
  | S fuel' =>
      if negb (curr =? NULL) && negb (curr =? block)
      then remove_scan fuel' block curr (next (hdr st curr)) st
      else Some (prev, curr)
  end.

(** [remove_from_addr_list] (lines 91-109). *)
Definition remove_from_addr_list (fuel : nat) (block : Z) (st : state) : option state :=
  if address_list st =? NULL then Some st
  else
    pc <- remove_scan fuel block NULL (address_list st) st ;;
    let '(prev, curr) := pc in
    if prev =? NULL then Some (set_address_list (next (hdr st curr)) st)
    else if curr =? NULL then Some st
    else Some (set_next prev (next (hdr st curr)) st).

(** First loop of [find_best_fit] (lines 122-129): either an exact match is
    returned at once ([inl]) or the loop ends with [bestSize] ([inr]). *)
Fixpoint best_fit_scan (fuel : nat) (sz curr bestSize : Z) (st : state)
  : option (Z + Z) :=
  match fuel with
  | O => None
  | S fuel' =>
      if curr =? NULL then Some (inr bestSize)
      else if size (hdr st curr) =? sz then Some (inl curr)
      else if (size (hdr st curr) >? sz) && (size (hdr st curr) <? bestSize)
      then best_fit_scan fuel' sz (next (hdr st curr)) (size (hdr st curr)) st
      else best_fit_scan fuel' sz (next (hdr st curr)) bestSize st
  end.

(** Second loop of [find_best_fit] (lines 131-138). *)
Fixpoint best_fit_pick (fuel : nat) (curr bestSize : Z) (st : state) : option Z :=
  match fuel with
  | O => None
  | S fuel' =>
      if curr =? NULL then Some NULL
      else if size (hdr st curr) =? bestSize then Some curr
      else best_fit_pick fuel' (next (hdr st curr)) bestSize st
  end.

(** [find_best_fit] (lines 116-139); [bestSize] starts at [0xffffffff]. *)
Definition find_best_fit (fuel : nat) (sz : Z) (st : state) : option Z :=
  if address_list st =? NULL then Some NULL
  else
    r <- best_fit_scan fuel sz (address_list st) 0xffffffff st ;;
    match r with
    | inl curr => Some curr
    | inr bestSize => best_fit_pick fuel (address_list st) bestSize st
    end.

(** ** Public entry points (lines 147-243) *)

(** Lines 156-173 of [my_malloc]: the block [temp] that will serve the
    request, after a heap extension when the free list has none.  [inl] is an
    early [return NULL]. *)
Definition my_malloc_select (fuel : nat) (sz : Z) (st : state)
  : option (state + Z * state) :=
  temp <- find_best_fit fuel sz st ;;
  if temp =? NULL then
    let '(newBlock, st) := my_sbrk SBRK_SIZE st in
    if newBlock =? wrap (-1) then Some (inl (set_errno OUT_OF_MEMORY st))
    else
      let st := set_size newBlock (wrap (SBRK_SIZE - TOTAL_METADATA_SIZE)) st in
      let st := set_next newBlock NULL st in
      st <- add_to_addr_list fuel newBlock st ;;
      st <- mergeAll fuel st ;;
      temp <- find_best_fit fuel sz st ;;
      if (temp =? NULL) || (size (hdr st temp) <? sz)
      then Some (inl (set_errno OUT_OF_MEMORY st))
      else Some (inr (temp, st))
  else Some (inr (temp, st)).

(** Lines 174-190 of [my_malloc]: hand out [temp], whole or split. *)
Definition my_malloc_serve (fuel : nat) (sz temp : Z) (st : state)
  : option (Z * state) :=
  if size (hdr st temp) =? sz then
    st <- remove_from_addr_list fuel temp st ;;
    Some (wrap (temp + TOTAL_METADATA_SIZE), set_errno NO_ERROR st)
  else if size (hdr st temp) >? sz then
    if size (hdr st temp) >=? wrap (sz + TOTAL_METADATA_SIZE + 1) then
      let '(ret, st) := split_block temp sz st in
      let st := set_size ret sz st in
      Some (wrap (ret + TOTAL_METADATA_SIZE), set_errno NO_ERROR st)
    else
      st <- remove_from_addr_list fuel temp (set_errno NO_ERROR st) ;;
      Some (wrap (temp + TOTAL_METADATA_SIZE), st)
  else Some (NULL, st).

(** [my_malloc] (lines 147-191). *)
Definition my_malloc (fuel : nat) (sz : Z) (st : state) : option (Z * state) :=
  let st := set_errno NO_ERROR st in
  if sz >? wrap (SBRK_SIZE - TOTAL_METADATA_SIZE)
  then Some (NULL, set_errno SINGLE_REQUEST_TOO_LARGE st)
  else if sz =? 0 then Some (NULL, set_errno NO_ERROR st)
  else
    r <- my_malloc_select fuel sz st ;;
    match r with
    | inl st => Some (NULL, st)
    | inr (temp, st) => my_malloc_serve fuel sz temp st
    end.

(** [my_free] (lines 235-243). *)
Definition my_free (fuel : nat) (ptr : Z) (st : state) : option state :=
  let st := set_errno NO_ERROR st in
  if ptr =? NULL then Some st
  else
    let addr := wrap (ptr - TOTAL_METADATA_SIZE) in
    st <- add_to_addr_list fuel addr st ;;
    mergeAll fuel st.

(** [my_realloc] (lines 196-216). *)
Definition my_realloc (fuel : nat) (ptr sz : Z) (st : state) : option (Z * state) :=
  let st := set_errno NO_ERROR st in
  if ptr =? NULL then my_malloc fuel sz st
  else if sz =? 0 then
    st <- my_free fuel ptr st ;; Some (NULL, st)
  else
    r <- my_malloc fuel sz st ;;
    let '(temp, st) := r in
    if temp =? NULL then Some (NULL, st)
    else
      let curr := wrap (ptr - TOTAL_METADATA_SIZE) in
      let min := to_int (if size (hdr st curr) >? sz then sz else size (hdr st curr)) in
      let st := memcpy temp ptr (wrap min) st in
      st <- my_free fuel ptr st ;;
      Some (temp, st).

(** [my_calloc] (lines 221-230). *)
Definition my_calloc (fuel : nat) (nmemb sz : Z) (st : state) : option (Z * state) :=
  let st := set_errno NO_ERROR st in
  r <- my_malloc fuel (wrap (nmemb * sz)) st ;;
  let '(temp, st) := r in
  if temp =? NULL then Some (NULL, st)
  else Some (temp, memset temp 0 (wrap (nmemb * sz)) st).

(** ** Abstraction of the free list *)

(** [lseg h p q l]: following [next] links in [h] from [p] visits exactly the
    addresses [l], none of them null, and ends at [q]. *)
Fixpoint lseg (h : Z -> metadata_t) (p q : Z) (l : list Z) : Prop :=
  match l with
  | [] => p = q
  | a :: l' => p = a /\ a <> NULL /\ lseg h (next (h a)) q l'
  end.

(** The free list of a state: the null-terminated chain from [address_list]. *)
Definition flist (st : state) (l : list Z) : Prop :=
  lseg (hdr st) (address_list st) NULL l.

(** The blocks of the free list as (address, payload size) pairs. *)
Definition blocks (st : state) (l : list Z) : list (Z * Z) :=
  map (fun a => (a, size (hdr st a))) l.

(** Fields other than the header store are left alone. *)
Definition same_globals (st st' : state) : Prop :=
  mem st' = mem st /\ my_malloc_errno st' = my_malloc_errno st /\
  brk st' = brk st /\ heap_limit st' = heap_limit st.

(** Strictly ascending addresses. *)
Definition ascending (l : list Z) : Prop := StronglySorted Z.lt l.

(** Executable reading of the free list, for concrete states. *)
Fixpoint walk (fuel : nat) (h : Z -> metadata_t) (p : Z) : option (list Z) :=
  match fuel with
  | O => None
  | S fuel' =>
      if p =? NULL then Some []
      else l <- walk fuel' h (next (h p)) ;; Some (p :: l)
  end.

(** Address-ordered insertion as the specification words it: the new block
    goes before the first existing entry with a greater address, or last. *)
Fixpoint insert_by_address (b : Z) (l : list Z) : list Z :=
  match l with
  | [] => [b]
  | a :: l' => if b <? a then b :: a :: l' else a :: insert_by_address b l'
  end.

(** *** Coalescing on block lists *)

(** The machine address one past the payload of a block (line 39). *)
Definition block_end (b : Z * Z) : Z :=
  wrap (fst b + TOTAL_METADATA_SIZE + snd b).

(** The adjacency test of line 39. *)
Definition adjacent (b : Z * Z) (c : Z) : bool := block_end b =? c.

(** The block that [merge] leaves at the left address (line 24). *)
Definition absorb (b c : Z * Z) : Z * Z :=
  (fst b, wrap (snd b + snd c + TOTAL_METADATA_SIZE)).

(** Exhaustive coalescing as the specification words it: every run of
    physically adjacent blocks becomes one block. *)
Fixpoint coalesce_from (b : Z * Z) (rest : list (Z * Z)) : list (Z * Z) :=
  match rest with
  | [] => [b]
  | c :: rest' =>
      if adjacent b (fst c) then coalesce_from (absorb b c) rest'
      else b :: coalesce_from c rest'
  end.

Definition coalesce (B : list (Z * Z)) : list (Z * Z) :=
  match B with [] => [] | b :: rest => coalesce_from b rest end.

(** One run of the [while] loop of [mergeAll] on block lists.  [live] tells
    whether [prev] is still linked in the list: after [merge(prev, curr)] the
    loop continues with [prev = curr], a block that has just been unlinked. *)
Fixpoint merge_pass (live : bool) (prev : Z * Z) (rest : list (Z * Z))
  : list (Z * Z) :=
  match rest with
  | [] => if live then [prev] else []
  | c :: rest' =>
      if adjacent prev (fst c) then
        if live then absorb prev c :: merge_pass false c rest'
        else merge_pass true c rest'
      else (if live then [prev] else []) ++ merge_pass true c rest'
  end.

(** Whether the loop performs a merge (the final value of [i]). *)
Fixpoint any_adjacent (prev : Z * Z) (rest : list (Z * Z)) : bool :=
  match rest with
  | [] => false
  | c :: rest' => adjacent prev (fst c) || any_adjacent c rest'
  end.

(** No two consecutive blocks are physically adjacent. *)
Definition coalesced (B : list (Z * Z)) : Prop :=
  match B with [] => True | p :: rest => any_adjacent p rest = false end.

(** *** Well-formed heaps *)

(** The blocks lie one after the other, without overlap, between the
    addresses [lo] and [hi]. *)
Fixpoint laid_out (lo : Z) (B : list (Z * Z)) (hi : Z) : Prop :=
  match B with
  | [] => lo <= hi
  | b :: B' =>
      lo <= fst b /\ 0 <= snd b /\
      laid_out (fst b + TOTAL_METADATA_SIZE + snd b) B' hi
  end.

(** A well-formed heap: [l] is the free list, its blocks lie without overlap
    below the program break, and the break is an address. *)
Definition heap_ok (st : state) (l : list Z) : Prop :=
  flist st l /\
  laid_out 1 (blocks st l) (brk st) /\
  brk st <= heap_limit st /\ heap_limit st < modulus.

(** Total free payload bytes. *)
Definition free_bytes (st : state) (l : list Z) : Z :=
  fold_right Z.add 0 (map snd (blocks st l)).

(** *** Sequences of public calls and the partition invariant *)

(** A public call, as a client issues it. *)
Inductive call : Type :=
| Call_malloc (sz : Z)
| Call_free (ptr : Z)
| Call_realloc (ptr sz : Z)
| Call_calloc (nmemb sz : Z).

(** One call on the allocator state paired with the client's live pointers.
    A release or resize of a non-null pointer that is not live is refused
    ([None]), as is running out of fuel. *)
Definition step (fuel : nat) (c : call) (s : state * list Z) : option (state * list Z) :=
  let '(st, live) := s in
  match c with
  | Call_malloc sz =>
      r <- my_malloc fuel sz st ;;
      Some (snd r, if fst r =? NULL then live else fst r :: live)
  | Call_calloc nmemb sz =>
      r <- my_calloc fuel nmemb sz st ;;
      Some (snd r, if fst r =? NULL then live else fst r :: live)
  | Call_free ptr =>
      if (ptr =? NULL) || existsb (Z.eqb ptr) live then
        st' <- my_free fuel ptr st ;;
        Some (st', filter (fun q => negb (q =? ptr)) live)
      else None
  | Call_realloc ptr sz =>
      if (ptr =? NULL) || existsb (Z.eqb ptr) live then
        r <- my_realloc fuel ptr sz st ;;
        let live' := if (fst r =? NULL) && negb (sz =? 0) then live
                     else filter (fun q => negb (q =? ptr)) live in
        Some (snd r, if fst r =? NULL then live' else fst r :: live')
      else None
  end.

Fixpoint run (fuel : nat) (cs : list call) (s : state * list Z) : option (state * list Z) :=
  match cs with
  | [] => Some s
  | c :: cs' => s' <- step fuel c s ;; run fuel cs' s'
  end.

(** The blocks behind the live pointers. *)
Definition allocated (st : state) (live : list Z) : list (Z * Z) :=
  map (fun p => (wrap (p - TOTAL_METADATA_SIZE),
                 size (hdr st (wrap (p - TOTAL_METADATA_SIZE))))) live.

(** The segments, in this order, cover [lo, hi) exactly: each starts where
    the previous one ends. *)
Fixpoint tiles (lo : Z) (segs : list (Z * Z)) (hi : Z) : Prop :=
  match segs with
  | [] => lo = hi
  | b :: segs' =>
      fst b = lo /\ 0 <= snd b /\
      tiles (fst b + TOTAL_METADATA_SIZE + snd b) segs' hi
  end.

(** The partition invariant of the specification: the free blocks and the
    live allocated blocks, put in address order, cover exactly the bytes
    obtained from [my_sbrk] since [base], and no two free blocks are
    adjacent. *)
Definition partition_invariant (base : Z) (st : state) (live : list Z) : Prop :=
  exists l segs,
    flist st l /\
    Permutation segs (blocks st l ++ allocated st live) /\
    tiles base segs (brk st) /\
    coalesced (blocks st l).

(** Bytes taken by a list of segments, headers included. *)
Definition span (segs : list (Z * Z)) : Z :=
  fold_right (fun b acc => TOTAL_METADATA_SIZE + snd b + acc) 0 segs.

(** *** Live blocks *)

(** Two blocks do not overlap. *)
Definition apart (st : state) (b a : Z) : Prop :=
  a + TOTAL_METADATA_SIZE + size (hdr st a) <= b \/
  b + TOTAL_METADATA_SIZE + size (hdr st b) <= a.

(** The block at [b] lies in the heap and overlaps no block of the free
    list [l]: what a pointer handed out by [my_malloc] and not yet released
    stands for. *)
Definition live_block (st : state) (l : list Z) (b : Z) : Prop :=
  1 <= b /\ 0 <= size (hdr st b) /\
  b + TOTAL_METADATA_SIZE + size (hdr st b) <= brk st /\
  Forall (apart st b) l.

(** No block ends exactly where the next one starts (integer arithmetic). *)
Fixpoint spaced (B : list (Z * Z)) : Prop :=
  match B with
  | [] => True
  | b :: B' =>
      match B' with
      | [] => True
      | c :: _ => fst b + TOTAL_METADATA_SIZE + snd b <> fst c
      end /\ spaced B'
  end.

(** On (address, size) pairs: block [x] does not overlap block [c]. *)
Definition clear_of (c x : Z * Z) : Prop :=
  fst x + TOTAL_METADATA_SIZE + snd x <= fst c \/
  fst c + TOTAL_METADATA_SIZE + snd c <= fst x.

End Allocator.

(** ** Concrete heaps: 16-byte headers and 2048-byte chunks *)

(** A heap from which nothing has been obtained yet. *)
Definition fresh_heap (h0 : Z -> metadata_t) (base limit : Z) : state :=
  mk_state h0 (fun _ => 0) NULL NO_ERROR base limit.

(** Header store holding zeroes everywhere. *)
Definition no_headers : Z -> metadata_t := fun _ => mk_metadata 0 0.

(** Header store of uninitialised memory (the region that [my_sbrk] returns
    is not zero-initialised): where the header of a block will later be
    carved, at 6028, the bytes of the [next] field hold the old value 4096,
    an address inside the first chunk. *)
Definition stale_headers : Z -> metadata_t :=
  fun a => if a =? 6028 then mk_metadata 4096 0 else mk_metadata 0 0.

Definition state_of (r : option (state * list Z)) : state :=
  match r with Some (st, _) => st | None => fresh_heap no_headers 0 0 end.

Definition live_of (r : option (state * list Z)) : list Z :=
  match r with Some (_, live) => live | None => [] end.

Definition heap0 : state := fresh_heap no_headers 4096 (4096 + 16 * 2048).

(** Three whole chunks are allocated, the first and third released and
    allocated again, and the first released once more. *)
Definition stale_link_trace : list call :=
  [Call_malloc 2032; Call_malloc 2032; Call_malloc 2032;
   Call_free 4112; Call_free 8208;
   Call_malloc 2032; Call_malloc 2032;
   Call_free 4112].

Definition after_stale_link : option (state * list Z) :=
  run 16 2048 20 stale_link_trace (heap0, []).

(** A free block of 4 GiB that ends at the program break, and a free block
    of [0xffffffff] bytes. *)
Definition huge_block : state :=
  mk_state (fun a => if a =? 4096 then mk_metadata 0 (2 ^ 32) else mk_metadata 0 0)
           (fun _ => 0) 4096 NO_ERROR (4096 + 16 + 2 ^ 32) (2 ^ 34).

(** Free blocks of 10, 20, 20 and 30 bytes, in address order. *)
Definition four_blocks : state :=
  mk_state (fun a => if a =? 4096 then mk_metadata 4200 10
                     else if a =? 4200 then mk_metadata 4300 20
                     else if a =? 4300 then mk_metadata 4400 20
                     else if a =? 4400 then mk_metadata 0 30
                     else mk_metadata 0 0)
           (fun _ => 0) 4096 NO_ERROR 8192 (4096 + 16 * 2048).

Definition sentinel_block : state :=
  mk_state (fun a => if a =? 4096 then mk_metadata 0 0xffffffff else mk_metadata 0 0)
           (fun _ => 0) 4096 NO_ERROR (2 ^ 33) (2 ^ 34).

(** Uninitialised memory: a 100-byte block is split off and the remainder
    allocated, which leaves the free list empty. *)
Definition after_two_mallocs : option (state * list Z) :=
  run 16 2048 20 [Call_malloc 100; Call_malloc 1916]
      (fresh_heap stale_headers 4096 (4096 + 16 * 2048), []).

(** A whole chunk allocated and released. *)
Definition after_malloc_free : option (state * list Z) :=
  run 16 2048 20 [Call_malloc 2032; Call_free 4112] (heap0, []).

(** A heap whose single chunk is allocated and which cannot grow. *)
Definition full_heap : option (state * list Z) :=
  run 16 2048 20 [Call_malloc 2032] (fresh_heap no_headers 4096 (4096 + 2048), []).

(** ... and the split-off block released: the free list receives it. *)
Definition after_stale_free : option (state * list Z) :=
  run 16 2048 20 [Call_malloc 100; Call_malloc 1916; Call_free 6044]
      (fresh_heap stale_headers 4096 (4096 + 16 * 2048), []).

(** An allocation from the empty heap, released at once. *)
Definition after_first_roundtrip : option (state * list Z) :=
  run 16 2048 20 [Call_malloc 100; Call_free 6044] (heap0, []).

(** Two physically adjacent free chunks, not yet merged. *)
Definition two_adjacent_chunks : state :=
  mk_state (fun a => if a =? 4096 then mk_metadata 6144 2032
                     else if a =? 6144 then mk_metadata 0 2032
                     else mk_metadata 0 0)
           (fun _ => 0) 4096 NO_ERROR 8192 (4096 + 16 * 2048).

(** Three physically adjacent free chunks, not yet merged. *)
Definition three_adjacent_chunks : state :=
  mk_state (fun a => if a =? 4096 then mk_metadata 6144 2032
                     else if a =? 6144 then mk_metadata 8192 2032
                     else if a =? 8192 then mk_metadata 0 2032
                     else mk_metadata 0 0)
           (fun _ => 0) 4096 NO_ERROR 10240 (4096 + 16 * 2048).

(** A heap with one free block of 1916 bytes and one live allocation. *)
Definition after_one_malloc : option (state * list Z) :=
  run 16 2048 20 [Call_malloc 100] (heap0, []).

(** A heap with one free block of 1700 bytes and two live allocations, of
    100 bytes (payload at 6044) and of 200 bytes (payload at 5828). *)
Definition after_two_splits : option (state * list Z) :=
  run 16 2048 20 [Call_malloc 100; Call_malloc 200] (heap0, []).

(** * Properties *)

Section Properties.

Variable TOTAL_METADATA_SIZE : Z.
Variable SBRK_SIZE : Z.

(** ** Machine arithmetic *)

Lemma modulus_val : modulus = 18446744073709551616.
Proof. reflexivity. Qed.

Lemma modulus_pos : 0 < modulus.
Proof. rewrite modulus_val. lia. Qed.

Lemma wrap_small (z : Z) : 0 <= z < modulus -> wrap z = z.
Proof. intros Hz. unfold wrap. apply Z.mod_small. exact Hz. Qed.

Lemma wrap_range (z : Z) : 0 <= wrap z < modulus.
Proof. unfold wrap. apply Z.mod_pos_bound. exact modulus_pos. Qed.

Lemma wrap_wrap (z : Z) : wrap (wrap z) = wrap z.
Proof. apply wrap_small, wrap_range. Qed.

Lemma wrap_add_l (a b : Z) : wrap (wrap a + b) = wrap (a + b).
Proof. unfold wrap. apply Zplus_mod_idemp_l. Qed.

Lemma wrap_add_r (a b : Z) : wrap (a + wrap b) = wrap (a + b).
Proof. unfold wrap. apply Zplus_mod_idemp_r. Qed.

(** ** List segments *)

Lemma lseg_frame (h h' : Z -> metadata_t) (l : list Z) :
  forall p q,
    (forall a, In a l -> next (h' a) = next (h a)) ->
    lseg h p q l -> lseg h' p q l.
Proof.
  induction l as [|a l IH]; intros p q Hsame Hl; simpl in *.
  - exact Hl.
  - destruct Hl as (Hp & Ha & Hl). repeat split; auto.
    rewrite (Hsame a) by (left; reflexivity).
    apply IH; auto.
Qed.

Lemma lseg_app (h : Z -> metadata_t) (l1 l2 : list Z) :
  forall p q r, lseg h p q l1 -> lseg h q r l2 -> lseg h p r (l1 ++ l2).
Proof.
  induction l1 as [|a l1 IH]; intros p q r H1 H2; simpl in *.
  - subst q. exact H2.
  - destruct H1 as (Hp & Ha & H1). repeat split; auto. eapply IH; eauto.
Qed.

Lemma lseg_app_inv (h : Z -> metadata_t) (l1 l2 : list Z) :
  forall p r, lseg h p r (l1 ++ l2) ->
              exists q, lseg h p q l1 /\ lseg h q r l2.
Proof.
  induction l1 as [|a l1 IH]; intros p r Hl; simpl in *.
  - exists p. split; [reflexivity | exact Hl].
  - destruct Hl as (Hp & Ha & Hl). destruct (IH _ _ Hl) as (q & Hq1 & Hq2).
    exists q. repeat split; auto.
Qed.

(** A null-terminated chain is determined by the store. *)
Lemma lseg_functional (h : Z -> metadata_t) (l1 : list Z) :
  forall l2 p, lseg h p NULL l1 -> lseg h p NULL l2 -> l1 = l2.
Proof.
  induction l1 as [|a l1 IH]; intros [|b l2] p H1 H2; simpl in *.
  - reflexivity.
  - destruct H2 as (Hp & Hb & _). congruence.
  - destruct H1 as (Hp & Ha & _). congruence.
  - destruct H1 as (Hp & Ha & H1). destruct H2 as (Hq & Hb & H2).
    subst p. subst b. f_equal. eapply IH; eauto.
Qed.

Lemma lseg_not_null (h : Z -> metadata_t) (l : list Z) :
  forall p q, lseg h p q l -> Forall (fun a => a <> NULL) l.
Proof.
  induction l as [|a l IH]; intros p q Hl; simpl in *.
  - constructor.
  - destruct Hl as (_ & Ha & Hl). constructor; eauto.
Qed.

Lemma walk_lseg (h : Z -> metadata_t) (l : list Z) :
  forall p fuel, lseg h p NULL l -> (length l < fuel)%nat -> walk fuel h p = Some l.
Proof.
  induction l as [|a l IH]; intros p fuel Hl Hf; simpl in *.
  - subst p. destruct fuel; [lia | reflexivity].
  - destruct Hl as (Hp & Ha & Hl). subst p.
    destruct fuel as [|fuel]; [lia|]. simpl.
    destruct (Z.eqb_spec a NULL) as [E|_]; [contradiction|].
    rewrite (IH _ fuel Hl) by lia. reflexivity.
Qed.

Lemma lseg_walk (h : Z -> metadata_t) (fuel : nat) :
  forall p l, walk fuel h p = Some l -> lseg h p NULL l.
Proof.
  induction fuel as [|fuel IH]; intros p l Hw; simpl in *.
  - discriminate.
  - destruct (Z.eqb_spec p NULL) as [E|E].
    + inversion Hw. subst. reflexivity.
    + destruct (walk fuel h (next (h p))) as [l'|] eqn:E'; simpl in Hw; [|discriminate].
      inversion Hw. subst. simpl. repeat split; auto.
Qed.

Lemma ascending_NoDup (l : list Z) : ascending l -> NoDup l.
Proof.
  induction 1 as [|a l Hs IH Hall]; constructor; auto.
  intros Hin. rewrite Forall_forall in Hall. specialize (Hall _ Hin). lia.
Qed.

Lemma ascending_app (l1 l2 : list Z) :
  ascending (l1 ++ l2) <->
  ascending l1 /\ ascending l2 /\ (forall a b, In a l1 -> In b l2 -> a < b).
Proof.
  unfold ascending. induction l1 as [|x l1 IH]; simpl.
  - split.
    + intros Hs. repeat split; auto. constructor. intros a b [].
    + intros (_ & Hs & _). exact Hs.
  - split.
    + intros Hs. inversion Hs as [|? ? Hs' Hall]; subst.
      apply IH in Hs'. destruct Hs' as (H1 & H2 & H12).
      rewrite Forall_app in Hall. destruct Hall as (Ha1 & Ha2).
      repeat split; auto.
      * constructor; auto.
      * intros a b [Ha|Ha] Hb.
        -- subst a. rewrite Forall_forall in Ha2. auto.
        -- auto.
    + intros (H1 & H2 & H12). inversion H1 as [|? ? Hs' Hall]; subst.
      constructor.
      * apply IH. repeat split; auto.
      * rewrite Forall_app. split; auto.
        rewrite Forall_forall. intros b Hb. apply H12; auto.
Qed.

Lemma last_cons_default (l : list Z) :
  forall x d d', last (x :: l) d = last (x :: l) d'.
Proof.
  induction l as [|y l IH]; intros x d d'; [reflexivity|].
  change (last (x :: y :: l) d) with (last (y :: l) d).
  change (last (x :: y :: l) d') with (last (y :: l) d'). apply IH.
Qed.

(** ** Sorted insertion: [add_to_addr_list] *)

Lemma insert_by_address_split (b : Z) (l1 l2 : list Z) :
  Forall (fun a => a < b) l1 ->
  match l2 with [] => True | c :: _ => b < c end ->
  insert_by_address b (l1 ++ l2) = l1 ++ b :: l2.
Proof.
  induction l1 as [|a l1 IH]; intros Hl1 Hl2; simpl.
  - destruct l2 as [|c l2]; [reflexivity|].
    simpl. destruct (Z.ltb_spec b c); [reflexivity | lia].
  - inversion Hl1; subst. destruct (Z.ltb_spec b a); [lia|].
    rewrite IH; auto.
Qed.

Lemma insert_by_address_ascending (b : Z) (l : list Z) :
  ascending l -> ~ In b l -> ascending (insert_by_address b l).
Proof.
  unfold ascending. induction l as [|a l IH]; intros Hs Hn; simpl.
  - repeat constructor.
  - inversion Hs as [|? ? Hs' Hall]; subst.
    destruct (Z.ltb_spec b a) as [Hlt|Hge].
    + constructor; [exact Hs|]. constructor; [exact Hlt|].
      rewrite Forall_forall in *. intros x Hx. specialize (Hall _ Hx). lia.
    + assert (a < b) by (assert (a <> b) by (intros ->; apply Hn; left; reflexivity); lia).
      constructor.
      * apply IH; auto. intros Hin. apply Hn. right. exact Hin.
      * rewrite Forall_forall in *. intros x Hx.
        assert (Hx' : In x (b :: l)).
        { clear - Hx. induction l as [|c l IHl]; simpl in *.
          - exact Hx.
          - destruct (b <? c); simpl in *.
            + destruct Hx as [Hx|[Hx|Hx]]; auto.
            + destruct Hx as [Hx|Hx]; auto.
              destruct (IHl Hx) as [E|E]; auto. }
        destruct Hx' as [E|Hx']; [subst; assumption | auto].
Qed.

Lemma insert_by_address_In (b : Z) (l : list Z) (x : Z) :
  In x (insert_by_address b l) <-> x = b \/ In x l.
Proof.
  induction l as [|a l IH]; simpl.
  - intuition.
  - destruct (b <? a); simpl; rewrite ?IH; intuition.
Qed.

Lemma insert_by_address_length (b : Z) (l : list Z) :
  length (insert_by_address b l) = S (length l).
Proof.
  induction l as [|a l IH]; simpl; [reflexivity|].
  destruct (b <? a); simpl; rewrite ?IH; reflexivity.
Qed.

Lemma add_scan_spec (st : state) (block : Z) (l : list Z) :
  forall fuel prev curr,
    lseg (hdr st) curr NULL l -> (length l < fuel)%nat ->
    exists l1 l2 curr',
      add_scan fuel block prev curr st = Some (last l1 prev, curr') /\
      l = l1 ++ l2 /\
      Forall (fun a => a < block) l1 /\
      lseg (hdr st) curr curr' l1 /\
      lseg (hdr st) curr' NULL l2 /\
      match l2 with [] => True | c :: _ => block <= c end.
Proof.
  induction l as [|a l IH]; intros fuel prev curr Hl Hf; simpl in Hl.
  - subst curr. destruct fuel as [|fuel]; [simpl in Hf; lia|].
    exists [], [], NULL. simpl. repeat split; auto.
  - destruct Hl as (Hc & Ha & Hl). subst curr.
    destruct fuel as [|fuel]; [simpl in Hf; lia|]. simpl in Hf.
    simpl. destruct (Z.eqb_spec a NULL) as [E|_]; [contradiction|]. simpl.
    destruct (Z.ltb_spec a block) as [Hlt|Hge].
    + destruct (IH fuel a _ Hl ltac:(lia)) as (l1 & l2 & curr' & Hs & Hl12 & Hall & Hs1 & Hs2 & Hhd).
      exists (a :: l1), l2, curr'. repeat split; auto.
      * rewrite Hs. f_equal. f_equal.
        destruct l1 as [|x l1]; [reflexivity|].
        change (last (a :: x :: l1) prev) with (last (x :: l1) prev).
        apply last_cons_default.
      * simpl. congruence.
    + exists [], (a :: l), a. simpl. repeat split; auto.
Qed.

Lemma add_to_addr_list_nonempty (st : state) (block : Z) (l : list Z) (fuel : nat) :
  flist st l -> ascending l -> l <> [] -> ~ In block l -> block <> NULL ->
  (length l < fuel)%nat ->
  exists st',
    add_to_addr_list fuel block st = Some st' /\
    flist st' (insert_by_address block l) /\
    (forall a, size (hdr st' a) = size (hdr st a)) /\
    (forall a, a <> block -> ~ In a l -> hdr st' a = hdr st a) /\
    same_globals st st'.
Proof.
  intros Hfl Hasc Hne Hnin Hnz Hfuel. unfold flist in Hfl.
  unfold add_to_addr_list.
  destruct (Z.eqb_spec (address_list st) NULL) as [E|Hhead].
  { destruct l; [congruence|]. simpl in Hfl. destruct Hfl as (E1 & E2 & _). congruence. }
  destruct (add_scan_spec st block l fuel NULL _ Hfl Hfuel)
    as (l1 & l2 & curr' & Hs & Hl12 & Hall & Hs1 & Hs2 & Hhd).
  rewrite Hs. simpl. subst l.
  assert (Hl2 : match l2 with [] => True | c :: _ => block < c end).
  { destruct l2 as [|c l2]; [exact I|].
    assert (c <> block) by (intros ->; apply Hnin; apply in_or_app; right; left; reflexivity).
    lia. }
  rewrite insert_by_address_split by assumption.
  apply ascending_app in Hasc. destruct Hasc as (Ha1 & Ha2 & Ha12).
  assert (Hb1 : ~ In block l1) by (intros Hin; apply Hnin, in_or_app; auto).
  assert (Hb2 : ~ In block l2) by (intros Hin; apply Hnin, in_or_app; auto).
  destruct l1 as [|x l1'] using rev_ind.
  - (* the block becomes the head *)
    simpl. simpl in Hs1. eexists. split; [reflexivity|].
    split; [|split; [|split]].
    + unfold flist. simpl. split; [reflexivity|]. split; [exact Hnz|].
      rewrite Z.eqb_refl. simpl.
      eapply lseg_frame; [|exact Hs2]. intros a Hin. simpl.
      destruct (Z.eqb_spec a block); [subst; contradiction | reflexivity].
    + intros a. simpl. destruct (Z.eqb_spec a block); [subst|]; reflexivity.
    + intros a Hne' _. simpl. destruct (Z.eqb_spec a block); [contradiction | reflexivity].
    + unfold same_globals. simpl. auto.
  - (* the block is linked after [x] *)
    clear IHl1'. rewrite last_last.
    apply lseg_app_inv in Hs1. destruct Hs1 as (q & Hq1 & Hq2).
    simpl in Hq2. destruct Hq2 as (Eq & Hx & Hxn). subst q. subst curr'.
    destruct (Z.eqb_spec x NULL) as [E|_]; [contradiction|].
    apply ascending_app in Ha1. destruct Ha1 as (Ha1' & _ & Hlt1).
    assert (Hxb : x < block).
    { rewrite Forall_forall in Hall. apply Hall, in_or_app. right. left. reflexivity. }
    assert (Hx1 : ~ In x l1').
    { intros Hin. specialize (Hlt1 x x Hin ltac:(left; reflexivity)). lia. }
    assert (Hx2 : ~ In x l2).
    { intros Hin. specialize (Ha12 x x ltac:(apply in_or_app; right; left; reflexivity) Hin). lia. }
    eexists. split; [reflexivity|].
    split; [|split; [|split]].
    + unfold flist. simpl. rewrite <- app_assoc. simpl.
      eapply lseg_app.
      * eapply lseg_frame; [|exact Hq1]. intros a Hin. simpl.
        destruct (Z.eqb_spec a block) as [->|_].
        { exfalso. apply Hb1, in_or_app. auto. }
        destruct (Z.eqb_spec a x) as [->|_]; [contradiction | reflexivity].
      * simpl. split; [reflexivity|]. split; [exact Hx|].
        destruct (Z.eqb_spec x block) as [E|_]; [lia|].
        rewrite Z.eqb_refl. simpl.
        split; [reflexivity|]. split; [exact Hnz|].
        rewrite Z.eqb_refl. simpl.
        eapply lseg_frame; [|exact Hs2]. intros a Hin. simpl.
        destruct (Z.eqb_spec a block) as [->|_]; [contradiction|].
        destruct (Z.eqb_spec a x) as [->|_]; [contradiction | reflexivity].
    + intros a. simpl. destruct (Z.eqb_spec a block) as [->|_]; simpl.
      * destruct (Z.eqb_spec block x) as [E|_]; [lia | reflexivity].
      * destruct (Z.eqb_spec a x) as [->|_]; reflexivity.
    + intros a Hab Hal. simpl. destruct (Z.eqb_spec a block) as [E|_]; [contradiction|].
      destruct (Z.eqb_spec a x) as [->|_]; [|reflexivity].
      exfalso. apply Hal. apply in_or_app. left. apply in_or_app. right. left. reflexivity.
    + unfold same_globals. simpl. auto.
Qed.

(** With an empty free list the block becomes the head, and its [next] field
    is left as it is (line 69-70). *)
Lemma add_to_addr_list_empty (st : state) (block : Z) (fuel : nat) :
  address_list st = NULL ->
  add_to_addr_list fuel block st = Some (set_address_list block st).
Proof.
  intros E. unfold add_to_addr_list. rewrite E. reflexivity.
Qed.

(** ** Coalescing: [merge] and [mergeAll] *)

Local Abbreviation block_end := (block_end TOTAL_METADATA_SIZE).
Local Abbreviation adjacent := (adjacent TOTAL_METADATA_SIZE).
Local Abbreviation absorb := (absorb TOTAL_METADATA_SIZE).
Local Abbreviation coalesce_from := (coalesce_from TOTAL_METADATA_SIZE).
Local Abbreviation coalesce := (coalesce TOTAL_METADATA_SIZE).
Local Abbreviation merge_pass := (merge_pass TOTAL_METADATA_SIZE).
Local Abbreviation any_adjacent := (any_adjacent TOTAL_METADATA_SIZE).
Local Abbreviation coalesced := (coalesced TOTAL_METADATA_SIZE).
Local Abbreviation laid_out := (laid_out TOTAL_METADATA_SIZE).
Local Abbreviation heap_ok := (heap_ok TOTAL_METADATA_SIZE).
Local Abbreviation merge := (merge TOTAL_METADATA_SIZE).
Local Abbreviation mergeAll_loop := (mergeAll_loop TOTAL_METADATA_SIZE).
Local Abbreviation mergeAll := (mergeAll TOTAL_METADATA_SIZE).

Lemma blocks_fst (st : state) (l : list Z) : map fst (blocks st l) = l.
Proof.
  unfold blocks. rewrite map_map. simpl. apply map_id.
Qed.

Lemma blocks_same (st st' : state) (l : list Z) :
  (forall a, In a l -> size (hdr st' a) = size (hdr st a)) ->
  blocks st' l = blocks st l.
Proof.
  intros Hs. unfold blocks. apply map_ext_in. intros a Ha. rewrite Hs; auto.
Qed.

Lemma absorb_end (x c : Z * Z) :
  block_end x = fst c -> block_end (absorb x c) = block_end c.
Proof.
  unfold MyMalloc.block_end, MyMalloc.absorb. simpl. intros Hx.
  rewrite wrap_add_r.
  replace (fst x + TOTAL_METADATA_SIZE + (snd x + snd c + TOTAL_METADATA_SIZE))
    with ((fst x + TOTAL_METADATA_SIZE + snd x) + (TOTAL_METADATA_SIZE + snd c)) by ring.
  rewrite <- wrap_add_l. rewrite Hx. f_equal. ring.
Qed.

Lemma absorb_assoc (x p b : Z * Z) :
  absorb x (absorb p b) = absorb (absorb x p) b.
Proof.
  unfold MyMalloc.absorb. simpl. f_equal.
  replace (snd x + wrap (snd p + snd b + TOTAL_METADATA_SIZE) + TOTAL_METADATA_SIZE)
    with ((snd x + TOTAL_METADATA_SIZE) + wrap (snd p + snd b + TOTAL_METADATA_SIZE)) by ring.
  replace (wrap (snd x + snd p + TOTAL_METADATA_SIZE) + snd b + TOTAL_METADATA_SIZE)
    with (wrap (snd x + snd p + TOTAL_METADATA_SIZE) + (snd b + TOTAL_METADATA_SIZE)) by ring.
  rewrite wrap_add_r, wrap_add_l. f_equal. ring.
Qed.

Lemma merge_pass_dead (c : Z * Z) (rest : list (Z * Z)) :
  merge_pass false c rest =
  match rest with [] => [] | b :: r => merge_pass true b r end.
Proof.
  destruct rest as [|b r]; simpl; [reflexivity|].
  destruct (adjacent c (fst b)); reflexivity.
Qed.

(** Coalescing the result of one pass is coalescing the list. *)
Lemma coalesce_from_merge_pass (n : nat) :
  forall rest p x, (length rest <= n)%nat ->
    coalesce_from x (merge_pass true p rest) = coalesce_from x (p :: rest).
Proof.
  induction n as [|n IH]; intros rest p x Hlen.
  - destruct rest; [reflexivity | simpl in Hlen; lia].
  - destruct rest as [|b r]; [reflexivity|]. simpl in Hlen.
    assert (Hdead : forall c y, coalesce_from y (merge_pass false c r) = coalesce_from y r).
    { intros c y. rewrite merge_pass_dead. destruct r as [|b2 r2]; [reflexivity|].
      apply IH. simpl in Hlen. lia. }
    cbn [MyMalloc.merge_pass].
    destruct (adjacent p (fst b)) eqn:Hpb.
    + cbn [MyMalloc.coalesce_from]. cbn [fst MyMalloc.absorb].
      change (fst (absorb p b)) with (fst p).
      destruct (adjacent x (fst p)) eqn:Hxp.
      * rewrite Hdead. rewrite absorb_assoc.
        assert (Hadj : adjacent (absorb x p) (fst b) = true).
        { unfold MyMalloc.adjacent in *. apply Z.eqb_eq in Hxp, Hpb. apply Z.eqb_eq.
          rewrite absorb_end; assumption. }
        rewrite Hadj. reflexivity.
      * rewrite Hdead. rewrite Hpb. reflexivity.
    + cbn [app MyMalloc.coalesce_from].
      destruct (adjacent x (fst p)) eqn:Hxp.
      * rewrite IH by lia. reflexivity.
      * rewrite IH by lia. cbn [MyMalloc.coalesce_from]. rewrite Hpb. reflexivity.
Qed.

Lemma coalesce_merge_pass (p : Z * Z) (rest : list (Z * Z)) :
  coalesce (merge_pass true p rest) = coalesce (p :: rest).
Proof.
  pose proof (coalesce_from_merge_pass (length rest) rest p p (le_n _)) as Hc.
  destruct rest as [|b r]; [reflexivity|].
  cbn [MyMalloc.merge_pass] in *. cbn [MyMalloc.coalesce MyMalloc.coalesce_from] in *.
  destruct (adjacent p (fst b)) eqn:Hpb.
  - cbn [MyMalloc.coalesce].
    rewrite merge_pass_dead. destruct r as [|b2 r2]; [reflexivity|].
    apply (coalesce_from_merge_pass (length r2)). lia.
  - cbn [app MyMalloc.coalesce].
    rewrite (coalesce_from_merge_pass (length r)) by lia.
    cbn [MyMalloc.coalesce_from]. rewrite Hpb. reflexivity.
Qed.

Lemma no_adjacent_fixed (rest : list (Z * Z)) :
  forall p, any_adjacent p rest = false ->
            merge_pass true p rest = p :: rest /\ coalesce_from p rest = p :: rest.
Proof.
  induction rest as [|c rest IH]; intros p Hna; simpl in *.
  - auto.
  - apply orb_false_iff in Hna. destruct Hna as (Hpc & Hna).
    rewrite Hpc. destruct (IH c Hna) as (H1 & H2). rewrite H1, H2. auto.
Qed.

Lemma merge_pass_length (rest : list (Z * Z)) :
  forall live p,
    (length (merge_pass live p rest) <= length rest + (if live then 1 else 0))%nat /\
    (live = true -> any_adjacent p rest = true ->
     (length (merge_pass live p rest) <= length rest)%nat).
Proof.
  induction rest as [|c rest IH]; intros live p; simpl.
  - destruct live; simpl; split; auto; intros; discriminate.
  - destruct (IH true c) as (Ht1 & Ht2). destruct (IH false c) as (Hf1 & _).
    destruct (adjacent p (fst c)); destruct live; simpl in *; split; intros; try lia.
    specialize (Ht2 eq_refl H0). lia.
Qed.

Lemma merge_pass_addresses (rest : list (Z * Z)) :
  forall live p,
    ascending (fst p :: map fst rest) ->
    ascending (map fst (merge_pass live p rest)) /\
    incl (map fst (merge_pass live p rest)) (fst p :: map fst rest) /\
    (live = true ->
     exists s r, merge_pass live p rest = (fst p, s) :: r).
Proof.
  unfold ascending.
  induction rest as [|c rest IH]; intros live p Hasc; simpl.
  - destruct live; simpl; (split; [|split]).
    + repeat constructor.
    + intros x Hx. exact Hx.
    + intros _. exists (snd p), []. destruct p; reflexivity.
    + constructor.
    + intros x [].
    + discriminate.
  - inversion Hasc as [|? ? Hasc' Hall]; subst.
    destruct (IH true c Hasc') as (Ht1 & Ht2 & Ht3).
    destruct (IH false c Hasc') as (Hf1 & Hf2 & _).
    assert (Hlt : forall l', incl l' (fst c :: map fst rest) -> Forall (Z.lt (fst p)) l').
    { intros l' Hincl. rewrite Forall_forall in *. intros x Hx. apply Hall.
      apply Hincl in Hx. exact Hx. }
    destruct (adjacent p (fst c)); destruct live; simpl; (split; [|split]).
    + constructor; auto.
    + intros x [Hx|Hx]; [left; exact Hx | right; apply Hf2; exact Hx].
    + intros _. eexists _, _. reflexivity.
    + exact Ht1.
    + intros x Hx. right. apply Ht2. exact Hx.
    + discriminate.
    + constructor; auto.
    + intros x [Hx|Hx]; [left; exact Hx | right; apply Ht2; exact Hx].
    + intros _. exists (snd p). eexists. destruct p; reflexivity.
    + exact Ht1.
    + intros x Hx. right. apply Ht2. exact Hx.
    + discriminate.
Qed.

Lemma merge_hdr (left right : Z) (st : state) :
  left <> right ->
  hdr (merge left right st) left =
    mk_metadata (next (hdr st right))
                (wrap (size (hdr st left) + size (hdr st right) + TOTAL_METADATA_SIZE)) /\
  (forall a, a <> left -> hdr (merge left right st) a = hdr st a) /\
  address_list (merge left right st) = address_list st /\
  same_globals st (merge left right st).
Proof.
  intros Hne. unfold MyMalloc.merge, same_globals. simpl.
  rewrite Z.eqb_refl. simpl.
  destruct (Z.eqb_spec right left) as [E|_]; [congruence|].
  repeat split; auto.
  intros a Ha. destruct (Z.eqb_spec a left); [contradiction | reflexivity].
Qed.

Lemma same_globals_refl (st : state) : same_globals st st.
Proof. unfold same_globals. auto. Qed.

Lemma same_globals_trans (st1 st2 st3 : state) :
  same_globals st1 st2 -> same_globals st2 st3 -> same_globals st1 st3.
Proof.
  unfold same_globals. intros (A1 & A2 & A3 & A4) (B1 & B2 & B3 & B4).
  repeat split; congruence.
Qed.

(** The loop of [mergeAll] computes [merge_pass] on the blocks of the list. *)
Lemma mergeAll_loop_spec (rest : list Z) :
  forall fuel live prev curr i st,
    lseg (hdr st) curr NULL rest ->
    NoDup (prev :: rest) ->
    (live = true -> prev <> NULL /\ next (hdr st prev) = curr) ->
    (length rest < fuel)%nat ->
    exists st',
      mergeAll_loop fuel prev curr i st =
        Some (st', i || any_adjacent (prev, size (hdr st prev)) (blocks st rest)) /\
      lseg (hdr st') (if live then prev else curr) NULL
           (map fst (merge_pass live (prev, size (hdr st prev)) (blocks st rest))) /\
      blocks st' (map fst (merge_pass live (prev, size (hdr st prev)) (blocks st rest)))
        = merge_pass live (prev, size (hdr st prev)) (blocks st rest) /\
      (forall a, ~ In a (prev :: rest) -> hdr st' a = hdr st a) /\
      address_list st' = address_list st /\
      same_globals st st' /\
      (any_adjacent (prev, size (hdr st prev)) (blocks st rest) = false -> st' = st).
Proof.
  induction rest as [|c rest IH]; intros fuel live prev curr i st Hl Hnd Hlive Hfuel.
  - simpl in Hl. subst curr.
    destruct fuel as [|fuel]; [simpl in Hfuel; lia|].
    exists st. simpl. rewrite orb_false_r.
    split; [reflexivity|]. split; [|split; [|split; [|split; [|split]]]]; auto.
    + destruct live; simpl; [|reflexivity].
      destruct (Hlive eq_refl) as (Hp & Hn). auto.
    + destruct live; reflexivity.
    + apply same_globals_refl.
  - simpl in Hl. destruct Hl as (Hc & Hcn & Hl). subst curr.
    destruct fuel as [|fuel]; [simpl in Hfuel; lia|]. simpl in Hfuel.
    assert (Hpc : prev <> c).
    { inversion Hnd; subst. intros ->. apply H1. left. reflexivity. }
    assert (Hnd' : NoDup (c :: rest)) by (inversion Hnd; assumption).
    assert (Hprest : ~ In prev rest).
    { inversion Hnd; subst. intros Hin. apply H1. right. exact Hin. }
    assert (Hcrest : ~ In c rest) by (inversion Hnd'; assumption).
    cbn [MyMalloc.mergeAll_loop].
    destruct (Z.eqb_spec c NULL) as [E|_]; [contradiction|].
    cbn [blocks map MyMalloc.merge_pass MyMalloc.any_adjacent].
    unfold MyMalloc.adjacent, MyMalloc.block_end. cbn [fst snd].
    destruct (Z.eqb_spec (wrap (prev + TOTAL_METADATA_SIZE + size (hdr st prev))) c)
      as [Hadj|Hadj].
    + (* merge(prev, curr), then prev = curr *)
      destruct (merge_hdr prev c st Hpc) as (Hm1 & Hm2 & Hm3 & Hm4).
      set (st1 := merge prev c st) in *.
      assert (Hc1 : hdr st1 c = hdr st c) by (apply Hm2; auto).
      assert (Hb1 : blocks st1 rest = blocks st rest).
      { apply blocks_same. intros a Ha. rewrite Hm2; auto. intros ->. contradiction. }
      destruct (IH fuel (negb live) c (next (hdr st1 c)) true st1)
        as (st' & Hrun & Hseg & Hblk & Hfoot & Hhead & Hglob & _).
      { rewrite Hc1. eapply lseg_frame; [|exact Hl]. intros a Ha.
        rewrite Hm2; auto. intros ->. contradiction. }
      { exact Hnd'. }
      { intros _. split; auto. }
      { lia. }
      rewrite Hc1, Hb1 in *.
      exists st'. rewrite Hrun. rewrite orb_true_r. simpl.
      split; [reflexivity|].
      assert (Hp' : hdr st' prev = hdr st1 prev).
      { apply Hfoot. intros [E|E]; [congruence | contradiction]. }
      split; [|split; [|split; [|split; [|split]]]].
      * destruct live; simpl in *.
        -- destruct (Hlive eq_refl) as (Hp & Hn).
           split; [reflexivity|]. split; [exact Hp|].
           rewrite Hp', Hm1. simpl. exact Hseg.
        -- exact Hseg.
      * destruct live; simpl in *.
        -- rewrite Hp', Hm1. simpl. unfold MyMalloc.absorb. simpl. f_equal. exact Hblk.
        -- exact Hblk.
      * intros a Ha. rewrite Hfoot.
        -- apply Hm2. intros ->. apply Ha. left. reflexivity.
        -- intros Hin. apply Ha. right. exact Hin.
      * congruence.
      * apply (same_globals_trans st st1 st'); assumption.
      * discriminate.
    + (* no merge *)
      destruct (IH fuel true c (next (hdr st c)) i st)
        as (st' & Hrun & Hseg & Hblk & Hfoot & Hhead & Hglob & Hsame); auto.
      { lia. }
      exists st'. rewrite Hrun. simpl.
      split; [reflexivity|].
      assert (Hp' : hdr st' prev = hdr st prev).
      { apply Hfoot. intros [E|E]; [congruence | contradiction]. }
      split; [|split; [|split; [|split; [|split]]]].
      * destruct live; simpl in *.
        -- destruct (Hlive eq_refl) as (Hp & Hn).
           split; [reflexivity|]. split; [exact Hp|].
           rewrite Hp', Hn. exact Hseg.
        -- exact Hseg.
      * destruct live; simpl in *.
        -- rewrite Hp'. f_equal. exact Hblk.
        -- exact Hblk.
      * intros a Ha. apply Hfoot. intros Hin. apply Ha. right. exact Hin.
      * exact Hhead.
      * exact Hglob.
      * exact Hsame.
Qed.

Lemma coalesce_from_addresses (rest : list (Z * Z)) :
  forall p,
    ascending (fst p :: map fst rest) ->
    ascending (map fst (coalesce_from p rest)) /\
    incl (map fst (coalesce_from p rest)) (fst p :: map fst rest) /\
    exists s r, coalesce_from p rest = (fst p, s) :: r.
Proof.
  unfold ascending.
  induction rest as [|c rest IH]; intros p Hasc; simpl.
  - split; [exact Hasc|]. split; [intros x Hx; exact Hx|].
    exists (snd p), []. destruct p; reflexivity.
  - inversion Hasc as [|? ? Hasc' Hall]; subst.
    inversion Hall as [|? ? Hpc Hall']; subst.
    destruct (adjacent p (fst c)).
    + destruct (IH (absorb p c)) as (H1 & H2 & H3).
      { constructor; [inversion Hasc'; assumption | exact Hall']. }
      split; [exact H1|]. split; [|exact H3].
      intros x Hx. apply H2 in Hx. destruct Hx as [Hx|Hx]; [left; exact Hx | right; right; exact Hx].
    + destruct (IH c Hasc') as (H1 & H2 & H3).
      split; [|split].
      * simpl. constructor; [exact H1|].
        rewrite Forall_forall in *. intros x Hx. apply Hall. apply H2. exact Hx.
      * simpl. intros x [Hx|Hx]; [left; exact Hx | right; apply H2; exact Hx].
      * exists (snd p). eexists. destruct p; reflexivity.
Qed.

Lemma coalesce_addresses (B : list (Z * Z)) :
  ascending (map fst B) ->
  ascending (map fst (coalesce B)) /\ incl (map fst (coalesce B)) (map fst B).
Proof.
  destruct B as [|p rest]; simpl; intros Hasc.
  - split; [exact Hasc | intros x Hx; exact Hx].
  - destruct (coalesce_from_addresses rest p Hasc) as (H1 & H2 & _). auto.
Qed.

Lemma coalesce_from_coalesced (rest : list (Z * Z)) :
  forall p, coalesced (coalesce_from p rest).
Proof.
  induction rest as [|c rest IH]; intros p; simpl.
  - reflexivity.
  - destruct (adjacent p (fst c)) eqn:Hpc.
    + apply IH.
    + specialize (IH c). simpl.
      assert (Hhd : exists s r, coalesce_from c rest = (fst c, s) :: r).
      { clear. revert c. induction rest as [|d rest IHr]; intros c; simpl.
        - exists (snd c), []. destruct c; reflexivity.
        - destruct (adjacent c (fst d)).
          + destruct (IHr (absorb c d)) as (s & r & E). exists s, r. exact E.
          + exists (snd c). eexists. destruct c; reflexivity. }
      destruct Hhd as (s & r & E). rewrite E in *. simpl in *.
      rewrite Hpc. exact IH.
Qed.

Lemma coalesce_coalesced (B : list (Z * Z)) : coalesced (coalesce B).
Proof.
  destruct B as [|p rest]; simpl; [exact I | apply coalesce_from_coalesced].
Qed.

Lemma coalesced_fixed (B : list (Z * Z)) : coalesced B -> coalesce B = B.
Proof.
  destruct B as [|p rest]; simpl; intros Hc; [reflexivity|].
  apply no_adjacent_fixed. exact Hc.
Qed.

(** [mergeAll] terminates on every address-ordered list and computes
    [coalesce] on its blocks, writing only headers of list entries. *)
Lemma mergeAll_spec (n : nat) :
  forall l st fuel,
    (length l <= n)%nat -> flist st l -> ascending l -> (n < fuel)%nat ->
    exists st',
      mergeAll fuel st = Some st' /\
      flist st' (map fst (coalesce (blocks st l))) /\
      blocks st' (map fst (coalesce (blocks st l))) = coalesce (blocks st l) /\
      (forall a, ~ In a l -> hdr st' a = hdr st a) /\
      address_list st' = address_list st /\
      same_globals st st' /\
      (coalesced (blocks st l) -> st' = st).
Proof.
  induction n as [|n IH]; intros l st fuel Hlen Hfl Hasc Hfuel.
  - destruct l as [|a rest]; [|simpl in Hlen; lia].
    unfold flist in Hfl. simpl in Hfl.
    destruct fuel as [|fuel]; [lia|]. cbn [MyMalloc.mergeAll]. rewrite Hfl. simpl.
    exists st. repeat split; auto.
  - destruct l as [|a rest].
    { unfold flist in Hfl. simpl in Hfl.
      destruct fuel as [|fuel]; [lia|]. cbn [MyMalloc.mergeAll]. rewrite Hfl. simpl.
      exists st. repeat split; auto. }
    pose proof Hfl as Hfl0.
    unfold flist in Hfl. simpl in Hfl. destruct Hfl as (Hhd & Ha & Hrest).
    simpl in Hlen. destruct fuel as [|fuel]; [lia|].
    cbn [MyMalloc.mergeAll]. rewrite Hhd.
    destruct (Z.eqb_spec a NULL) as [E|_]; [contradiction|].
    destruct (mergeAll_loop_spec rest (S fuel) true a (next (hdr st a)) false st)
      as (st1 & Hrun & Hseg & Hblk & Hfoot & Hhead & Hglob & Hsame).
    { exact Hrest. }
    { apply ascending_NoDup. exact Hasc. }
    { intros _. auto. }
    { lia. }
    rewrite Hrun. cbn [bind fst snd orb].
    change (blocks st (a :: rest)) with ((a, size (hdr st a)) :: blocks st rest).
    destruct (any_adjacent (a, size (hdr st a)) (blocks st rest)) eqn:Hany.
    + (* a merge happened: recurse on a shorter list *)
      assert (Hasc0 : ascending (fst (a, size (hdr st a)) :: map fst (blocks st rest))).
      { rewrite blocks_fst. exact Hasc. }
      destruct (merge_pass_addresses (blocks st rest) true (a, size (hdr st a)) Hasc0)
        as (Hasc1 & Hincl & _).
      destruct (merge_pass_length (blocks st rest) true (a, size (hdr st a))) as (_ & Hshort).
      specialize (Hshort eq_refl Hany).
      set (P := merge_pass true (a, size (hdr st a)) (blocks st rest)) in *.
      destruct (IH (map fst P) st1 fuel) as (st' & Hrun' & Hfl' & Hblk' & Hfoot' & Hhead' & Hglob' & _).
      { rewrite length_map. unfold blocks in Hshort. rewrite length_map in Hshort. lia. }
      { unfold flist. rewrite Hhead, Hhd. exact Hseg. }
      { exact Hasc1. }
      { lia. }
      rewrite Hblk in *. unfold P in Hfl', Hblk'. rewrite coalesce_merge_pass in *.
      exists st'. split; [exact Hrun'|].
      split; [exact Hfl'|]. split; [exact Hblk'|].
      split; [|split; [|split]].
      * intros x Hx. rewrite Hfoot'.
        -- apply Hfoot. exact Hx.
        -- intros Hin. apply Hincl in Hin. simpl in Hin. rewrite blocks_fst in Hin. contradiction.
      * congruence.
      * apply (same_globals_trans st st1 st'); assumption.
      * simpl. intros Hc. congruence.
    + specialize (Hsame eq_refl). subst st1.
      destruct (no_adjacent_fixed _ _ Hany) as (HP & HC).
      exists st. split; [reflexivity|].
      cbn [MyMalloc.coalesce]. rewrite HC.
      change ((a, size (hdr st a)) :: blocks st rest) with (blocks st (a :: rest)).
      rewrite blocks_fst.
      repeat split; auto.
Qed.

(** ** Removal: [remove_from_addr_list] *)

Lemma remove_scan_spec (st : state) (block : Z) (l1 : list Z) :
  forall fuel prev curr,
    lseg (hdr st) curr block l1 -> ~ In block l1 ->
    (length l1 < fuel)%nat ->
    remove_scan fuel block prev curr st = Some (last l1 prev, block).
Proof.
  induction l1 as [|a l1 IH]; intros fuel prev curr Hl Hnin Hfuel; simpl in Hl.
  - subst curr. destruct fuel as [|fuel]; [simpl in Hfuel; lia|]. simpl.
    rewrite Z.eqb_refl. rewrite andb_false_r. reflexivity.
  - destruct Hl as (Hc & Ha & Hl). subst curr.
    destruct fuel as [|fuel]; [simpl in Hfuel; lia|]. simpl in Hfuel. simpl.
    destruct (Z.eqb_spec a NULL) as [E|_]; [contradiction|].
    destruct (Z.eqb_spec a block) as [E|_].
    { exfalso. apply Hnin. left. exact E. }
    simpl. rewrite (IH fuel a) by (auto; try lia; intros Hin; apply Hnin; right; exact Hin).
    destruct l1 as [|z l1]; [reflexivity|].
    change (last (a :: z :: l1) prev) with (last (z :: l1) prev).
    rewrite (last_cons_default l1 z a prev). reflexivity.
Qed.

Lemma remove_from_addr_list_spec (st : state) (block : Z) (l1 l2 : list Z) (fuel : nat) :
  flist st (l1 ++ block :: l2) -> NoDup (l1 ++ block :: l2) ->
  (length l1 < fuel)%nat ->
  exists st',
    remove_from_addr_list fuel block st = Some st' /\
    flist st' (l1 ++ l2) /\
    (forall a, size (hdr st' a) = size (hdr st a)) /\
    (forall a, ~ In a l1 -> hdr st' a = hdr st a) /\
    same_globals st st'.
Proof.
  intros Hfl Hnd Hfuel. unfold flist in Hfl.
  apply lseg_app_inv in Hfl. destruct Hfl as (q & Hl1 & Hl2).
  simpl in Hl2. destruct Hl2 as (Hq & Hb & Hl2). subst q.
  assert (Hb1 : ~ In block l1).
  { apply NoDup_remove_2 in Hnd. intros Hin. apply Hnd, in_or_app. left. exact Hin. }
  unfold remove_from_addr_list.
  destruct (Z.eqb_spec (address_list st) NULL) as [E|_].
  { exfalso. destruct l1 as [|a l1]; simpl in Hl1.
    - congruence.
    - destruct Hl1 as (E1 & E2 & _). congruence. }
  rewrite (remove_scan_spec st block l1 fuel NULL _ Hl1 Hb1 Hfuel). simpl.
  destruct l1 as [|x l1'] using rev_ind.
  - simpl. eexists. split; [reflexivity|].
    split; [|split; [|split]].
    + unfold flist. simpl. exact Hl2.
    + reflexivity.
    + reflexivity.
    + unfold same_globals. simpl. auto.
  - clear IHl1'. rewrite last_last.
    apply lseg_app_inv in Hl1. destruct Hl1 as (q & Hq1 & Hq2).
    simpl in Hq2. destruct Hq2 as (Eq & Hx & Hxn). subst q.
    destruct (Z.eqb_spec x NULL) as [E|_]; [contradiction|].
    destruct (Z.eqb_spec block NULL) as [E|_]; [contradiction|].
    rewrite <- app_assoc in Hnd. simpl in Hnd.
    assert (Hx1 : ~ In x l1').
    { apply NoDup_remove_2 in Hnd. intros Hin. apply Hnd, in_or_app. left. exact Hin. }
    assert (Hx2 : ~ In x l2).
    { apply NoDup_remove_2 in Hnd. intros Hin. apply Hnd, in_or_app. right. right. exact Hin. }
    eexists. split; [reflexivity|].
    split; [|split; [|split]].
    + unfold flist. simpl. rewrite <- app_assoc. simpl.
      eapply lseg_app.
      * eapply lseg_frame; [|exact Hq1]. intros a Hin. simpl.
        destruct (Z.eqb_spec a x) as [->|_]; [contradiction | reflexivity].
      * simpl. split; [reflexivity|]. split; [exact Hx|].
        rewrite Z.eqb_refl. simpl.
        eapply lseg_frame; [|exact Hl2]. intros a Hin. simpl.
        destruct (Z.eqb_spec a x) as [->|_]; [contradiction | reflexivity].
    + intros a. simpl. destruct (Z.eqb_spec a x) as [->|_]; reflexivity.
    + intros a Ha. simpl. destruct (Z.eqb_spec a x) as [->|_]; [|reflexivity].
      exfalso. apply Ha, in_or_app. right. left. reflexivity.
    + unfold same_globals. simpl. auto.
Qed.

(** ** Search: [find_best_fit] *)

Lemma best_fit_scan_spec (st : state) (sz : Z) (l : list Z) :
  forall fuel curr best,
    lseg (hdr st) curr NULL l -> (length l < fuel)%nat ->
    exists r,
      best_fit_scan fuel sz curr best st = Some r /\
      match r with
      | inl a =>
          exists l1 l2, l = l1 ++ a :: l2 /\ size (hdr st a) = sz /\
                        Forall (fun x => size (hdr st x) <> sz) l1
      | inr best' =>
          Forall (fun x => size (hdr st x) <> sz) l /\
          best' <= best /\
          (forall x, In x l -> sz < size (hdr st x) -> best' <= size (hdr st x)) /\
          (best' = best \/ exists x, In x l /\ size (hdr st x) = best' /\ sz < best')
      end.
Proof.
  induction l as [|a l IH]; intros fuel curr best Hl Hfuel; simpl in Hl.
  - subst curr. destruct fuel as [|fuel]; [simpl in Hfuel; lia|].
    exists (inr best). simpl. split; [reflexivity|].
    split; [constructor|]. split; [lia|]. split; [intros x []|left; reflexivity].
  - destruct Hl as (Hc & Ha & Hl). subst curr.
    destruct fuel as [|fuel]; [simpl in Hfuel; lia|]. simpl in Hfuel. simpl.
    destruct (Z.eqb_spec a NULL) as [E|_]; [contradiction|].
    destruct (Z.eqb_spec (size (hdr st a)) sz) as [Heq|Hne].
    { exists (inl a). split; [reflexivity|]. exists [], l. auto. }
    set (best1 := if (size (hdr st a) >? sz) && (size (hdr st a) <? best)
                  then size (hdr st a) else best).
    assert (Hrun : (if (size (hdr st a) >? sz) && (size (hdr st a) <? best)
                    then best_fit_scan fuel sz (next (hdr st a)) (size (hdr st a)) st
                    else best_fit_scan fuel sz (next (hdr st a)) best st)
                   = best_fit_scan fuel sz (next (hdr st a)) best1 st).
    { unfold best1. destruct ((size (hdr st a) >? sz) && (size (hdr st a) <? best)); reflexivity. }
    rewrite Hrun.
    assert (Hb1 : best1 <= best /\
                  (sz < size (hdr st a) -> best1 <= size (hdr st a)) /\
                  (best1 = best \/ (size (hdr st a) = best1 /\ sz < best1))).
    { unfold best1. destruct (Z.gtb_spec (size (hdr st a)) sz);
        destruct (Z.ltb_spec (size (hdr st a)) best); simpl; lia. }
    destruct Hb1 as (Hle & Hmin & Hwit).
    destruct (IH fuel (next (hdr st a)) best1 Hl ltac:(lia)) as (r & Hr & Hspec).
    exists r. split; [exact Hr|].
    destruct r as [x|best'].
    + destruct Hspec as (l1 & l2 & El & Hsz & Hall).
      exists (a :: l1), l2. subst l. repeat split; auto.
    + destruct Hspec as (Hall & Hle' & Hmin' & Hwit').
      split; [constructor; assumption|].
      split; [lia|]. split.
      * intros x [->|Hx] Hlt; [specialize (Hmin Hlt); lia | auto].
      * destruct Hwit' as [E|(x & Hx & Hsx & Hlt)].
        -- destruct Hwit as [E'|(E1 & E2)]; [left; congruence|].
           right. exists a. split; [left; reflexivity|]. split; congruence.
        -- right. exists x. auto.
Qed.

Lemma best_fit_pick_spec (st : state) (best : Z) (l : list Z) :
  forall fuel curr,
    lseg (hdr st) curr NULL l -> (length l < fuel)%nat ->
    exists r,
      best_fit_pick fuel curr best st = Some r /\
      ((r = NULL /\ Forall (fun x => size (hdr st x) <> best) l) \/
       (exists l1 l2, l = l1 ++ r :: l2 /\ size (hdr st r) = best /\
                      Forall (fun x => size (hdr st x) <> best) l1)).
Proof.
  induction l as [|a l IH]; intros fuel curr Hl Hfuel; simpl in Hl.
  - subst curr. destruct fuel as [|fuel]; [simpl in Hfuel; lia|].
    exists NULL. simpl. auto.
  - destruct Hl as (Hc & Ha & Hl). subst curr.
    destruct fuel as [|fuel]; [simpl in Hfuel; lia|]. simpl in Hfuel. simpl.
    destruct (Z.eqb_spec a NULL) as [E|_]; [contradiction|].
    destruct (Z.eqb_spec (size (hdr st a)) best) as [Heq|Hne].
    { exists a. split; [reflexivity|]. right. exists [], l. auto. }
    destruct (IH fuel (next (hdr st a)) Hl ltac:(lia)) as (r & Hr & Hspec).
    exists r. split; [exact Hr|].
    destruct Hspec as [(E & Hall)|(l1 & l2 & El & Hsz & Hall)].
    + left. auto.
    + right. exists (a :: l1), l2. subst l. auto.
Qed.

Lemma find_best_fit_spec (st : state) (sz : Z) (l : list Z) (fuel : nat) :
  flist st l -> (length l < fuel)%nat ->
  exists r,
    find_best_fit fuel sz st = Some r /\
    ((exists l1 l2, l = l1 ++ r :: l2 /\ size (hdr st r) = sz /\
                    Forall (fun x => size (hdr st x) <> sz) l1) \/
     (Forall (fun x => size (hdr st x) <> sz) l /\
      exists best,
        best <= 0xffffffff /\
        (forall x, In x l -> sz < size (hdr st x) -> best <= size (hdr st x)) /\
        (best = 0xffffffff \/ exists x, In x l /\ size (hdr st x) = best /\ sz < best) /\
        ((r = NULL /\ Forall (fun x => size (hdr st x) <> best) l) \/
         (exists l1 l2, l = l1 ++ r :: l2 /\ size (hdr st r) = best /\
                        Forall (fun x => size (hdr st x) <> best) l1)))).
Proof.
  intros Hfl Hfuel. unfold flist in Hfl. unfold find_best_fit.
  destruct (Z.eqb_spec (address_list st) NULL) as [E|Hne].
  { rewrite E in Hfl. destruct l as [|a l]; simpl in Hfl.
    - exists NULL. split; [reflexivity|]. right. split; [constructor|].
      exists 0xffffffff. split; [lia|]. split; [intros x []|]. split; [left; reflexivity|].
      left. split; [reflexivity | constructor].
    - destruct Hfl as (E1 & E2 & _). congruence. }
  destruct (best_fit_scan_spec st sz l fuel _ 0xffffffff Hfl Hfuel) as (r & Hr & Hspec).
  rewrite Hr. simpl. destruct r as [a|best].
  - exists a. split; [reflexivity|]. left. exact Hspec.
  - destruct Hspec as (Hall & Hle & Hmin & Hwit).
    destruct (best_fit_pick_spec st best l fuel _ Hfl Hfuel) as (r & Hr' & Hpick).
    exists r. split; [exact Hr'|]. right. split; [exact Hall|].
    exists best. auto.
Qed.

(** What every caller relies on: the result is null or a free-list entry,
    large enough whenever the request fits the sentinel. *)
Lemma find_best_fit_in (st : state) (sz : Z) (l : list Z) (fuel : nat) :
  flist st l -> (length l < fuel)%nat ->
  exists r,
    find_best_fit fuel sz st = Some r /\
    (r = NULL \/ (In r l /\ (sz <= 0xffffffff -> sz <= size (hdr st r)))).
Proof.
  intros Hfl Hfuel.
  destruct (find_best_fit_spec st sz l fuel Hfl Hfuel) as (r & Hr & Hspec).
  exists r. split; [exact Hr|].
  destruct Hspec as [(l1 & l2 & El & Hsz & _)|(_ & best & Hle & _ & Hwit & Hpick)].
  - right. subst l. split; [apply in_or_app; right; left; reflexivity | lia].
  - destruct Hpick as [(E & _)|(l1 & l2 & El & Hsz & _)]; [left; exact E|].
    right. subst l. split; [apply in_or_app; right; left; reflexivity|].
    intros Hs. destruct Hwit as [E|(x & _ & _ & Hlt)]; lia.
Qed.

(** Below the sentinel the search is the best-fit search of the
    specification: the result is the first block whose size is the least
    size that fits (the first exact match when there is one), and it is null
    exactly when no block fits. *)
Lemma find_best_fit_below_sentinel (st : state) (sz : Z) (l : list Z) (fuel : nat) :
  flist st l -> Forall (fun a => size (hdr st a) < 0xffffffff) l ->
  (length l < fuel)%nat ->
  exists r,
    find_best_fit fuel sz st = Some r /\
    (r = NULL <-> Forall (fun a => size (hdr st a) < sz) l) /\
    (r <> NULL ->
     exists l1 l2,
       l = l1 ++ r :: l2 /\ sz <= size (hdr st r) /\
       (forall a, In a l -> sz <= size (hdr st a) -> size (hdr st r) <= size (hdr st a)) /\
       Forall (fun a => size (hdr st a) <> size (hdr st r)) l1).
Proof.
  intros Hfl Hbound Hfuel.
  pose proof (lseg_not_null _ _ _ _ Hfl) as Hnn.
  rewrite Forall_forall in Hbound, Hnn.
  destruct (find_best_fit_spec st sz l fuel Hfl Hfuel) as (r & Hr & Hspec).
  exists r. split; [exact Hr|].
  destruct Hspec as [(l1 & l2 & El & Hsz & Hfirst)|(Hnone & best & Hle & Hmin & Hwit & Hpick)].
  - assert (Hin : In r l) by (subst l; apply in_or_app; right; left; reflexivity).
    split; [split|].
    + intros E. exfalso. apply (Hnn _ Hin). exact E.
    + intros Hall. rewrite Forall_forall in Hall. specialize (Hall _ Hin). lia.
    + intros _. exists l1, l2. split; [exact El|]. split; [lia|]. split.
      * intros a _ Ha. lia.
      * rewrite Hsz. exact Hfirst.
  - rewrite Forall_forall in Hnone.
    destruct Hwit as [Ebest|(x & Hx & Hsx & Hlt)].
    + (* no block is larger than the request *)
      assert (Hsmall : forall a, In a l -> size (hdr st a) < sz).
      { intros a Ha. specialize (Hnone _ Ha). specialize (Hbound _ Ha).
        destruct (Z.lt_ge_cases sz (size (hdr st a))) as [Hgt|Hge]; [|lia].
        specialize (Hmin _ Ha Hgt). lia. }
      destruct Hpick as [(E & _)|(l1 & l2 & El & Hsr & _)].
      * split; [split|].
        -- intros _. rewrite Forall_forall. exact Hsmall.
        -- intros _. exact E.
        -- intros Hne. contradiction.
      * exfalso. assert (Hin : In r l) by (subst l; apply in_or_app; right; left; reflexivity).
        specialize (Hbound _ Hin). lia.
    + destruct Hpick as [(E & Hall)|(l1 & l2 & El & Hsr & Hfirst)].
      * exfalso. rewrite Forall_forall in Hall. apply (Hall _ Hx). exact Hsx.
      * assert (Hin : In r l) by (subst l; apply in_or_app; right; left; reflexivity).
        split; [split|].
        -- intros E. exfalso. apply (Hnn _ Hin). exact E.
        -- intros Hall. rewrite Forall_forall in Hall. specialize (Hall _ Hx). lia.
        -- intros _. exists l1, l2. split; [exact El|]. split; [lia|]. split.
           ++ intros a Ha Hfit. specialize (Hnone _ Ha).
              assert (sz < size (hdr st a)) by lia. specialize (Hmin _ Ha H). lia.
           ++ rewrite Hsr. exact Hfirst.
Qed.

(** ** Well-formed heaps *)

Hypothesis HSZ_pos : 0 < TOTAL_METADATA_SIZE.

Lemma laid_out_bounds (B : list (Z * Z)) :
  forall lo hi, laid_out lo B hi ->
    lo <= hi /\
    Forall (fun b => lo <= fst b /\ 0 <= snd b /\
                     fst b + TOTAL_METADATA_SIZE + snd b <= hi) B.
Proof.
  induction B as [|b B IH]; intros lo hi Hlo; simpl in Hlo.
  - split; [exact Hlo | constructor].
  - destruct Hlo as (H1 & H2 & H3). destruct (IH _ _ H3) as (H4 & H5).
    split; [lia|]. constructor; [lia|].
    eapply Forall_impl; [|exact H5]. simpl. intros c Hc. lia.
Qed.

Lemma laid_out_weaken (B : list (Z * Z)) :
  forall lo lo' hi hi', laid_out lo B hi -> lo' <= lo -> hi <= hi' -> laid_out lo' B hi'.
Proof.
  induction B as [|b B IH]; intros lo lo' hi hi' Hlo H1 H2; simpl in *.
  - lia.
  - destruct Hlo as (A1 & A2 & A3). repeat split; try lia.
    eapply IH; eauto. lia.
Qed.

Lemma laid_out_app (B1 B2 : list (Z * Z)) :
  forall lo hi,
    laid_out lo (B1 ++ B2) hi <->
    exists mid, laid_out lo B1 mid /\ laid_out mid B2 hi.
Proof.
  induction B1 as [|b B1 IH]; intros lo hi; simpl.
  - split.
    + intros Hl. exists lo. split; [lia | exact Hl].
    + intros (mid & H1 & H2). eapply laid_out_weaken; eauto. lia.
  - rewrite IH. split.
    + intros (H1 & H2 & mid & H3 & H4). exists mid. auto.
    + intros (mid & (H1 & H2 & H3) & H4). repeat split; auto. exists mid. auto.
Qed.

Lemma laid_out_ascending (B : list (Z * Z)) :
  forall lo hi, laid_out lo B hi -> ascending (map fst B).
Proof.
  unfold ascending. induction B as [|b B IH]; intros lo hi Hlo; simpl in *.
  - constructor.
  - destruct Hlo as (H1 & H2 & H3). constructor; [eapply IH; eauto|].
    apply laid_out_bounds in H3. destruct H3 as (_ & H3).
    rewrite Forall_map. eapply Forall_impl; [|exact H3]. simpl. intros c Hc. lia.
Qed.

Lemma heap_ok_ascending (st : state) (l : list Z) : heap_ok st l -> ascending l.
Proof.
  intros (_ & Hlo & _). apply laid_out_ascending in Hlo.
  rewrite blocks_fst in Hlo. exact Hlo.
Qed.

Lemma heap_ok_block (st : state) (l : list Z) (a : Z) :
  heap_ok st l -> In a l ->
  1 <= a /\ 0 <= size (hdr st a) /\
  a + TOTAL_METADATA_SIZE + size (hdr st a) <= brk st /\ brk st < modulus.
Proof.
  intros (_ & Hlo & Hb1 & Hb2) Hin.
  apply laid_out_bounds in Hlo. destruct Hlo as (_ & Hall).
  rewrite Forall_forall in Hall.
  specialize (Hall (a, size (hdr st a))). simpl in Hall.
  assert (Hin' : In (a, size (hdr st a)) (blocks st l)).
  { unfold blocks. apply in_map_iff. exists a. auto. }
  specialize (Hall Hin'). lia.
Qed.

(** Without wrap-around the adjacency test is exact. *)
Lemma adjacent_exact (b : Z * Z) (c : Z) :
  0 <= fst b + TOTAL_METADATA_SIZE + snd b < modulus ->
  adjacent b c = (fst b + TOTAL_METADATA_SIZE + snd b =? c).
Proof.
  intros Hr. unfold MyMalloc.adjacent, MyMalloc.block_end. rewrite wrap_small by exact Hr.
  reflexivity.
Qed.

Lemma coalesce_from_laid_out (rest : list (Z * Z)) :
  forall p lo hi,
    0 <= lo -> hi < modulus ->
    laid_out lo (p :: rest) hi -> laid_out lo (coalesce_from p rest) hi.
Proof.
  induction rest as [|c rest IH]; intros p lo hi Hlo Hhi Hl.
  - exact Hl.
  - cbn [MyMalloc.coalesce_from].
    pose proof Hl as Hl0. simpl in Hl. destruct Hl as (H1 & H2 & H3 & H4 & H5).
    pose proof (laid_out_bounds _ _ _ H5) as (Hb & _).
    rewrite adjacent_exact by lia.
    destruct (Z.eqb_spec (fst p + TOTAL_METADATA_SIZE + snd p) (fst c)) as [E|_].
    + apply IH; auto. unfold MyMalloc.absorb. simpl.
      rewrite wrap_small by lia.
      repeat split; try lia.
      replace (fst p + TOTAL_METADATA_SIZE + (snd p + snd c + TOTAL_METADATA_SIZE))
        with (fst c + TOTAL_METADATA_SIZE + snd c) by lia.
      exact H5.
    + simpl. repeat split; auto.
      apply IH; auto; try lia. simpl. repeat split; auto.
Qed.

Lemma coalesce_laid_out (B : list (Z * Z)) (lo hi : Z) :
  0 <= lo -> hi < modulus -> laid_out lo B hi -> laid_out lo (coalesce B) hi.
Proof.
  destruct B as [|p rest]; simpl; intros Hlo Hhi Hl; [exact Hl|].
  apply coalesce_from_laid_out; auto.
Qed.

(** ** Release: [my_free] *)

Local Abbreviation my_free := (my_free TOTAL_METADATA_SIZE).
Local Abbreviation my_malloc := (my_malloc TOTAL_METADATA_SIZE SBRK_SIZE).
Local Abbreviation my_malloc_select := (my_malloc_select TOTAL_METADATA_SIZE SBRK_SIZE).
Local Abbreviation my_malloc_serve := (my_malloc_serve TOTAL_METADATA_SIZE).
Local Abbreviation my_realloc := (my_realloc TOTAL_METADATA_SIZE SBRK_SIZE).
Local Abbreviation my_calloc := (my_calloc TOTAL_METADATA_SIZE SBRK_SIZE).
Local Abbreviation split_block := (split_block TOTAL_METADATA_SIZE).

Lemma add_to_addr_list_spec (st : state) (block : Z) (l : list Z) (fuel : nat) :
  flist st l -> ascending l -> ~ In block l -> block <> NULL ->
  (l = [] -> next (hdr st block) = NULL) ->
  (length l < fuel)%nat ->
  exists st',
    add_to_addr_list fuel block st = Some st' /\
    flist st' (insert_by_address block l) /\
    (forall a, size (hdr st' a) = size (hdr st a)) /\
    (forall a, a <> block -> ~ In a l -> hdr st' a = hdr st a) /\
    same_globals st st'.
Proof.
  intros Hfl Hasc Hnin Hnz Hnext Hfuel.
  destruct l as [|a l'].
  - unfold flist in Hfl. simpl in Hfl.
    rewrite add_to_addr_list_empty by exact Hfl.
    eexists. split; [reflexivity|].
    split; [|split; [|split]].
    + unfold flist. simpl. repeat split; auto.
    + reflexivity.
    + reflexivity.
    + unfold same_globals. simpl. auto.
  - apply add_to_addr_list_nonempty; auto. discriminate.
Qed.

Lemma my_free_spec (st : state) (ptr : Z) (l : list Z) (fuel : nat) :
  let b := wrap (ptr - TOTAL_METADATA_SIZE) in
  flist st l -> ascending l -> ptr <> NULL -> b <> NULL -> ~ In b l ->
  (l = [] -> next (hdr st b) = NULL) ->
  (length l + 1 < fuel)%nat ->
  exists st1 st',
    add_to_addr_list fuel b (set_errno NO_ERROR st) = Some st1 /\
    flist st1 (insert_by_address b l) /\
    blocks st1 (insert_by_address b l) = blocks st (insert_by_address b l) /\
    my_free fuel ptr st = Some st' /\
    flist st' (map fst (coalesce (blocks st (insert_by_address b l)))) /\
    blocks st' (map fst (coalesce (blocks st (insert_by_address b l))))
      = coalesce (blocks st (insert_by_address b l)) /\
    (forall a, a <> b -> ~ In a l -> hdr st' a = hdr st a) /\
    mem st' = mem st /\ brk st' = brk st /\ heap_limit st' = heap_limit st /\
    my_malloc_errno st' = NO_ERROR /\
    (coalesced (blocks st (insert_by_address b l)) -> hdr st' b = hdr st1 b).
Proof.
  intros b Hfl Hasc Hptr Hb Hnin Hnext Hfuel.
  destruct (add_to_addr_list_spec (set_errno NO_ERROR st) b l fuel)
    as (st1 & Hadd & Hfl1 & Hsz1 & Hfoot1 & Hglob1); auto.
  { lia. }
  assert (Hblk1 : blocks st1 (insert_by_address b l) = blocks st (insert_by_address b l)).
  { apply blocks_same. intros a _. apply Hsz1. }
  destruct (mergeAll_spec (length (insert_by_address b l)) (insert_by_address b l) st1 fuel)
    as (st' & Hrun & Hfl' & Hblk' & Hfoot' & Hhead' & Hglob' & Hsame); auto.
  { apply insert_by_address_ascending; auto. }
  { rewrite insert_by_address_length. lia. }
  rewrite Hblk1 in *.
  exists st1, st'. split; [exact Hadd|]. split; [exact Hfl1|]. split; [exact Hblk1|].
  split.
  { unfold MyMalloc.my_free. destruct (Z.eqb_spec ptr NULL) as [E|_]; [contradiction|].
    fold b. rewrite Hadd. simpl. exact Hrun. }
  split; [exact Hfl'|]. split; [exact Hblk'|].
  destruct Hglob1 as (A1 & A2 & A3 & A4). destruct Hglob' as (B1 & B2 & B3 & B4).
  simpl in *.
  split.
  { intros a Hab Hal. rewrite Hfoot'.
    - apply Hfoot1; auto.
    - rewrite insert_by_address_In. intros [E|E]; contradiction. }
  repeat split; try congruence.
  intros Hc. rewrite (Hsame Hc). reflexivity.
Qed.

(** ** Allocation: [my_malloc] *)

Hypothesis SBRK_gt : TOTAL_METADATA_SIZE < SBRK_SIZE.
Hypothesis SBRK_le : SBRK_SIZE <= 2 ^ 32.

Lemma wrap_minus_one : wrap (-1) = modulus - 1.
Proof. reflexivity. Qed.

Lemma heap_ok_brk (st : state) (l : list Z) :
  heap_ok st l -> 1 <= brk st < modulus /\ Forall (fun a => 1 <= a < brk st) l.
Proof.
  intros Hok. pose proof Hok as (_ & Hlo & Hb1 & Hb2).
  apply laid_out_bounds in Hlo. destruct Hlo as (Hlo & _).
  split; [lia|]. rewrite Forall_forall. intros a Ha.
  pose proof (heap_ok_block st l a Hok Ha). lia.
Qed.

(** Lines 163-166: a fresh chunk is registered and the list coalesced. *)
Lemma register_chunk_spec (st : state) (l : list Z) (fuel : nat) :
  heap_ok st l -> brk st + SBRK_SIZE <= heap_limit st ->
  (length l + 1 < fuel)%nat ->
  let nb := brk st in
  let st_c := set_next nb NULL
                (set_size nb (wrap (SBRK_SIZE - TOTAL_METADATA_SIZE))
                   (set_brk (brk st + SBRK_SIZE) st)) in
  exists st_d st_e l_e,
    add_to_addr_list fuel nb st_c = Some st_d /\
    mergeAll fuel st_d = Some st_e /\
    heap_ok st_e l_e /\
    incl l_e (l ++ [nb]) /\ (length l_e <= length l + 1)%nat /\
    (forall a, ~ In a l -> a <> nb -> hdr st_e a = hdr st a) /\
    mem st_e = mem st /\ my_malloc_errno st_e = my_malloc_errno st /\
    brk st_e = brk st + SBRK_SIZE /\ heap_limit st_e = heap_limit st.
Proof.
  intros Hok Hroom Hfuel nb st_c.
  pose proof (heap_ok_brk st l Hok) as (Hbrk & Hall).
  pose proof (heap_ok_ascending st l Hok) as Hasc.
  pose proof Hok as (Hfl & Hlo & Hb1 & Hb2).
  assert (Hnb : ~ In nb l).
  { intros Hin. rewrite Forall_forall in Hall. specialize (Hall _ Hin). unfold nb in Hall. lia. }
  assert (Hv : wrap (SBRK_SIZE - TOTAL_METADATA_SIZE) = SBRK_SIZE - TOTAL_METADATA_SIZE).
  { apply wrap_small. rewrite modulus_val. lia. }
  assert (Hflc : flist st_c l).
  { unfold flist, st_c. simpl. eapply lseg_frame; [|exact Hfl].
    intros a Ha. simpl.
    destruct (Z.eqb_spec a nb) as [->|_]; [contradiction | reflexivity]. }
  destruct (add_to_addr_list_spec st_c nb l fuel)
    as (st_d & Hadd & Hfld & Hszd & Hfootd & Hglobd); auto.
  { unfold nb, NULL. lia. }
  { intros _. unfold st_c. simpl. rewrite Z.eqb_refl. reflexivity. }
  { lia. }
  assert (Hins : insert_by_address nb l = l ++ [nb]).
  { rewrite <- (app_nil_r l) at 1.
    apply (insert_by_address_split nb l []); [|exact I].
    eapply Forall_impl; [|exact Hall]. simpl. unfold nb. intros a Ha. lia. }
  rewrite Hins in Hfld.
  assert (Hblkd : blocks st_d (l ++ [nb]) =
                  blocks st l ++ [(nb, SBRK_SIZE - TOTAL_METADATA_SIZE)]).
  { unfold blocks. rewrite map_app. simpl. f_equal.
    - apply map_ext_in. intros a Ha. rewrite Hszd. unfold st_c. simpl.
      destruct (Z.eqb_spec a nb) as [->|_]; [contradiction | reflexivity].
    - rewrite Hszd. unfold st_c. simpl. rewrite Z.eqb_refl. simpl.
      rewrite ?Z.eqb_refl. simpl. rewrite Hv. reflexivity. }
  destruct Hglobd as (D1 & D2 & D3 & D4). unfold st_c in D1, D2, D3, D4. simpl in D1, D2, D3, D4.
  assert (Hlod : laid_out 1 (blocks st_d (l ++ [nb])) (brk st + SBRK_SIZE)).
  { rewrite Hblkd. apply laid_out_app. exists (brk st). split; [exact Hlo|].
    simpl. unfold nb. lia. }
  assert (Hascd : ascending (l ++ [nb])).
  { apply laid_out_ascending in Hlod. rewrite blocks_fst in Hlod. exact Hlod. }
  destruct (mergeAll_spec (length (l ++ [nb])) (l ++ [nb]) st_d fuel)
    as (st_e & Hrun & Hfle & Hblke & Hfoote & Hheade & Hglobe & _); auto.
  { rewrite length_app. simpl. lia. }
  destruct Hglobe as (E1 & E2 & E3 & E4).
  destruct (coalesce_addresses (blocks st_d (l ++ [nb]))) as (Hasce & Hincle).
  { rewrite blocks_fst. exact Hascd. }
  rewrite blocks_fst in Hincle.
  set (l_e := map fst (coalesce (blocks st_d (l ++ [nb])))) in *.
  exists st_d, st_e, l_e.
  split; [exact Hadd|]. split; [exact Hrun|].
  split.
  { split; [exact Hfle|]. split.
    - rewrite Hblke. rewrite E3, D3.
      apply coalesce_laid_out; auto; lia.
    - rewrite E3, E4, D3, D4. lia. }
  split; [exact Hincle|].
  split.
  { replace (length l + 1)%nat with (length (l ++ [nb])) by (rewrite length_app; simpl; lia).
    apply NoDup_incl_length; [|exact Hincle].
    apply ascending_NoDup. exact Hasce. }
  split.
  { intros a Hal Hanb. rewrite Hfoote.
    - rewrite Hfootd; auto. unfold st_c. simpl.
      destruct (Z.eqb_spec a nb) as [E|_]; [contradiction | reflexivity].
    - intros Hin. apply in_app_or in Hin. destruct Hin as [Hin|[Hin|[]]]; auto. }
  repeat split; congruence.
Qed.

Lemma heap_ok_set_errno (st : state) (l : list Z) (e : my_malloc_err) :
  heap_ok st l -> heap_ok (set_errno e st) l.
Proof. intros Hok. exact Hok. Qed.

(** Lines 156-173: the block that serves the request. *)
Lemma my_malloc_select_spec (st : state) (l : list Z) (sz : Z) (fuel : nat) :
  heap_ok st l -> 0 < sz -> sz <= SBRK_SIZE - TOTAL_METADATA_SIZE ->
  (length l + 2 < fuel)%nat ->
  exists r,
    my_malloc_select fuel sz st = Some r /\
    match r with
    | inl st' =>
        my_malloc_errno st' = OUT_OF_MEMORY /\
        (st' = set_errno OUT_OF_MEMORY st \/ brk st' = brk st + SBRK_SIZE) /\
        exists l', heap_ok st' l' /\ incl l' (l ++ [brk st]) /\
                   (forall a, ~ In a l -> a <> brk st -> hdr st' a = hdr st a) /\
                   mem st' = mem st /\ heap_limit st' = heap_limit st
    | inr (temp, st') =>
        exists l', heap_ok st' l' /\ In temp l' /\ sz <= size (hdr st' temp) /\
                   incl l' (l ++ [brk st]) /\ (length l' <= length l + 1)%nat /\
                   (forall a, ~ In a l -> a <> brk st -> hdr st' a = hdr st a) /\
                   mem st' = mem st /\ heap_limit st' = heap_limit st /\
                   my_malloc_errno st' = my_malloc_errno st /\
                   (st' = st /\ l' = l \/ brk st' = brk st + SBRK_SIZE)
    end.
Proof.
  intros Hok Hsz1 Hsz2 Hfuel.
  pose proof Hok as (Hfl & Hlo & Hb1 & Hb2).
  assert (Hsent : sz <= 0xffffffff) by lia.
  unfold MyMalloc.my_malloc_select.
  destruct (find_best_fit_in st sz l fuel Hfl ltac:(lia)) as (r1 & Hr1 & Hres1).
  rewrite Hr1. cbn [bind].
  destruct (Z.eqb_spec r1 NULL) as [E1|Hne1].
  - (* nothing fits: extend the heap *)
    clear Hres1. unfold my_sbrk.
    destruct (Z.leb_spec (brk st + SBRK_SIZE) (heap_limit st)) as [Hroom|Hfull].
    + pose proof (heap_ok_brk st l Hok) as (Hbrk & _).
      destruct (Z.eqb_spec (brk st) (wrap (-1))) as [E|_].
      { rewrite wrap_minus_one in E. lia. }
      destruct (register_chunk_spec st l fuel Hok Hroom ltac:(lia))
        as (st_d & st_e & l_e & Hadd & Hrun & Hoke & Hincl & Hlen & Hfoot & M1 & M2 & M3 & M4).
      cbn zeta in Hadd. rewrite Hadd. cbn [bind]. rewrite Hrun. cbn [bind].
      pose proof Hoke as (Hfle & _).
      destruct (find_best_fit_in st_e sz l_e fuel Hfle ltac:(lia)) as (r2 & Hr2 & Hres2).
      rewrite Hr2. cbn [bind].
      destruct (Z.eqb_spec r2 NULL) as [E2|Hne2].
      * simpl. eexists. split; [reflexivity|]. simpl.
        split; [reflexivity|]. split; [right; exact M3|].
        exists l_e. repeat split; auto; apply Hoke.
      * destruct Hres2 as [E|(Hin2 & _)]; [contradiction|].
        destruct (Z.ltb_spec (size (hdr st_e r2)) sz) as [Hsmall|Hbig].
        -- simpl. eexists. split; [reflexivity|]. simpl.
           split; [reflexivity|]. split; [right; exact M3|].
           exists l_e. repeat split; auto; apply Hoke.
        -- simpl. eexists. split; [reflexivity|]. simpl.
           exists l_e. repeat split; auto; try apply Hoke.
    + destruct (Z.eqb_spec (wrap (-1)) (wrap (-1))) as [_|E]; [|congruence].
      eexists. split; [reflexivity|]. simpl.
      split; [reflexivity|]. split; [left; reflexivity|].
      exists l. repeat split; auto.
      intros a Ha. apply in_or_app. left. exact Ha.
  - destruct Hres1 as [E|(Hin1 & Hsize1)]; [contradiction|].
    eexists. split; [reflexivity|]. simpl.
    exists l. repeat split; auto; try lia.
    intros a Ha. apply in_or_app. left. exact Ha.
Qed.

Lemma laid_out_split (B1 B2 : list (Z * Z)) (b : Z * Z) (lo hi : Z) :
  laid_out lo (B1 ++ b :: B2) hi ->
  exists mid,
    laid_out lo B1 mid /\ mid <= fst b /\ 0 <= snd b /\
    laid_out (fst b + TOTAL_METADATA_SIZE + snd b) B2 hi /\
    Forall (fun c => fst c < fst b) B1 /\
    Forall (fun c => fst b + TOTAL_METADATA_SIZE + snd b <= fst c) B2.
Proof.
  intros Hlo. apply laid_out_app in Hlo. destruct Hlo as (mid & H1 & H2).
  simpl in H2. destruct H2 as (H2 & H3 & H4).
  exists mid. repeat split; auto.
  - apply laid_out_bounds in H1. destruct H1 as (_ & H1).
    eapply Forall_impl; [|exact H1]. simpl. intros c Hc. lia.
  - apply laid_out_bounds in H4. destruct H4 as (_ & H4).
    eapply Forall_impl; [|exact H4]. simpl. intros c Hc. lia.
Qed.

Lemma blocks_app (st : state) (l1 l2 : list Z) :
  blocks st (l1 ++ l2) = blocks st l1 ++ blocks st l2.
Proof. unfold blocks. apply map_app. Qed.

Lemma blocks_In (st : state) (l : list Z) (c : Z * Z) :
  In c (blocks st l) -> In (fst c) l /\ snd c = size (hdr st (fst c)).
Proof.
  unfold blocks. rewrite in_map_iff. intros (a & E & Ha). subst c. simpl. auto.
Qed.

(** Lines 178-183: the tail of [temp] is split off and returned. *)
Lemma my_malloc_serve_split (st : state) (l1 l2 : list Z) (sz temp : Z) (fuel : nat) :
  heap_ok st (l1 ++ temp :: l2) -> 0 < sz ->
  sz + TOTAL_METADATA_SIZE + 1 <= size (hdr st temp) ->
  let ret := temp + size (hdr st temp) - sz in
  exists st',
    my_malloc_serve fuel sz temp st = Some (ret + TOTAL_METADATA_SIZE, st') /\
    (forall a, hdr st' a =
               if a =? ret then mk_metadata (next (hdr st ret)) sz
               else if a =? temp
                    then mk_metadata (next (hdr st temp))
                           (size (hdr st temp) - sz - TOTAL_METADATA_SIZE)
                    else hdr st a) /\
    address_list st' = address_list st /\
    mem st' = mem st /\ brk st' = brk st /\ heap_limit st' = heap_limit st /\
    my_malloc_errno st' = NO_ERROR /\
    ~ In ret (l1 ++ temp :: l2) /\ temp < ret /\
    heap_ok st' (l1 ++ temp :: l2).
Proof.
  intros Hok Hsz Hbig ret.
  pose proof (heap_ok_block st _ temp Hok ltac:(apply in_or_app; right; left; reflexivity))
    as (Ht1 & Ht2 & Ht3 & Ht4).
  pose proof Hok as (Hfl & Hlo & Hb1 & Hb2).
  rewrite blocks_app in Hlo.
  change (blocks st (temp :: l2)) with ((temp, size (hdr st temp)) :: blocks st l2) in Hlo.
  destruct (laid_out_split _ _ _ _ _ Hlo) as (mid & Hl1 & Hmid & Hs0 & Hl2 & Hbefore & Hafter).
  cbn [fst snd] in *.
  assert (Hret : ~ In ret (l1 ++ temp :: l2)).
  { intros Hin. apply in_app_or in Hin. destruct Hin as [Hin|[Hin|Hin]].
    - rewrite Forall_forall in Hbefore.
      specialize (Hbefore (ret, size (hdr st ret))). simpl in Hbefore.
      assert (ret < temp); [|unfold ret in *; lia].
      apply Hbefore. unfold blocks. apply in_map_iff. exists ret. auto.
    - unfold ret in Hin. lia.
    - rewrite Forall_forall in Hafter.
      specialize (Hafter (ret, size (hdr st ret))). simpl in Hafter.
      assert (temp + TOTAL_METADATA_SIZE + size (hdr st temp) <= ret); [|unfold ret in *; lia].
      apply Hafter. unfold blocks. apply in_map_iff. exists ret. auto. }
  assert (Hrt : ret <> temp) by (unfold ret; lia).
  unfold MyMalloc.my_malloc_serve.
  destruct (Z.eqb_spec (size (hdr st temp)) sz) as [E|_]; [lia|].
  destruct (Z.gtb_spec (size (hdr st temp)) sz) as [_|E]; [|lia].
  rewrite (wrap_small (sz + TOTAL_METADATA_SIZE + 1)) by lia.
  destruct (Z.geb_spec (size (hdr st temp)) (sz + TOTAL_METADATA_SIZE + 1)) as [_|E]; [|lia].
  unfold MyMalloc.split_block.
  rewrite (wrap_small (sz + TOTAL_METADATA_SIZE)) by lia.
  replace (temp + TOTAL_METADATA_SIZE + size (hdr st temp) - (sz + TOTAL_METADATA_SIZE))
    with ret by (unfold ret; lia).
  rewrite (wrap_small ret) by (unfold ret; lia).
  rewrite (wrap_small (ret + TOTAL_METADATA_SIZE)) by (unfold ret; lia).
  rewrite (wrap_small (size (hdr st temp) - (sz + TOTAL_METADATA_SIZE))) by lia.
  set (st' := set_errno NO_ERROR
                (set_size ret sz
                   (set_size ret sz
                      (set_size temp (size (hdr st temp) - (sz + TOTAL_METADATA_SIZE)) st)))).
  exists st'. split; [reflexivity|].
  assert (Hhdr : forall a,
             hdr st' a =
             if a =? ret then mk_metadata (next (hdr st ret)) sz
             else if a =? temp
                  then mk_metadata (next (hdr st temp))
                         (size (hdr st temp) - sz - TOTAL_METADATA_SIZE)
                  else hdr st a).
  { intros a. unfold st'. simpl. rewrite Z.eqb_refl. simpl.
    destruct (Z.eqb_spec ret temp) as [E|_]; [contradiction|].
    destruct (Z.eqb_spec a ret) as [->|_]; [reflexivity|].
    destruct (Z.eqb_spec a temp) as [->|_]; [|reflexivity].
    f_equal. lia. }
  split; [exact Hhdr|].
  repeat (split; [reflexivity|]).
  split; [exact Hret|]. split; [unfold ret; lia|].
  assert (Hnext : forall a, In a (l1 ++ temp :: l2) -> next (hdr st' a) = next (hdr st a)).
  { intros a Ha. rewrite Hhdr.
    destruct (Z.eqb_spec a ret) as [->|_]; [contradiction|].
    destruct (Z.eqb_spec a temp) as [->|_]; reflexivity. }
  assert (Hsame : forall l', (forall a, In a l' -> In a (l1 ++ temp :: l2)) -> ~ In temp l' ->
                             blocks st' l' = blocks st l').
  { intros l' Hsub Hnt. apply blocks_same. intros a Ha. rewrite Hhdr.
    destruct (Z.eqb_spec a ret) as [->|_]; [exfalso; apply Hret, Hsub, Ha|].
    destruct (Z.eqb_spec a temp) as [->|_]; [contradiction | reflexivity]. }
  pose proof (heap_ok_ascending _ _ Hok) as Hasc.
  apply ascending_NoDup in Hasc.
  split; [|split].
  - unfold flist. eapply lseg_frame; [|exact Hfl]. exact Hnext.
  - rewrite blocks_app.
    change (blocks st' (temp :: l2)) with ((temp, size (hdr st' temp)) :: blocks st' l2).
    rewrite Hhdr.
    destruct (Z.eqb_spec temp ret) as [E|_]; [congruence|]. rewrite Z.eqb_refl.
    cbn [size].
    rewrite !Hsame.
    + apply laid_out_app. exists mid. split; [exact Hl1|].
      simpl. repeat split; try lia.
      eapply laid_out_weaken; [exact Hl2| |]; lia.
    + intros a Ha. apply in_or_app. right. right. exact Ha.
    + apply NoDup_remove_2 in Hasc. intros Hin. apply Hasc, in_or_app. right. exact Hin.
    + intros a Ha. apply in_or_app. left. exact Ha.
    + apply NoDup_remove_2 in Hasc. intros Hin. apply Hasc, in_or_app. left. exact Hin.
  - simpl. lia.
Qed.

(** Lines 174-177 and 184-187: [temp] is unlinked and returned whole. *)
Lemma my_malloc_serve_whole (st : state) (l1 l2 : list Z) (sz temp : Z) (fuel : nat) :
  heap_ok st (l1 ++ temp :: l2) -> 0 < sz ->
  sz <= size (hdr st temp) -> size (hdr st temp) < sz + TOTAL_METADATA_SIZE + 1 ->
  (length l1 < fuel)%nat ->
  exists st',
    my_malloc_serve fuel sz temp st = Some (temp + TOTAL_METADATA_SIZE, st') /\
    (forall a, size (hdr st' a) = size (hdr st a)) /\
    (forall a, ~ In a l1 -> hdr st' a = hdr st a) /\
    mem st' = mem st /\ brk st' = brk st /\ heap_limit st' = heap_limit st /\
    my_malloc_errno st' = NO_ERROR /\
    heap_ok st' (l1 ++ l2).
Proof.
  intros Hok Hsz Hfit Hslack Hfuel.
  pose proof (heap_ok_block st _ temp Hok ltac:(apply in_or_app; right; left; reflexivity))
    as (Ht1 & Ht2 & Ht3 & Ht4).
  pose proof Hok as (Hfl & Hlo & Hb1 & Hb2).
  pose proof (heap_ok_ascending _ _ Hok) as Hasc.
  apply ascending_NoDup in Hasc.
  rewrite blocks_app in Hlo.
  change (blocks st (temp :: l2)) with ((temp, size (hdr st temp)) :: blocks st l2) in Hlo.
  destruct (laid_out_split _ _ _ _ _ Hlo) as (mid & Hl1 & Hmid & Hs0 & Hl2 & _ & _).
  cbn [fst snd] in *.
  assert (Hlo' : forall st', (forall a, size (hdr st' a) = size (hdr st a)) ->
                             laid_out 1 (blocks st' (l1 ++ l2)) (brk st)).
  { intros st' Hsz'. rewrite (blocks_same st st') by (intros; apply Hsz').
    rewrite blocks_app. apply laid_out_app. exists mid. split; [exact Hl1|].
    eapply laid_out_weaken; [exact Hl2| |]; lia. }
  unfold MyMalloc.my_malloc_serve.
  rewrite (wrap_small (temp + TOTAL_METADATA_SIZE)) by lia.
  destruct (Z.eqb_spec (size (hdr st temp)) sz) as [E|Hne].
  - destruct (remove_from_addr_list_spec st temp l1 l2 fuel Hfl Hasc Hfuel)
      as (st' & Hrm & Hfl' & Hsz' & Hfoot' & G1 & G2 & G3 & G4).
    rewrite Hrm. cbn [bind]. eexists. split; [reflexivity|].
    simpl. split; [exact Hsz'|]. split; [exact Hfoot'|].
    split; [exact G1|]. split; [exact G3|]. split; [exact G4|]. split; [reflexivity|].
    split; [exact Hfl'|]. split; [|simpl; lia].
    change (brk (set_errno NO_ERROR st')) with (brk st'). rewrite G3.
    apply (Hlo' st'). exact Hsz'.
  - destruct (Z.gtb_spec (size (hdr st temp)) sz) as [_|E]; [|lia].
    rewrite (wrap_small (sz + TOTAL_METADATA_SIZE + 1)) by lia.
    destruct (Z.geb_spec (size (hdr st temp)) (sz + TOTAL_METADATA_SIZE + 1)) as [E|_]; [lia|].
    destruct (remove_from_addr_list_spec (set_errno NO_ERROR st) temp l1 l2 fuel Hfl Hasc Hfuel)
      as (st' & Hrm & Hfl' & Hsz' & Hfoot' & G1 & G2 & G3 & G4).
    rewrite Hrm. cbn [bind]. eexists. split; [reflexivity|].
    simpl in G1, G2, G3, G4, Hsz', Hfoot'.
    split; [exact Hsz'|]. split; [exact Hfoot'|].
    split; [exact G1|]. split; [exact G3|]. split; [exact G4|]. split; [exact G2|].
    split; [exact Hfl'|]. split; [|lia].
    rewrite G3. apply (Hlo' st'). exact Hsz'.
Qed.

(** * The claims *)

(** ** C8: boundary requests *)

(** C8.  [my_malloc(0)] returns NULL with [NO_ERROR], and every request above
    [SBRK_SIZE - TOTAL_METADATA_SIZE] returns NULL with
    [SINGLE_REQUEST_TOO_LARGE]; in both cases, for every state and every fuel,
    the state is the one before the call up to [my_malloc_errno]: the header
    store, the payload bytes, the free list and the program break are
    untouched. *)
Theorem my_malloc_boundary :
  forall (fuel : nat) (st : state) (sz : Z),
    sz = 0 \/ SBRK_SIZE - TOTAL_METADATA_SIZE < sz ->
    exists st',
      my_malloc fuel sz st = Some (NULL, st') /\
      my_malloc_errno st' = (if sz =? 0 then NO_ERROR else SINGLE_REQUEST_TOO_LARGE) /\
      hdr st' = hdr st /\ mem st' = mem st /\
      address_list st' = address_list st /\
      brk st' = brk st /\ heap_limit st' = heap_limit st /\
      (forall l, flist st l -> flist st' l).
Proof.
  intros fuel st sz Hsz.
  assert (Hv : wrap (SBRK_SIZE - TOTAL_METADATA_SIZE) = SBRK_SIZE - TOTAL_METADATA_SIZE).
  { apply wrap_small. rewrite modulus_val. lia. }
  unfold MyMalloc.my_malloc. rewrite Hv.
  destruct Hsz as [->|Hbig].
  - destruct (Z.gtb_spec 0 (SBRK_SIZE - TOTAL_METADATA_SIZE)) as [E|_]; [lia|].
    simpl. eexists. split; [reflexivity|]. simpl. repeat split; auto.
  - destruct (Z.gtb_spec sz (SBRK_SIZE - TOTAL_METADATA_SIZE)) as [_|E]; [|lia].
    eexists. split; [reflexivity|]. simpl.
    destruct (Z.eqb_spec sz 0) as [E|_]; [lia|]. repeat split; auto.
Qed.

(** ** C3: coalescing *)

Lemma coalesced_no_pair (B1 : list (Z * Z)) :
  forall B x y B2,
    coalesced B -> B = B1 ++ x :: y :: B2 -> adjacent x (fst y) = false.
Proof.
  induction B1 as [|c B1 IH]; intros B x y B2 Hc E; subst B; simpl in Hc.
  - apply orb_false_iff in Hc. apply Hc.
  - destruct B1 as [|d B1]; simpl in *.
    + apply orb_false_iff in Hc. destruct Hc as (_ & Hc).
      apply orb_false_iff in Hc. apply Hc.
    + apply orb_false_iff in Hc. destruct Hc as (_ & Hc).
      eapply (IH _ x y B2); [|reflexivity]. simpl. exact Hc.
Qed.

Lemma merge_unlinks (st : state) (l1 l2 : list Z) (left right : Z) :
  flist st (l1 ++ left :: right :: l2) -> NoDup (l1 ++ left :: right :: l2) ->
  flist (merge left right st) (l1 ++ left :: l2).
Proof.
  intros Hfl Hnd. unfold flist in *.
  assert (Hlr : left <> right).
  { apply NoDup_remove_2 in Hnd. intros ->. apply Hnd, in_or_app. right. left. reflexivity. }
  destruct (merge_hdr left right st Hlr) as (Hm1 & Hm2 & Hm3 & _).
  rewrite Hm3.
  apply lseg_app_inv in Hfl. destruct Hfl as (q & Hq1 & Hq2).
  simpl in Hq2. destruct Hq2 as (Eq & Hl & Er & Hr & Hrest). subst q.
  assert (Hl1 : ~ In left l1).
  { apply NoDup_remove_2 in Hnd. intros Hin. apply Hnd, in_or_app. left. exact Hin. }
  assert (Hl2 : ~ In left l2).
  { apply NoDup_remove_2 in Hnd. intros Hin. apply Hnd, in_or_app. right. right. exact Hin. }
  eapply lseg_app.
  - eapply lseg_frame; [|exact Hq1]. intros a Ha. rewrite Hm2; auto.
    intros ->. contradiction.
  - cbn [lseg]. split; [reflexivity|]. split; [exact Hl|].
    rewrite Hm1. cbn [next].
    eapply lseg_frame; [|exact Hrest]. intros a Ha. rewrite Hm2; auto.
    intros ->. contradiction.
Qed.

(** C3.  On every address-ordered free list [mergeAll] terminates (any fuel
    above the length of the list suffices), and in the state it returns the
    free list is still address-ordered, holds exactly the blocks of
    [coalesce], and no entry's end [address + TOTAL_METADATA_SIZE + size]
    is the address of the next entry (as the machine computes it, and as an
    integer when the addresses of the list are machine words).  The loop
    also calls [merge] on a left block it has just unlinked, which leaves
    the list as it is; [coalesce] is the net effect.  Each
    [merge] of two consecutive entries replaces them by the left one, whose
    size becomes [left.size + right.size + TOTAL_METADATA_SIZE] (exactly,
    when that sum is a machine word). *)
Theorem mergeAll_coalesces :
  forall (st : state) (l : list Z) (fuel : nat),
    flist st l -> ascending l -> (length l < fuel)%nat ->
    (exists st' l',
        mergeAll fuel st = Some st' /\
        flist st' l' /\ ascending l' /\ incl l' l /\
        blocks st' l' = coalesce (blocks st l) /\
        (forall l1 a b l2,
            l' = l1 ++ a :: b :: l2 ->
            wrap (a + TOTAL_METADATA_SIZE + size (hdr st' a)) <> b) /\
        (Forall (fun a => 0 <= a < modulus) l ->
         forall l1 a b l2,
           l' = l1 ++ a :: b :: l2 ->
           a + TOTAL_METADATA_SIZE + size (hdr st' a) <> b)) /\
    (forall l1 left right l2,
        l = l1 ++ left :: right :: l2 ->
        let st1 := merge left right st in
        flist st1 (l1 ++ left :: l2) /\
        size (hdr st1 left) =
          wrap (size (hdr st left) + size (hdr st right) + TOTAL_METADATA_SIZE) /\
        (0 <= size (hdr st left) + size (hdr st right) + TOTAL_METADATA_SIZE < modulus ->
         size (hdr st1 left) =
           size (hdr st left) + size (hdr st right) + TOTAL_METADATA_SIZE) /\
        (forall a, a <> left -> hdr st1 a = hdr st a)).
Proof.
  intros st l fuel Hfl Hasc Hfuel. split.
  - destruct (mergeAll_spec (length l) l st fuel (le_n _) Hfl Hasc Hfuel)
      as (st' & Hrun & Hfl' & Hblk' & _).
    destruct (coalesce_addresses (blocks st l)) as (Hasc' & Hincl').
    { rewrite blocks_fst. exact Hasc. }
    rewrite blocks_fst in Hincl'.
    exists st', (map fst (coalesce (blocks st l))).
    split; [exact Hrun|]. split; [exact Hfl'|]. split; [exact Hasc'|].
    split; [exact Hincl'|]. split; [exact Hblk'|].
    assert (Hmachine : forall l1 a b l2,
               map fst (coalesce (blocks st l)) = l1 ++ a :: b :: l2 ->
               wrap (a + TOTAL_METADATA_SIZE + size (hdr st' a)) <> b).
    { intros l1 a b l2 El Hadj.
      pose proof (coalesce_coalesced (blocks st l)) as Hco.
      rewrite <- Hblk' in Hco. rewrite El in Hco.
      rewrite blocks_app in Hco.
      pose proof (coalesced_no_pair (blocks st' l1) _ (a, size (hdr st' a))
                    (b, size (hdr st' b)) (blocks st' l2) Hco eq_refl) as Hna.
      unfold MyMalloc.adjacent, MyMalloc.block_end in Hna. simpl in Hna.
      apply Z.eqb_neq in Hna. contradiction. }
    split; [exact Hmachine|].
    intros Hwords l1 a b l2 El Hadj.
    apply (Hmachine l1 a b l2 El). rewrite Hadj. apply wrap_small.
    rewrite Forall_forall in Hwords. apply Hwords. apply Hincl'.
    rewrite El. apply in_or_app. right. right. left. reflexivity.
  - intros l1 left right l2 El st1. subst l.
    pose proof (ascending_NoDup _ Hasc) as Hnd.
    assert (Hlr : left <> right).
    { apply NoDup_remove_2 in Hnd. intros ->. apply Hnd, in_or_app. right. left. reflexivity. }
    destruct (merge_hdr left right st Hlr) as (Hm1 & Hm2 & _).
    split; [apply merge_unlinks; assumption|].
    unfold st1. rewrite Hm1. simpl.
    split; [reflexivity|]. split; [|exact Hm2].
    intros Hr. apply wrap_small. exact Hr.
Qed.

(** ** C10: outcomes of [my_malloc] *)

Lemma wrap_SBRK_payload :
  wrap (SBRK_SIZE - TOTAL_METADATA_SIZE) = SBRK_SIZE - TOTAL_METADATA_SIZE.
Proof. apply wrap_small. rewrite modulus_val. lia. Qed.

(** C10.  On every well-formed heap [my_malloc] returns.  When the pointer is
    not null the error state is [NO_ERROR] and the header in front of the
    pointer records a payload of at least the requested size.  When it is
    null, either the request was 0 (with [NO_ERROR]) or the error state is
    [SINGLE_REQUEST_TOO_LARGE] or [OUT_OF_MEMORY]: the final [return NULL]
    of the function is never reached with [NO_ERROR] for a non-zero size. *)
Theorem my_malloc_outcome :
  forall (st : state) (l : list Z) (sz : Z) (fuel : nat),
    heap_ok st l -> 0 <= sz < modulus -> (length l + 2 < fuel)%nat ->
    exists p st',
      my_malloc fuel sz st = Some (p, st') /\
      (p <> NULL ->
       my_malloc_errno st' = NO_ERROR /\
       sz <= size (hdr st' (wrap (p - TOTAL_METADATA_SIZE)))) /\
      (p = NULL ->
       (sz = 0 /\ my_malloc_errno st' = NO_ERROR) \/
       my_malloc_errno st' = SINGLE_REQUEST_TOO_LARGE \/
       my_malloc_errno st' = OUT_OF_MEMORY).
Proof.
  intros st l sz fuel Hok Hsz Hfuel.
  unfold MyMalloc.my_malloc. rewrite wrap_SBRK_payload.
  destruct (Z.gtb_spec sz (SBRK_SIZE - TOTAL_METADATA_SIZE)) as [Hbig|Hfit].
  { eexists _, _. split; [reflexivity|]. simpl. split; [congruence | auto]. }
  destruct (Z.eqb_spec sz 0) as [->|Hnz].
  { eexists _, _. split; [reflexivity|]. simpl. split; [congruence | auto]. }
  destruct (my_malloc_select_spec (set_errno NO_ERROR st) l sz fuel
              (heap_ok_set_errno _ _ _ Hok) ltac:(lia) Hfit Hfuel) as (r & Hr & Hspec).
  fold my_malloc_select. rewrite Hr. cbn [bind].
  destruct r as [st'|(temp, st1)].
  - destruct Hspec as (Herr & _).
    exists NULL, st'. split; [reflexivity|]. split; [congruence | auto].
  - destruct Hspec as (l' & Hok1 & Hin & Hsize & _ & Hlen & _).
    destruct (in_split _ _ Hin) as (l1 & l2 & El). subst l'.
    pose proof (heap_ok_block _ _ _ Hok1 Hin) as (Ht1 & Ht2 & Ht3 & Ht4).
    rewrite length_app in Hlen. simpl in Hlen.
    destruct (Z.le_gt_cases (sz + TOTAL_METADATA_SIZE + 1) (size (hdr st1 temp))) as [Hsplit|Hwhole].
    + destruct (my_malloc_serve_split st1 l1 l2 sz temp fuel Hok1 ltac:(lia) Hsplit)
        as (st' & Hrun & Hhdr & _ & _ & _ & _ & Herr & _).
      fold my_malloc_serve. rewrite Hrun. eexists _, _. split; [reflexivity|].
      split.
      * intros _. split; [exact Herr|].
        replace (temp + size (hdr st1 temp) - sz + TOTAL_METADATA_SIZE - TOTAL_METADATA_SIZE)
          with (temp + size (hdr st1 temp) - sz) by lia.
        rewrite wrap_small by lia. rewrite Hhdr. rewrite Z.eqb_refl. simpl. lia.
      * unfold NULL. intros E. lia.
    + destruct (my_malloc_serve_whole st1 l1 l2 sz temp fuel Hok1 ltac:(lia) Hsize ltac:(lia) ltac:(lia))
        as (st' & Hrun & Hsz' & _ & _ & _ & _ & Herr & _).
      fold my_malloc_serve. rewrite Hrun. eexists _, _. split; [reflexivity|].
      split.
      * intros _. split; [exact Herr|].
        replace (temp + TOTAL_METADATA_SIZE - TOTAL_METADATA_SIZE) with temp by lia.
        rewrite wrap_small by lia. rewrite Hsz'. exact Hsize.
      * unfold NULL. intros E. lia.
Qed.

(** ** C5: splitting *)

(** C5.  Let [temp] be the block that [my_malloc] selects (from the free
    list, or after one heap extension) and let its size exceed the request.
    If [temp->size >= size + TOTAL_METADATA_SIZE + 1], the call returns the
    payload of a new block of exactly the requested size whose payload ends
    where the payload of [temp] ended; that block is not on the free list,
    the free list keeps the same entries in the same order, and the size of
    [temp] has dropped by [size + TOTAL_METADATA_SIZE].  Otherwise [temp] is
    unlinked from the free list and its whole payload is returned, its size
    field unchanged. *)
Theorem my_malloc_split_or_whole :
  forall (st : state) (l : list Z) (sz : Z) (fuel : nat) (temp : Z) (st1 : state),
    heap_ok st l -> 0 < sz -> sz <= SBRK_SIZE - TOTAL_METADATA_SIZE ->
    (length l + 2 < fuel)%nat ->
    my_malloc_select fuel sz (set_errno NO_ERROR st) = Some (inr (temp, st1)) ->
    sz < size (hdr st1 temp) ->
    exists l1 l2,
      flist st1 (l1 ++ temp :: l2) /\
      if sz + TOTAL_METADATA_SIZE + 1 <=? size (hdr st1 temp) then
        let ret := temp + size (hdr st1 temp) - sz in
        exists st2,
          my_malloc fuel sz st = Some (ret + TOTAL_METADATA_SIZE, st2) /\
          ret + TOTAL_METADATA_SIZE + sz =
            temp + TOTAL_METADATA_SIZE + size (hdr st1 temp) /\
          size (hdr st2 ret) = sz /\
          flist st2 (l1 ++ temp :: l2) /\
          ~ In ret (l1 ++ temp :: l2) /\
          size (hdr st2 temp) = size (hdr st1 temp) - (sz + TOTAL_METADATA_SIZE) /\
          (forall a, a <> temp -> a <> ret -> hdr st2 a = hdr st1 a)
      else
        exists st2,
          my_malloc fuel sz st = Some (temp + TOTAL_METADATA_SIZE, st2) /\
          flist st2 (l1 ++ l2) /\
          ~ In temp (l1 ++ l2) /\
          (forall a, size (hdr st2 a) = size (hdr st1 a)).
Proof.
  intros st l sz fuel temp st1 Hok Hsz Hfit Hfuel Hsel Hgt.
  destruct (my_malloc_select_spec (set_errno NO_ERROR st) l sz fuel
              (heap_ok_set_errno _ _ _ Hok) Hsz Hfit Hfuel) as (r & Hr & Hspec).
  rewrite Hsel in Hr. inversion Hr; subst r. clear Hr.
  destruct Hspec as (l' & Hok1 & Hin & Hsize & _ & Hlen & _).
  destruct (in_split _ _ Hin) as (l1 & l2 & El). subst l'.
  rewrite length_app in Hlen. simpl in Hlen.
  exists l1, l2. split; [apply Hok1|].
  assert (Hrun : forall r, my_malloc_serve fuel sz temp st1 = Some r ->
                           my_malloc fuel sz st = Some r).
  { intros r Hserve. unfold MyMalloc.my_malloc. rewrite wrap_SBRK_payload.
    destruct (Z.gtb_spec sz (SBRK_SIZE - TOTAL_METADATA_SIZE)) as [E|_]; [lia|].
    destruct (Z.eqb_spec sz 0) as [E|_]; [lia|].
    fold my_malloc_select. rewrite Hsel. cbn [bind]. exact Hserve. }
  pose proof (heap_ok_ascending _ _ Hok1) as Hasc. apply ascending_NoDup in Hasc.
  destruct (Z.leb_spec (sz + TOTAL_METADATA_SIZE + 1) (size (hdr st1 temp))) as [Hsplit|Hwhole].
  - destruct (my_malloc_serve_split st1 l1 l2 sz temp fuel Hok1 Hsz Hsplit)
      as (st2 & Hserve & Hhdr & _ & _ & _ & _ & _ & Hnin & Hlt & Hok2).
    cbn zeta. exists st2. split; [apply Hrun; exact Hserve|].
    split; [lia|]. split.
    { rewrite Hhdr. rewrite Z.eqb_refl. reflexivity. }
    split; [apply Hok2|]. split; [exact Hnin|]. split.
    { rewrite Hhdr. destruct (Z.eqb_spec temp (temp + size (hdr st1 temp) - sz)) as [E|_]; [lia|].
      rewrite Z.eqb_refl. simpl. lia. }
    intros a Ha1 Ha2. rewrite Hhdr.
    destruct (Z.eqb_spec a (temp + size (hdr st1 temp) - sz)) as [E|_]; [contradiction|].
    destruct (Z.eqb_spec a temp) as [E|_]; [contradiction | reflexivity].
  - destruct (my_malloc_serve_whole st1 l1 l2 sz temp fuel Hok1 Hsz Hsize ltac:(lia) ltac:(lia))
      as (st2 & Hserve & Hsz2 & _ & _ & _ & _ & _ & Hok2).
    exists st2. split; [apply Hrun; exact Hserve|].
    split; [apply Hok2|]. split; [|exact Hsz2].
    apply NoDup_remove_2 in Hasc. exact Hasc.
Qed.

(** ** C6: a failing [my_realloc] *)

(** A failing [my_malloc] writes no payload byte and no header outside the
    free list and the fresh chunk. *)
Lemma my_malloc_null_frame (st : state) (l : list Z) (sz : Z) (fuel : nat) :
  heap_ok st l -> 0 <= sz < modulus -> (length l + 2 < fuel)%nat ->
  exists p st',
    my_malloc fuel sz st = Some (p, st') /\
    (p = NULL ->
     mem st' = mem st /\
     (forall a, ~ In a l -> a <> brk st -> hdr st' a = hdr st a) /\
     exists l', flist st' l' /\ incl l' (l ++ [brk st])).
Proof.
  intros Hok Hsz Hfuel.
  assert (Hself : incl l (l ++ [brk st])) by (intros a Ha; apply in_or_app; left; exact Ha).
  unfold MyMalloc.my_malloc. rewrite wrap_SBRK_payload.
  destruct (Z.gtb_spec sz (SBRK_SIZE - TOTAL_METADATA_SIZE)) as [Hbig|Hfit].
  { eexists _, _. split; [reflexivity|]. intros _. simpl.
    split; [reflexivity|]. split; [reflexivity|]. exists l. split; [apply Hok | exact Hself]. }
  destruct (Z.eqb_spec sz 0) as [->|Hnz].
  { eexists _, _. split; [reflexivity|]. intros _. simpl.
    split; [reflexivity|]. split; [reflexivity|]. exists l. split; [apply Hok | exact Hself]. }
  destruct (my_malloc_select_spec (set_errno NO_ERROR st) l sz fuel
              (heap_ok_set_errno _ _ _ Hok) ltac:(lia) Hfit Hfuel) as (r & Hr & Hspec).
  fold my_malloc_select. rewrite Hr. cbn [bind].
  destruct r as [st'|(temp, st1)].
  - destruct Hspec as (_ & _ & l' & Hok' & Hincl & Hfoot & Hmem & _).
    exists NULL, st'. split; [reflexivity|]. intros _.
    split; [exact Hmem|]. split; [exact Hfoot|]. exists l'. split; [apply Hok' | exact Hincl].
  - destruct Hspec as (l' & Hok1 & Hin & Hsize & _ & Hlen & _).
    destruct (in_split _ _ Hin) as (l1 & l2 & El). subst l'.
    pose proof (heap_ok_block _ _ _ Hok1 Hin) as (Ht1 & Ht2 & Ht3 & Ht4).
    rewrite length_app in Hlen. simpl in Hlen.
    destruct (Z.le_gt_cases (sz + TOTAL_METADATA_SIZE + 1) (size (hdr st1 temp))) as [Hsplit|Hwhole].
    + destruct (my_malloc_serve_split st1 l1 l2 sz temp fuel Hok1 ltac:(lia) Hsplit)
        as (st' & Hrun & _).
      fold my_malloc_serve. rewrite Hrun. eexists _, _. split; [reflexivity|].
      unfold NULL. intros E. lia.
    + destruct (my_malloc_serve_whole st1 l1 l2 sz temp fuel Hok1 ltac:(lia) Hsize ltac:(lia) ltac:(lia))
        as (st' & Hrun & _).
      fold my_malloc_serve. rewrite Hrun. eexists _, _. split; [reflexivity|].
      unfold NULL. intros E. lia.
Qed.

(** C6.  Let [ptr] be a non-null pointer whose block (the header at
    [ptr - TOTAL_METADATA_SIZE]) lies below the program break and is not on
    the free list, and let the size be non-zero.  When the [my_malloc] call
    inside [my_realloc] returns NULL, [my_realloc] returns NULL, the header of
    the block and every payload byte are as before the call, no header is
    written anywhere but at free-list entries and at the old program break,
    and the block is still not on the free list. *)
Theorem my_realloc_failure_keeps_block :
  forall (st : state) (l : list Z) (ptr sz : Z) (fuel : nat),
    heap_ok st l -> ptr <> NULL -> 0 < sz < modulus ->
    ~ In (wrap (ptr - TOTAL_METADATA_SIZE)) l ->
    wrap (ptr - TOTAL_METADATA_SIZE) < brk st ->
    (length l + 2 < fuel)%nat ->
    exists p st1,
      my_malloc fuel sz (set_errno NO_ERROR st) = Some (p, st1) /\
      (p = NULL ->
       my_realloc fuel ptr sz st = Some (NULL, st1) /\
       hdr st1 (wrap (ptr - TOTAL_METADATA_SIZE)) = hdr st (wrap (ptr - TOTAL_METADATA_SIZE)) /\
       mem st1 = mem st /\
       (forall a, ~ In a l -> a <> brk st -> hdr st1 a = hdr st a) /\
       (forall l', flist st1 l' -> ~ In (wrap (ptr - TOTAL_METADATA_SIZE)) l')).
Proof.
  intros st l ptr sz fuel Hok Hptr Hsz Hlive Hbelow Hfuel.
  destruct (my_malloc_null_frame (set_errno NO_ERROR st) l sz fuel
              (heap_ok_set_errno _ _ _ Hok) ltac:(lia) Hfuel) as (p & st1 & Hrun & Hnull).
  exists p, st1. split; [exact Hrun|]. intros ->.
  destruct (Hnull eq_refl) as (Hmem & Hfoot & l' & Hfl' & Hincl).
  simpl in Hmem, Hfoot, Hincl.
  split.
  { unfold MyMalloc.my_realloc.
    destruct (Z.eqb_spec ptr NULL) as [E|_]; [contradiction|].
    destruct (Z.eqb_spec sz 0) as [E|_]; [lia|].
    fold my_malloc. rewrite Hrun. reflexivity. }
  split; [apply Hfoot; [exact Hlive | lia]|].
  split; [exact Hmem|]. split; [exact Hfoot|].
  intros l'' Hfl'' Hin.
  assert (l'' = l') by (eapply lseg_functional; eauto). subst l''.
  apply Hincl in Hin. apply in_app_or in Hin. destruct Hin as [Hin|[Hin|[]]].
  - contradiction.
  - lia.
Qed.

(** ** C9: [my_calloc] *)

(** C9.  [my_calloc(nmemb, size)] calls [my_malloc] with the machine product
    [nmemb * size] (wrapped to a word).  When that call returns NULL,
    [my_calloc] returns NULL in the state [my_malloc] left, error state
    included.  Otherwise it returns the same pointer, every byte of the
    [nmemb * size] bytes from the pointer on is zero, the bytes outside are
    unchanged, and the headers, the free list and the error state are those
    [my_malloc] left. *)
Theorem my_calloc_zero_fills :
  forall (st : state) (l : list Z) (nmemb sz : Z) (fuel : nat),
    heap_ok st l -> (length l + 2 < fuel)%nat ->
    exists p st1,
      my_malloc fuel (wrap (nmemb * sz)) st = Some (p, st1) /\
      ((p = NULL /\ my_calloc fuel nmemb sz st = Some (NULL, st1)) \/
       (p <> NULL /\
        exists st2,
          my_calloc fuel nmemb sz st = Some (p, st2) /\
          (forall i, 0 <= i < wrap (nmemb * sz) -> mem st2 (wrap (p + i)) = 0) /\
          (forall a, wrap (nmemb * sz) <= wrap (a - p) -> mem st2 a = mem st1 a) /\
          hdr st2 = hdr st1 /\ address_list st2 = address_list st1 /\
          my_malloc_errno st2 = my_malloc_errno st1 /\ brk st2 = brk st1)).
Proof.
  intros st l nmemb sz fuel Hok Hfuel.
  destruct (my_malloc_null_frame st l (wrap (nmemb * sz)) fuel Hok (wrap_range _) Hfuel)
    as (p & st1 & Hrun & _).
  exists p, st1. split; [exact Hrun|].
  unfold MyMalloc.my_calloc. fold my_malloc.
  change (my_malloc fuel (wrap (nmemb * sz)) (set_errno NO_ERROR st))
    with (my_malloc fuel (wrap (nmemb * sz)) st).
  rewrite Hrun. cbn [bind].
  destruct (Z.eqb_spec p NULL) as [E|Hne].
  - left. auto.
  - right. split; [exact Hne|]. eexists. split; [reflexivity|]. simpl.
    split; [|split; [|auto]].
    + intros i Hi.
      replace (wrap (p + i) - p) with (wrap (p + i) + (- p)) by lia.
      rewrite wrap_add_l. replace (p + i + - p) with i by lia.
      pose proof (wrap_range (nmemb * sz)).
      rewrite (wrap_small i) by lia.
      destruct (Z.ltb_spec i (wrap (nmemb * sz))); [reflexivity | lia].
    + intros a Ha. destruct (Z.ltb_spec (wrap (a - p)) (wrap (nmemb * sz))); [lia | reflexivity].
Qed.

(** ** Release keeps the free list ordered *)

Lemma insert_by_address_decompose (b : Z) (l : list Z) :
  ascending l -> ~ In b l ->
  exists l1 l2,
    l = l1 ++ l2 /\ (forall a, In a l1 -> a < b) /\ (forall a, In a l2 -> b < a) /\
    insert_by_address b l = l1 ++ b :: l2.
Proof.
  unfold ascending. induction l as [|c l IH]; intros Hasc Hnin.
  - exists [], []. simpl. repeat split; auto; intros a [].
  - inversion Hasc as [|? ? Hasc' Hall]; subst. simpl.
    destruct (Z.ltb_spec b c) as [Hlt|Hge].
    + exists [], (c :: l). simpl. repeat split; auto.
      * intros a [].
      * intros a [->|Ha]; [exact Hlt|]. rewrite Forall_forall in Hall.
        specialize (Hall _ Ha). lia.
    + destruct IH as (l1 & l2 & El & H1 & H2 & Hins); auto.
      { intros Hin. apply Hnin. right. exact Hin. }
      exists (c :: l1), l2. subst l. simpl. rewrite Hins. repeat split; auto.
      intros a [->|Ha]; [|auto].
      assert (a <> b) by (intros ->; apply Hnin; left; reflexivity). lia.
Qed.

(** Lines 67-86 and 235-243.  On a free list that is strictly ascending by
    address, releasing a non-null pointer whose block is not already on the
    list, and whose [next] field is null in case the list is empty (lines
    68-70 do not write it), links the block after all entries with a smaller
    address and before all entries with a greater one (as head when no entry
    is smaller, as tail when none is greater), and [my_free] returns with a
    free list that is strictly ascending by address, without duplicates, and
    made of entries of the old list and the released block. *)
Theorem my_free_keeps_order :
  forall (st : state) (l : list Z) (ptr : Z) (fuel : nat),
    flist st l -> ascending l ->
    (l = [] -> next (hdr st (wrap (ptr - TOTAL_METADATA_SIZE))) = NULL) ->
    ptr <> NULL -> wrap (ptr - TOTAL_METADATA_SIZE) <> NULL ->
    ~ In (wrap (ptr - TOTAL_METADATA_SIZE)) l ->
    (length l + 1 < fuel)%nat ->
    exists st1 st' l',
      add_to_addr_list fuel (wrap (ptr - TOTAL_METADATA_SIZE)) (set_errno NO_ERROR st)
        = Some st1 /\
      (exists l1 l2,
          l = l1 ++ l2 /\
          (forall a, In a l1 -> a < wrap (ptr - TOTAL_METADATA_SIZE)) /\
          (forall a, In a l2 -> wrap (ptr - TOTAL_METADATA_SIZE) < a) /\
          flist st1 (l1 ++ wrap (ptr - TOTAL_METADATA_SIZE) :: l2)) /\
      my_free fuel ptr st = Some st' /\
      flist st' l' /\ ascending l' /\ NoDup l' /\
      incl l' (wrap (ptr - TOTAL_METADATA_SIZE) :: l).
Proof.
  intros st l ptr fuel Hfl Hasc Hne Hptr Hb Hnin Hfuel.
  pose proof (my_free_spec st ptr l fuel) as Hfree. cbn zeta in Hfree.
  destruct Hfree as (st1 & st' & Hadd & Hfl1 & _ & Hrun & Hfl' & Hblk' & _); auto.
  set (b := wrap (ptr - TOTAL_METADATA_SIZE)) in *.
  destruct (insert_by_address_decompose b l Hasc Hnin) as (l1 & l2 & El & H1 & H2 & Hins).
  destruct (coalesce_addresses (blocks st (insert_by_address b l))) as (Hasc' & Hincl').
  { rewrite blocks_fst. apply insert_by_address_ascending; assumption. }
  rewrite blocks_fst in Hincl'.
  exists st1, st', (map fst (coalesce (blocks st (insert_by_address b l)))).
  split; [exact Hadd|]. split.
  { exists l1, l2. rewrite <- Hins. auto. }
  split; [exact Hrun|]. split; [exact Hfl'|]. split; [exact Hasc'|].
  split; [apply ascending_NoDup; exact Hasc'|].
  intros a Ha. apply Hincl' in Ha. apply insert_by_address_In in Ha.
  destruct Ha as [->|Ha]; [left; reflexivity | right; exact Ha].
Qed.

(** ** C7: allocate, then release *)

Lemma coalesce_from_reinsert (Ba : list (Z * Z)) :
  forall p t s1 r s2 Bb,
    any_adjacent p (Ba ++ (t, wrap (s1 + s2 + TOTAL_METADATA_SIZE)) :: Bb) = false ->
    adjacent (t, s1) r = true ->
    coalesce_from p (Ba ++ (t, s1) :: (r, s2) :: Bb)
    = p :: Ba ++ (t, wrap (s1 + s2 + TOTAL_METADATA_SIZE)) :: Bb.
Proof.
  induction Ba as [|c Ba IH]; intros p t s1 r s2 Bb Hna Hadj; simpl in *.
  - apply orb_false_iff in Hna. destruct Hna as (Hpt & Hna).
    rewrite Hpt, Hadj. f_equal.
    apply no_adjacent_fixed. exact Hna.
  - apply orb_false_iff in Hna. destruct Hna as (Hpc & Hna).
    rewrite Hpc. f_equal. apply IH; assumption.
Qed.

Lemma coalesce_reinsert (Ba Bb : list (Z * Z)) (t s1 r s2 : Z) :
  coalesced (Ba ++ (t, wrap (s1 + s2 + TOTAL_METADATA_SIZE)) :: Bb) ->
  adjacent (t, s1) r = true ->
  coalesce (Ba ++ (t, s1) :: (r, s2) :: Bb)
  = Ba ++ (t, wrap (s1 + s2 + TOTAL_METADATA_SIZE)) :: Bb.
Proof.
  intros Hco Hadj. destruct Ba as [|p Ba]; simpl in *.
  - rewrite Hadj. apply no_adjacent_fixed. exact Hco.
  - apply coalesce_from_reinsert; assumption.
Qed.

Lemma ascending_around (l1 l2 : list Z) (t : Z) :
  ascending (l1 ++ t :: l2) ->
  Forall (fun a => a < t) l1 /\ Forall (fun a => t < a) l2 /\ ~ In t (l1 ++ l2).
Proof.
  intros Hasc. pose proof (ascending_NoDup _ Hasc) as Hnd.
  apply ascending_app in Hasc. destruct Hasc as (_ & H2 & H12).
  inversion H2 as [|? ? _ Hall]; subst.
  split; [|split].
  - rewrite Forall_forall. intros a Ha. apply H12; [exact Ha | left; reflexivity].
  - exact Hall.
  - apply NoDup_remove_2 in Hnd. exact Hnd.
Qed.

Lemma roundtrip_whole (st : state) (l1 l2 : list Z) (sz temp : Z) (fuel : nat) :
  heap_ok st (l1 ++ temp :: l2) -> coalesced (blocks st (l1 ++ temp :: l2)) ->
  0 < sz -> sz <= size (hdr st temp) ->
  size (hdr st temp) < sz + TOTAL_METADATA_SIZE + 1 ->
  (length (l1 ++ temp :: l2) + 1 < fuel)%nat ->
  exists p st1 st2,
    my_malloc_serve fuel sz temp st = Some (p, st1) /\ brk st1 = brk st /\
    my_free fuel p st1 = Some st2 /\
    flist st2 (l1 ++ temp :: l2) /\
    blocks st2 (l1 ++ temp :: l2) = blocks st (l1 ++ temp :: l2).
Proof.
  intros Hok Hco Hsz Hfit Hslack Hfuel.
  rewrite length_app in Hfuel. simpl in Hfuel.
  pose proof (heap_ok_block st _ temp Hok ltac:(apply in_or_app; right; left; reflexivity))
    as (Ht1 & Ht2 & Ht3 & Ht4).
  destruct (my_malloc_serve_whole st l1 l2 sz temp fuel Hok Hsz Hfit Hslack ltac:(lia))
    as (st1 & Hserve & Hsz1 & Hfoot1 & _ & Hbrk1 & _ & _ & Hok1).
  pose proof (heap_ok_ascending _ _ Hok) as Hasc.
  destruct (ascending_around _ _ _ Hasc) as (Hbefore & Hafter & Hnin).
  assert (Hb : wrap (temp + TOTAL_METADATA_SIZE - TOTAL_METADATA_SIZE) = temp).
  { replace (temp + TOTAL_METADATA_SIZE - TOTAL_METADATA_SIZE) with temp by lia.
    apply wrap_small. lia. }
  pose proof (my_free_spec st1 (temp + TOTAL_METADATA_SIZE) (l1 ++ l2) fuel) as Hfree.
  cbn zeta in Hfree. rewrite Hb in Hfree.
  assert (Hins : insert_by_address temp (l1 ++ l2) = l1 ++ temp :: l2).
  { apply insert_by_address_split; [exact Hbefore|].
    destruct l2 as [|c l2]; [exact I|]. inversion Hafter; assumption. }
  rewrite Hins in Hfree.
  assert (Hblk : blocks st1 (l1 ++ temp :: l2) = blocks st (l1 ++ temp :: l2)).
  { apply blocks_same. intros a _. apply Hsz1. }
  rewrite Hblk in Hfree. rewrite (coalesced_fixed _ Hco) in Hfree.
  rewrite blocks_fst in Hfree.
  destruct Hfree as (_ & st2 & _ & _ & _ & Hrun & Hfl2 & Hblk2 & _).
  - apply Hok1.
  - apply (heap_ok_ascending _ _ Hok1).
  - unfold NULL. lia.
  - unfold NULL. lia.
  - exact Hnin.
  - intros E. apply app_eq_nil in E. destruct E as (-> & ->).
    rewrite Hfoot1 by (intros []).
    destruct Hok as (Hfl & _). unfold flist in Hfl. simpl in Hfl. apply Hfl.
  - rewrite length_app. lia.
  - exists (temp + TOTAL_METADATA_SIZE), st1, st2. auto.
Qed.

Lemma roundtrip_split (st : state) (l1 l2 : list Z) (sz temp : Z) (fuel : nat) :
  heap_ok st (l1 ++ temp :: l2) -> coalesced (blocks st (l1 ++ temp :: l2)) ->
  0 < sz -> sz + TOTAL_METADATA_SIZE + 1 <= size (hdr st temp) ->
  (length (l1 ++ temp :: l2) + 1 < fuel)%nat ->
  exists p st1 st2,
    my_malloc_serve fuel sz temp st = Some (p, st1) /\ brk st1 = brk st /\
    my_free fuel p st1 = Some st2 /\
    flist st2 (l1 ++ temp :: l2) /\
    blocks st2 (l1 ++ temp :: l2) = blocks st (l1 ++ temp :: l2).
Proof.
  intros Hok Hco Hsz Hbig Hfuel.
  pose proof (heap_ok_block st _ temp Hok ltac:(apply in_or_app; right; left; reflexivity))
    as (Ht1 & Ht2 & Ht3 & Ht4).
  destruct (my_malloc_serve_split st l1 l2 sz temp fuel Hok Hsz Hbig)
    as (st1 & Hserve & Hhdr & _ & _ & Hbrk1 & _ & _ & Hnin & Hlt & Hok1).
  set (ret := temp + size (hdr st temp) - sz) in *.
  pose proof (heap_ok_ascending _ _ Hok) as Hasc.
  destruct (ascending_around _ _ _ Hasc) as (Hbefore & Hafter & Hnt).
  assert (Hb : wrap (ret + TOTAL_METADATA_SIZE - TOTAL_METADATA_SIZE) = ret).
  { replace (ret + TOTAL_METADATA_SIZE - TOTAL_METADATA_SIZE) with ret by lia.
    apply wrap_small. unfold ret. lia. }
  pose proof (my_free_spec st1 (ret + TOTAL_METADATA_SIZE) (l1 ++ temp :: l2) fuel) as Hfree.
  cbn zeta in Hfree. rewrite Hb in Hfree.
  (* where the released tail is linked *)
  pose proof Hok as (_ & Hlo & _). rewrite blocks_app in Hlo.
  change (blocks st (temp :: l2)) with ((temp, size (hdr st temp)) :: blocks st l2) in Hlo.
  destruct (laid_out_split _ _ _ _ _ Hlo) as (_ & _ & _ & _ & _ & _ & Hfar).
  cbn [fst snd] in Hfar.
  assert (Hins : insert_by_address ret (l1 ++ temp :: l2) = (l1 ++ [temp]) ++ ret :: l2).
  { replace (l1 ++ temp :: l2) with ((l1 ++ [temp]) ++ l2) by (rewrite <- app_assoc; reflexivity).
    apply insert_by_address_split.
    - apply Forall_app. split.
      + eapply Forall_impl; [|exact Hbefore]. simpl. intros a Ha. lia.
      + constructor; [lia | constructor].
    - destruct l2 as [|c l2]; [exact I|].
      inversion Hfar as [|? ? Hc _]; subst. simpl in Hc. unfold ret. lia. }
  rewrite Hins in Hfree.
  assert (Hblk : blocks st1 ((l1 ++ [temp]) ++ ret :: l2) =
                 blocks st l1 ++ (temp, size (hdr st temp) - sz - TOTAL_METADATA_SIZE)
                   :: (ret, sz) :: blocks st l2).
  { rewrite <- app_assoc. rewrite blocks_app.
    change (blocks st1 ([temp] ++ ret :: l2))
      with ((temp, size (hdr st1 temp)) :: (ret, size (hdr st1 ret)) :: blocks st1 l2).
    assert (Hsame : forall l', (forall a, In a l' -> In a (l1 ++ temp :: l2)) -> ~ In temp l' ->
                               blocks st1 l' = blocks st l').
    { intros l' Hsub Hnt'. apply blocks_same. intros a Ha. rewrite Hhdr.
      destruct (Z.eqb_spec a ret) as [->|_]; [exfalso; apply Hnin, Hsub, Ha|].
      destruct (Z.eqb_spec a temp) as [->|_]; [contradiction | reflexivity]. }
    rewrite !Hsame.
    - rewrite !Hhdr. rewrite Z.eqb_refl.
      destruct (Z.eqb_spec temp ret) as [E|_]; [lia|]. rewrite Z.eqb_refl. reflexivity.
    - intros a Ha. apply in_or_app. right. right. exact Ha.
    - intros Hin. apply Hnt, in_or_app. right. exact Hin.
    - intros a Ha. apply in_or_app. left. exact Ha.
    - intros Hin. apply Hnt, in_or_app. left. exact Hin. }
  rewrite Hblk in Hfree.
  assert (Hsum : wrap (size (hdr st temp) - sz - TOTAL_METADATA_SIZE + sz + TOTAL_METADATA_SIZE)
                 = size (hdr st temp)).
  { replace (size (hdr st temp) - sz - TOTAL_METADATA_SIZE + sz + TOTAL_METADATA_SIZE)
      with (size (hdr st temp)) by lia.
    apply wrap_small. lia. }
  assert (Hco' : coalesce (blocks st l1 ++ (temp, size (hdr st temp) - sz - TOTAL_METADATA_SIZE)
                             :: (ret, sz) :: blocks st l2)
                 = blocks st (l1 ++ temp :: l2)).
  { rewrite coalesce_reinsert.
    - rewrite Hsum. rewrite blocks_app. reflexivity.
    - rewrite Hsum. rewrite blocks_app in Hco. exact Hco.
    - unfold MyMalloc.adjacent, MyMalloc.block_end. cbn [fst snd].
      replace (temp + TOTAL_METADATA_SIZE + (size (hdr st temp) - sz - TOTAL_METADATA_SIZE))
        with ret by (unfold ret; lia).
      rewrite wrap_small by (unfold ret; lia). apply Z.eqb_refl. }
  rewrite Hco' in Hfree. rewrite blocks_fst in Hfree.
  destruct Hfree as (_ & st2 & _ & _ & _ & Hrun & Hfl2 & Hblk2 & _).
  - apply Hok1.
  - exact Hasc.
  - unfold NULL, ret. lia.
  - unfold NULL, ret. lia.
  - exact Hnin.
  - intros E. destruct l1; discriminate.
  - exact Hfuel.
  - exists (ret + TOTAL_METADATA_SIZE), st1, st2. auto.
Qed.

(** C7 (amended).  On a well-formed heap whose free list has no two
    adjacent blocks, [my_malloc(s)] returns, and whenever it did not extend
    the heap (the program break is the one before the call: the call failed
    without obtaining a chunk, or was served from the free list), releasing
    the returned pointer right away gives back the free list of before the
    call: the same entries with the same sizes, hence the same number of
    blocks and the same total of free payload bytes. *)
Theorem malloc_free_roundtrip :
  forall (st : state) (l : list Z) (sz : Z) (fuel : nat),
    heap_ok st l -> coalesced (blocks st l) ->
    0 <= sz < modulus -> (length l + 2 < fuel)%nat ->
    exists p st1,
      my_malloc fuel sz st = Some (p, st1) /\
      (brk st1 = brk st ->
       exists st2,
         my_free fuel p st1 = Some st2 /\
         flist st2 l /\
         blocks st2 l = blocks st l /\
         free_bytes st2 l = free_bytes st l).
Proof.
  intros st l sz fuel Hok Hco Hsz Hfuel.
  assert (Hdone : forall p st1 st2,
             my_free fuel p st1 = Some st2 -> flist st2 l -> blocks st2 l = blocks st l ->
             exists st2', my_free fuel p st1 = Some st2' /\ flist st2' l /\
                          blocks st2' l = blocks st l /\ free_bytes st2' l = free_bytes st l).
  { intros p st1 st2 H1 H2 H3. exists st2. repeat split; auto.
    unfold free_bytes. rewrite H3. reflexivity. }
  unfold MyMalloc.my_malloc. rewrite wrap_SBRK_payload.
  destruct (Z.gtb_spec sz (SBRK_SIZE - TOTAL_METADATA_SIZE)) as [Hbig|Hfit].
  { eexists _, _. split; [reflexivity|]. intros _.
    eapply Hdone; [reflexivity | apply Hok | reflexivity]. }
  destruct (Z.eqb_spec sz 0) as [->|Hnz].
  { eexists _, _. split; [reflexivity|]. intros _.
    eapply Hdone; [reflexivity | apply Hok | reflexivity]. }
  destruct (my_malloc_select_spec (set_errno NO_ERROR st) l sz fuel
              (heap_ok_set_errno _ _ _ Hok) ltac:(lia) Hfit Hfuel) as (r & Hr & Hspec).
  fold my_malloc_select. rewrite Hr. cbn [bind].
  destruct r as [st'|(temp, st1)].
  - destruct Hspec as (_ & [->|Hgrow] & _).
    + exists NULL, (set_errno OUT_OF_MEMORY (set_errno NO_ERROR st)).
      split; [reflexivity|]. intros _.
      eapply Hdone; [reflexivity | apply Hok | reflexivity].
    + exists NULL, st'. split; [reflexivity|]. simpl in Hgrow. intros E. lia.
  - destruct Hspec as (l' & Hok1 & Hin & Hsize & _ & _ & _ & _ & _ & _ & [(-> & ->)|Hgrow]).
    + destruct (in_split _ _ Hin) as (l1 & l2 & El). subst l.
      destruct (Z.le_gt_cases (sz + TOTAL_METADATA_SIZE + 1)
                  (size (hdr (set_errno NO_ERROR st) temp))) as [Hsplit|Hwhole].
      * destruct (roundtrip_split (set_errno NO_ERROR st) l1 l2 sz temp fuel Hok1 Hco
                    ltac:(lia) Hsplit ltac:(lia))
          as (p & st1 & st2 & Hserve & _ & Hfree & Hfl2 & Hblk2).
        fold my_malloc_serve. rewrite Hserve. exists p, st1. split; [reflexivity|].
        intros _. eapply Hdone; eauto.
      * destruct (roundtrip_whole (set_errno NO_ERROR st) l1 l2 sz temp fuel Hok1 Hco
                    ltac:(lia) Hsize ltac:(lia) ltac:(lia))
          as (p & st1 & st2 & Hserve & _ & Hfree & Hfl2 & Hblk2).
        fold my_malloc_serve. rewrite Hserve. exists p, st1. split; [reflexivity|].
        intros _. eapply Hdone; eauto.
    + (* the heap was extended: the break moved *)
      destruct (in_split _ _ Hin) as (l1 & l2 & El). subst l'.
      pose proof (heap_ok_block _ _ _ Hok1 Hin) as (Ht1 & Ht2 & Ht3 & Ht4).
      simpl in Hgrow.
      destruct (Z.le_gt_cases (sz + TOTAL_METADATA_SIZE + 1) (size (hdr st1 temp))) as [Hsplit|Hwhole].
      * destruct (my_malloc_serve_split st1 l1 l2 sz temp fuel Hok1 ltac:(lia) Hsplit)
          as (st' & Hrun & _ & _ & _ & Hbrk & _).
        fold my_malloc_serve. rewrite Hrun. eexists _, _. split; [reflexivity|].
        intros E. lia.
      * destruct (my_malloc_select_spec (set_errno NO_ERROR st) l sz fuel
                    (heap_ok_set_errno _ _ _ Hok) ltac:(lia) Hfit Hfuel) as (r' & Hr' & Hspec').
        rewrite Hr in Hr'. inversion Hr'; subst r'. clear Hr'.
        destruct Hspec' as (l'' & Hok'' & _ & _ & _ & Hlen & _).
        assert (l'' = l1 ++ temp :: l2).
        { destruct Hok'' as (Hf1 & _). destruct Hok1 as (Hf2 & _).
          eapply lseg_functional; eauto. }
        subst l''. rewrite length_app in Hlen. simpl in Hlen.
        destruct (my_malloc_serve_whole st1 l1 l2 sz temp fuel Hok1 ltac:(lia) Hsize ltac:(lia) ltac:(lia))
          as (st' & Hrun & _ & _ & _ & Hbrk & _).
        fold my_malloc_serve. rewrite Hrun. eexists _, _. split; [reflexivity|].
        intros E. lia.
Qed.

(** ** Tilings and cyclic lists *)

Lemma tiles_span (segs : list (Z * Z)) :
  forall lo hi, tiles TOTAL_METADATA_SIZE lo segs hi ->
                hi - lo = span TOTAL_METADATA_SIZE segs.
Proof using Type.
  clear HSZ_pos SBRK_gt SBRK_le.
  induction segs as [|b segs IH]; intros lo hi Ht; simpl in *.
  - lia.
  - destruct Ht as (E & Hs & Ht). apply IH in Ht. lia.
Qed.

Lemma span_Permutation (a b : list (Z * Z)) :
  Permutation a b -> span TOTAL_METADATA_SIZE a = span TOTAL_METADATA_SIZE b.
Proof using Type.
  clear HSZ_pos SBRK_gt SBRK_le.
  induction 1; simpl; lia.
Qed.

(** Once a block is linked to itself the loop of [mergeAll] never ends. *)
Lemma mergeAll_loop_cycle (st : state) (a : Z) :
  a <> NULL -> next (hdr st a) = a ->
  wrap (a + TOTAL_METADATA_SIZE + size (hdr st a)) <> a ->
  forall fuel i, mergeAll_loop fuel a a i st = None.
Proof.
  intros Ha Hself Hadj fuel. induction fuel as [|fuel IH]; intros i; [reflexivity|].
  cbn [MyMalloc.mergeAll_loop].
  destruct (Z.eqb_spec a NULL) as [E|_]; [contradiction|].
  destruct (Z.eqb_spec (wrap (a + TOTAL_METADATA_SIZE + size (hdr st a))) a) as [E|_];
    [contradiction|].
  rewrite Hself. apply IH.
Qed.

Lemma mergeAll_cycle (st : state) :
  address_list st <> NULL ->
  next (hdr st (address_list st)) = address_list st ->
  wrap (address_list st + TOTAL_METADATA_SIZE + size (hdr st (address_list st)))
    <> address_list st ->
  forall fuel, mergeAll fuel st = None.
Proof.
  intros Ha Hself Hadj fuel. destruct fuel as [|fuel]; [reflexivity|].
  cbn [MyMalloc.mergeAll].
  destruct (Z.eqb_spec (address_list st) NULL) as [E|_]; [contradiction|].
  rewrite Hself. rewrite mergeAll_loop_cycle; auto.
Qed.

(** Releasing the head of the free list a second time links it to itself,
    and [mergeAll] never returns. *)
Lemma my_free_head_again (st : state) (ptr : Z) :
  ptr <> NULL ->
  address_list st = wrap (ptr - TOTAL_METADATA_SIZE) ->
  address_list st <> NULL ->
  wrap (address_list st + TOTAL_METADATA_SIZE + size (hdr st (address_list st)))
    <> address_list st ->
  forall fuel, my_free fuel ptr st = None.
Proof using Type.
  clear HSZ_pos SBRK_gt SBRK_le.
  intros Hptr Hb Hhead Hadj fuel.
  unfold MyMalloc.my_free.
  destruct (Z.eqb_spec ptr NULL) as [E|_]; [contradiction|].
  rewrite <- Hb. unfold add_to_addr_list. cbn [address_list set_errno].
  destruct (Z.eqb_spec (address_list st) NULL) as [E|_]; [contradiction|].
  destruct fuel as [|fuel]; [reflexivity|].
  cbn [add_scan]. rewrite Z.ltb_irrefl. rewrite andb_false_r. cbn [bind].
  change (NULL =? NULL) with true. cbv iota.
  apply mergeAll_cycle.
  - simpl. exact Hhead.
  - simpl. rewrite Z.eqb_refl. reflexivity.
  - simpl. rewrite Z.eqb_refl. simpl. exact Hadj.
Qed.

(** * Further properties of the code *)

Local Abbreviation apart := (apart TOTAL_METADATA_SIZE).
Local Abbreviation live_block := (live_block TOTAL_METADATA_SIZE).
Local Abbreviation span := (span TOTAL_METADATA_SIZE).

(** ** [remove_from_addr_list] *)

(** Lines 91-109, the block is on the list.  The block is unlinked and
    nothing else happens: the other entries keep their order, no size field
    changes, the only header written is the one of the entry before the
    block, and the header of the block itself (its [next] field included) is
    left as it was.  A fuel above the position of the block suffices. *)
Theorem remove_from_addr_list_unlinks :
  forall (st : state) (l1 l2 : list Z) (block : Z) (fuel : nat),
    flist st (l1 ++ block :: l2) -> NoDup (l1 ++ block :: l2) ->
    (length l1 < fuel)%nat ->
    exists st',
      remove_from_addr_list fuel block st = Some st' /\
      flist st' (l1 ++ l2) /\ ~ In block (l1 ++ l2) /\
      (forall a, size (hdr st' a) = size (hdr st a)) /\
      hdr st' block = hdr st block /\
      (forall a, ~ In a l1 -> hdr st' a = hdr st a) /\
      same_globals st st'.
Proof using Type.
  clear HSZ_pos SBRK_gt SBRK_le.
  intros st l1 l2 block fuel Hfl Hnd Hfuel.
  destruct (remove_from_addr_list_spec st block l1 l2 fuel Hfl Hnd Hfuel)
    as (st' & Hrm & Hfl' & Hsz & Hfoot & Hglob).
  pose proof (NoDup_remove_2 _ _ _ Hnd) as Hnin.
  exists st'. split; [exact Hrm|]. split; [exact Hfl'|]. split; [exact Hnin|].
  split; [exact Hsz|]. split; [|split; [exact Hfoot | exact Hglob]].
  apply Hfoot. intros Hin. apply Hnin, in_or_app. left. exact Hin.
Qed.

Lemma remove_scan_absent (st : state) (block : Z) (l : list Z) :
  forall fuel prev curr,
    lseg (hdr st) curr NULL l -> ~ In block l -> (length l < fuel)%nat ->
    remove_scan fuel block prev curr st = Some (last l prev, NULL).
Proof using Type.
  clear HSZ_pos SBRK_gt SBRK_le.
  induction l as [|a l IH]; intros fuel prev curr Hl Hnin Hfuel; simpl in Hl.
  - subst curr. destruct fuel as [|fuel]; [simpl in Hfuel; lia|]. reflexivity.
  - destruct Hl as (Hc & Ha & Hl). subst curr.
    destruct fuel as [|fuel]; [simpl in Hfuel; lia|]. simpl in Hfuel. simpl.
    destruct (Z.eqb_spec a NULL) as [E|_]; [contradiction|].
    destruct (Z.eqb_spec a block) as [E|_].
    { exfalso. apply Hnin. left. exact E. }
    simpl. rewrite (IH fuel a) by (auto; try lia; intros Hin; apply Hnin; right; exact Hin).
    destruct l as [|z l]; [reflexivity|].
    change (last (a :: z :: l) prev) with (last (z :: l) prev).
    rewrite (last_cons_default l z a prev). reflexivity.
Qed.

(** Lines 91-109, the block is not on the list (or the list is empty).
    The call returns and changes nothing at all. *)
Theorem remove_from_addr_list_absent :
  forall (st : state) (l : list Z) (block : Z) (fuel : nat),
    flist st l -> ~ In block l -> (length l < fuel)%nat ->
    remove_from_addr_list fuel block st = Some st.
Proof using Type.
  clear HSZ_pos SBRK_gt SBRK_le.
  intros st l block fuel Hfl Hnin Hfuel. unfold flist in Hfl.
  unfold remove_from_addr_list.
  destruct (Z.eqb_spec (address_list st) NULL) as [E|Hne]; [reflexivity|].
  rewrite (remove_scan_absent st block l fuel NULL _ Hfl Hnin Hfuel). simpl.
  destruct l as [|a l].
  - simpl in Hfl. contradiction.
  - assert (Hlast : In (last (a :: l) NULL) (a :: l)).
    { destruct (exists_last (l := a :: l) ltac:(discriminate)) as (l' & x & E).
      rewrite E. rewrite last_last. apply in_or_app. right. left. reflexivity. }
    pose proof (lseg_not_null _ _ _ _ Hfl) as Hnn. rewrite Forall_forall in Hnn.
    specialize (Hnn _ Hlast).
    destruct (Z.eqb_spec (last (a :: l) NULL) NULL) as [E|_]; [contradiction|].
    reflexivity.
Qed.

Lemma lseg_next_agree (h h' : Z -> metadata_t) (l : list Z) :
  forall p p' q, lseg h p q l -> lseg h' p' q l ->
                 forall a, In a l -> next (h' a) = next (h a).
Proof using Type.
  clear HSZ_pos SBRK_gt SBRK_le.
  induction l as [|c l IH]; intros p p' q H1 H2 a Ha; simpl in *.
  - contradiction.
  - destruct H1 as (_ & _ & H1). destruct H2 as (_ & _ & H2).
    assert (Hhead : next (h' c) = next (h c)).
    { destruct l as [|d l]; simpl in *.
      - congruence.
      - destruct H1 as (E1 & _). destruct H2 as (E2 & _). congruence. }
    destruct Ha as [->|Ha]; [exact Hhead|].
    eapply IH; eauto.
Qed.

(** Lines 67-109: unlinking a block of an address-ordered free list and
    adding it again restores the free list exactly.  Every header record and
    the head pointer are the ones of before (also when the block was the
    only entry, since unlinking left its [next] field null). *)
Theorem remove_then_add_restores :
  forall (st : state) (l1 l2 : list Z) (block : Z) (fuel : nat),
    flist st (l1 ++ block :: l2) -> ascending (l1 ++ block :: l2) ->
    (length (l1 ++ block :: l2) < fuel)%nat ->
    exists st1 st2,
      remove_from_addr_list fuel block st = Some st1 /\
      add_to_addr_list fuel block st1 = Some st2 /\
      (forall a, hdr st2 a = hdr st a) /\
      address_list st2 = address_list st /\
      same_globals st st2.
Proof using Type.
  clear HSZ_pos SBRK_gt SBRK_le.
  intros st l1 l2 block fuel Hfl Hasc Hfuel.
  rewrite length_app in Hfuel. simpl in Hfuel.
  pose proof (ascending_NoDup _ Hasc) as Hnd.
  destruct (ascending_around _ _ _ Hasc) as (Hbefore & Hafter & Hnin).
  destruct (remove_from_addr_list_spec st block l1 l2 fuel Hfl Hnd ltac:(lia))
    as (st1 & Hrm & Hfl1 & Hsz1 & Hfoot1 & Hglob1).
  pose proof (lseg_not_null _ _ _ _ Hfl) as Hnn. rewrite Forall_forall in Hnn.
  assert (Hblock : block <> NULL) by (apply Hnn, in_or_app; right; left; reflexivity).
  assert (Hb1 : hdr st1 block = hdr st block).
  { apply Hfoot1. intros Hin. apply Hnin, in_or_app. left. exact Hin. }
  assert (Hasc1 : ascending (l1 ++ l2)).
  { apply ascending_app in Hasc. destruct Hasc as (A1 & A2 & A12).
    apply ascending_app. split; [exact A1|]. split; [inversion A2; assumption|].
    intros a b Ha Hb. apply A12; [exact Ha | right; exact Hb]. }
  destruct (add_to_addr_list_spec st1 block (l1 ++ l2) fuel Hfl1 Hasc1 Hnin Hblock)
    as (st2 & Hadd & Hfl2 & Hsz2 & Hfoot2 & Hglob2).
  { intros E. apply app_eq_nil in E. destruct E as (-> & ->).
    rewrite Hb1. unfold flist in Hfl. simpl in Hfl. apply Hfl. }
  { rewrite length_app. lia. }
  assert (Hins : insert_by_address block (l1 ++ l2) = l1 ++ block :: l2).
  { apply insert_by_address_split; [exact Hbefore|].
    destruct l2 as [|c l2]; [exact I|]. inversion Hafter; assumption. }
  rewrite Hins in Hfl2.
  exists st1, st2. split; [exact Hrm|]. split; [exact Hadd|].
  split; [|split].
  - intros a.
    assert (Hsize : size (hdr st2 a) = size (hdr st a)) by (rewrite Hsz2; apply Hsz1).
    assert (Hnext : next (hdr st2 a) = next (hdr st a)).
    { destruct (in_dec Z.eq_dec a (l1 ++ block :: l2)) as [Hin|Hout].
      - eapply lseg_next_agree; [exact Hfl | exact Hfl2 | exact Hin].
      - rewrite Hfoot2.
        + rewrite Hfoot1; [reflexivity|].
          intros Hin. apply Hout, in_or_app. left. exact Hin.
        + intros ->. apply Hout, in_or_app. right. left. reflexivity.
        + intros Hin. apply Hout. apply in_app_or in Hin.
          apply in_or_app. destruct Hin as [Hin|Hin]; [left | right; right]; exact Hin. }
    destruct (hdr st2 a), (hdr st a). simpl in *. congruence.
  - unfold flist in Hfl, Hfl2.
    destruct l1 as [|c l1]; simpl in Hfl, Hfl2.
    + destruct Hfl as (E1 & _). destruct Hfl2 as (E2 & _). congruence.
    + destruct Hfl as (E1 & _). destruct Hfl2 as (E2 & _). congruence.
  - apply (same_globals_trans st st1 st2); assumption.
Qed.

(** ** Byte accounting and coalescing on well-formed heaps *)

Local Abbreviation spaced := (spaced TOTAL_METADATA_SIZE).

Lemma span_app (B1 B2 : list (Z * Z)) : span (B1 ++ B2) = span B1 + span B2.
Proof using Type.
  clear HSZ_pos SBRK_gt SBRK_le.
  induction B1 as [|b B1 IH]; simpl; [reflexivity|]. rewrite IH. ring.
Qed.

Lemma span_coalesce_from (rest : list (Z * Z)) :
  forall p lo hi,
    0 <= lo -> hi < modulus -> laid_out lo (p :: rest) hi ->
    span (coalesce_from p rest) = span (p :: rest).
Proof using HSZ_pos.
  clear SBRK_gt SBRK_le.
  induction rest as [|c rest IH]; intros p lo hi Hlo Hhi Hl.
  - reflexivity.
  - cbn [MyMalloc.coalesce_from].
    pose proof Hl as Hl0. simpl in Hl. destruct Hl as (H1 & H2 & H3 & H4 & H5).
    pose proof (laid_out_bounds _ _ _ H5) as (Hb & _).
    rewrite adjacent_exact by lia.
    destruct (Z.eqb_spec (fst p + TOTAL_METADATA_SIZE + snd p) (fst c)) as [E|_].
    + rewrite (IH (absorb p c) lo hi); [| exact Hlo | exact Hhi |].
      * unfold MyMalloc.absorb. simpl. rewrite wrap_small by lia. ring.
      * unfold MyMalloc.absorb. simpl. rewrite wrap_small by lia.
        repeat split; try lia.
        replace (fst p + TOTAL_METADATA_SIZE + (snd p + snd c + TOTAL_METADATA_SIZE))
          with (fst c + TOTAL_METADATA_SIZE + snd c) by lia.
        exact H5.
    + change (span (p :: coalesce_from c rest))
        with (TOTAL_METADATA_SIZE + snd p + span (coalesce_from c rest)).
      rewrite (IH c (fst p + TOTAL_METADATA_SIZE + snd p) hi);
        [reflexivity | lia | exact Hhi | simpl; auto].
Qed.

Lemma span_coalesce (B : list (Z * Z)) (lo hi : Z) :
  0 <= lo -> hi < modulus -> laid_out lo B hi -> span (coalesce B) = span B.
Proof using HSZ_pos.
  clear SBRK_gt SBRK_le.
  destruct B as [|p rest]; intros Hlo Hhi Hl; [reflexivity|].
  apply (span_coalesce_from rest p lo hi); assumption.
Qed.

Lemma any_adjacent_spaced (rest : list (Z * Z)) :
  forall p lo hi,
    0 <= lo -> hi < modulus -> laid_out lo (p :: rest) hi ->
    (any_adjacent p rest = false <-> spaced (p :: rest)).
Proof using HSZ_pos.
  clear SBRK_gt SBRK_le.
  induction rest as [|c rest IH]; intros p lo hi Hlo Hhi Hl.
  - simpl. tauto.
  - pose proof Hl as Hl0. simpl in Hl. destruct Hl as (H1 & H2 & H3 & H4 & H5).
    pose proof (laid_out_bounds _ _ _ H5) as (Hb & _).
    cbn [MyMalloc.any_adjacent]. rewrite adjacent_exact by lia.
    change (spaced (p :: c :: rest))
      with (fst p + TOTAL_METADATA_SIZE + snd p <> fst c /\ spaced (c :: rest)).
    rewrite <- (IH c (fst p + TOTAL_METADATA_SIZE + snd p) hi) by (simpl; auto; lia).
    rewrite orb_false_iff. rewrite Z.eqb_neq. tauto.
Qed.

Lemma coalesced_spaced (B : list (Z * Z)) (lo hi : Z) :
  0 <= lo -> hi < modulus -> laid_out lo B hi -> (coalesced B <-> spaced B).
Proof using HSZ_pos.
  clear SBRK_gt SBRK_le.
  destruct B as [|p rest]; intros Hlo Hhi Hl; [simpl; tauto|].
  apply (any_adjacent_spaced rest p lo hi); assumption.
Qed.

Lemma spaced_shrink (B1 : list (Z * Z)) :
  forall t s s' B2,
    spaced (B1 ++ (t, s) :: B2) ->
    match B2 with [] => True | c :: _ => t + TOTAL_METADATA_SIZE + s' <> fst c end ->
    spaced (B1 ++ (t, s') :: B2).
Proof using Type.
  clear HSZ_pos SBRK_gt SBRK_le.
  induction B1 as [|p B1 IH]; intros t s s' B2 Hsp Hnew.
  - simpl in *. destruct Hsp as (_ & Hsp). split; [|exact Hsp].
    destruct B2; [exact I | exact Hnew].
  - change (spaced ((p :: B1) ++ (t, s) :: B2))
      with (match B1 ++ (t, s) :: B2 with
            | [] => True
            | c :: _ => fst p + TOTAL_METADATA_SIZE + snd p <> fst c
            end /\ spaced (B1 ++ (t, s) :: B2)) in Hsp.
    change (spaced ((p :: B1) ++ (t, s') :: B2))
      with (match B1 ++ (t, s') :: B2 with
            | [] => True
            | c :: _ => fst p + TOTAL_METADATA_SIZE + snd p <> fst c
            end /\ spaced (B1 ++ (t, s') :: B2)).
    destruct Hsp as (Hhd & Hsp). split; [|eapply IH; eauto].
    destruct B1 as [|d B1]; simpl in *; exact Hhd.
Qed.

Lemma spaced_remove (B1 : list (Z * Z)) :
  forall x B2 lo hi,
    laid_out lo (B1 ++ x :: B2) hi -> spaced (B1 ++ x :: B2) -> spaced (B1 ++ B2).
Proof using HSZ_pos.
  clear SBRK_gt SBRK_le.
  induction B1 as [|p B1 IH]; intros x B2 lo hi Hl Hsp.
  - simpl in *. apply Hsp.
  - change (spaced ((p :: B1) ++ x :: B2))
      with (match B1 ++ x :: B2 with
            | [] => True
            | c :: _ => fst p + TOTAL_METADATA_SIZE + snd p <> fst c
            end /\ spaced (B1 ++ x :: B2)) in Hsp.
    change (spaced ((p :: B1) ++ B2))
      with (match B1 ++ B2 with
            | [] => True
            | c :: _ => fst p + TOTAL_METADATA_SIZE + snd p <> fst c
            end /\ spaced (B1 ++ B2)).
    simpl in Hl. destruct Hl as (H1 & H2 & Hl). destruct Hsp as (Hhd & Hsp).
    split; [|eapply IH; eauto].
    destruct B1 as [|d B1]; [|exact Hhd].
    simpl in *. destruct B2 as [|d B2]; [exact I|].
    destruct Hl as (A1 & A2 & A3 & _). lia.
Qed.

Lemma coalesce_length (B : list (Z * Z)) : (length (coalesce B) <= length B)%nat.
Proof using Type.
  clear HSZ_pos SBRK_gt SBRK_le.
  destruct B as [|p rest]; [simpl; lia|]. simpl.
  revert p. induction rest as [|c rest IH]; intros p; simpl; [lia|].
  destruct (adjacent p (fst c)).
  - specialize (IH (absorb p c)). lia.
  - specialize (IH c). simpl. lia.
Qed.

(** Lines 31-49 on a well-formed heap.  [mergeAll] returns; the heap is
    still well-formed and no two free blocks are adjacent; the free list is
    not longer; the bytes held by the free list, headers included, are
    exactly those of before (every merge turns one header into payload); and
    a second [mergeAll] changes nothing. *)
Theorem mergeAll_conserves :
  forall (st : state) (l : list Z) (fuel : nat),
    heap_ok st l -> (length l < fuel)%nat ->
    exists st' l',
      mergeAll fuel st = Some st' /\
      heap_ok st' l' /\ coalesced (blocks st' l') /\
      (length l' <= length l)%nat /\
      span (blocks st' l') = span (blocks st l) /\
      mergeAll fuel st' = Some st'.
Proof using HSZ_pos.
  clear SBRK_gt SBRK_le.
  intros st l fuel Hok Hfuel.
  pose proof (heap_ok_ascending _ _ Hok) as Hasc.
  pose proof Hok as (Hfl & Hlo & Hb1 & Hb2).
  destruct (mergeAll_spec (length l) l st fuel (le_n _) Hfl Hasc Hfuel)
    as (st' & Hrun & Hfl' & Hblk' & _ & _ & (G1 & G2 & G3 & G4) & _).
  destruct (coalesce_addresses (blocks st l)) as (Hasc' & _).
  { rewrite blocks_fst. exact Hasc. }
  set (l' := map fst (coalesce (blocks st l))) in *.
  assert (Hlen : (length l' <= length l)%nat).
  { unfold l'. rewrite length_map.
    pose proof (coalesce_length (blocks st l)) as Hc. unfold blocks in Hc at 2.
    rewrite length_map in Hc. exact Hc. }
  assert (Hco : coalesced (blocks st' l')).
  { rewrite Hblk'. apply coalesce_coalesced. }
  exists st', l'. split; [exact Hrun|].
  split.
  { split; [exact Hfl'|]. split; [|rewrite G3, G4; lia].
    rewrite Hblk', G3. apply coalesce_laid_out; auto; lia. }
  split; [exact Hco|]. split; [exact Hlen|].
  split.
  { rewrite Hblk'. apply (span_coalesce _ 1 (brk st)); auto; lia. }
  destruct (mergeAll_spec (length l') l' st' fuel (le_n _) Hfl' Hasc' ltac:(lia))
    as (st'' & Hrun' & _ & _ & _ & _ & _ & Hsame).
  rewrite (Hsame Hco) in Hrun'. exact Hrun'.
Qed.

(** ** Release on well-formed heaps *)

Local Abbreviation clear_of := (clear_of TOTAL_METADATA_SIZE).

Lemma laid_out_lower_hi (B : list (Z * Z)) :
  forall lo hi hi',
    laid_out lo B hi ->
    Forall (fun c => fst c + TOTAL_METADATA_SIZE + snd c <= hi') B -> lo <= hi' ->
    laid_out lo B hi'.
Proof using Type.
  clear HSZ_pos SBRK_gt SBRK_le.
  induction B as [|b B IH]; intros lo hi hi' Hl Hall Hlo; simpl in *.
  - exact Hlo.
  - destruct Hl as (H1 & H2 & H3). inversion Hall; subst.
    repeat split; auto. eapply IH; eauto.
Qed.

Lemma laid_out_raise_lo (B : list (Z * Z)) (lo lo' hi : Z) :
  laid_out lo B hi -> Forall (fun c => lo' <= fst c) B -> lo' <= hi ->
  laid_out lo' B hi.
Proof using Type.
  clear HSZ_pos SBRK_gt SBRK_le.
  destruct B as [|b B]; intros Hl Hall Hlo; simpl in *.
  - exact Hlo.
  - destruct Hl as (H1 & H2 & H3). inversion Hall; subst. auto.
Qed.

Lemma apart_blocks (st : state) (l : list Z) (c : Z) :
  Forall (apart st c) l <-> Forall (clear_of (c, size (hdr st c))) (blocks st l).
Proof using Type.
  clear HSZ_pos SBRK_gt SBRK_le.
  unfold blocks. rewrite Forall_map. rewrite !Forall_forall.
  unfold MyMalloc.apart, MyMalloc.clear_of. simpl. tauto.
Qed.

Lemma coalesce_from_clear_of (C : Z * Z) (rest : list (Z * Z)) :
  forall p lo hi,
    0 <= snd C -> 0 <= lo -> hi < modulus -> laid_out lo (p :: rest) hi ->
    Forall (clear_of C) (p :: rest) -> Forall (clear_of C) (coalesce_from p rest).
Proof using HSZ_pos.
  clear SBRK_gt SBRK_le.
  induction rest as [|c rest IH]; intros p lo hi HC Hlo Hhi Hl Hall.
  - exact Hall.
  - cbn [MyMalloc.coalesce_from].
    pose proof Hl as Hl0. simpl in Hl. destruct Hl as (H1 & H2 & H3 & H4 & H5).
    pose proof (laid_out_bounds _ _ _ H5) as (Hb & _).
    inversion Hall as [|? ? Hp Hall']; subst.
    inversion Hall' as [|? ? Hc Hall'']; subst.
    rewrite adjacent_exact by lia.
    destruct (Z.eqb_spec (fst p + TOTAL_METADATA_SIZE + snd p) (fst c)) as [E|_].
    + apply (IH (absorb p c) lo hi); auto.
      * unfold MyMalloc.absorb. simpl. rewrite wrap_small by lia.
        repeat split; try lia.
        replace (fst p + TOTAL_METADATA_SIZE + (snd p + snd c + TOTAL_METADATA_SIZE))
          with (fst c + TOTAL_METADATA_SIZE + snd c) by lia.
        exact H5.
      * constructor; [|exact Hall''].
        unfold MyMalloc.clear_of, MyMalloc.absorb in *. simpl.
        rewrite wrap_small by lia. lia.
    + constructor; [exact Hp|].
      apply (IH c (fst p + TOTAL_METADATA_SIZE + snd p) hi); auto; try lia.
      simpl. auto.
Qed.

Lemma coalesce_clear_of (C : Z * Z) (B : list (Z * Z)) (lo hi : Z) :
  0 <= snd C -> 0 <= lo -> hi < modulus -> laid_out lo B hi ->
  Forall (clear_of C) B -> Forall (clear_of C) (coalesce B).
Proof using HSZ_pos.
  clear SBRK_gt SBRK_le.
  destruct B as [|p rest]; intros HC Hlo Hhi Hl Hall; [exact Hall|].
  apply (coalesce_from_clear_of C rest p lo hi); assumption.
Qed.

Lemma live_block_not_free (st : state) (l : list Z) (b : Z) :
  live_block st l b -> ~ In b l.
Proof using HSZ_pos.
  clear SBRK_gt SBRK_le.
  intros (H1 & H2 & H3 & Hall) Hin. rewrite Forall_forall in Hall.
  specialize (Hall _ Hin). unfold MyMalloc.apart in Hall. lia.
Qed.

(** Where a released live block goes, and the layout that results. *)
Lemma live_block_insert (st : state) (l : list Z) (b : Z) :
  heap_ok st l -> live_block st l b ->
  exists l1 l2,
    l = l1 ++ l2 /\ insert_by_address b l = l1 ++ b :: l2 /\
    laid_out 1 (blocks st (l1 ++ b :: l2)) (brk st).
Proof using HSZ_pos.
  clear SBRK_gt SBRK_le.
  intros Hok Hlive.
  pose proof (live_block_not_free _ _ _ Hlive) as Hnin.
  destruct Hlive as (Hb1 & Hb2 & Hb3 & Hall). rewrite Forall_forall in Hall.
  pose proof (heap_ok_ascending _ _ Hok) as Hasc.
  destruct (insert_by_address_decompose b l Hasc Hnin) as (l1 & l2 & El & Hlt & Hgt & Hins).
  exists l1, l2. split; [exact El|]. split; [exact Hins|].
  pose proof Hok as (_ & Hlo & _). subst l.
  rewrite blocks_app in Hlo. apply laid_out_app in Hlo. destruct Hlo as (mid & Hl1 & Hl2).
  rewrite blocks_app. apply laid_out_app. exists b. split.
  - eapply laid_out_lower_hi; [exact Hl1| |lia].
    rewrite Forall_forall. intros c Hc. apply blocks_In in Hc. destruct Hc as (Hc & Es).
    rewrite Es. specialize (Hlt _ Hc).
    specialize (Hall (fst c) ltac:(apply in_or_app; left; exact Hc)).
    unfold MyMalloc.apart in Hall. lia.
  - change (blocks st (b :: l2)) with ((b, size (hdr st b)) :: blocks st l2).
    simpl. split; [lia|]. split; [exact Hb2|].
    eapply laid_out_raise_lo; [exact Hl2| |exact Hb3].
    rewrite Forall_forall. intros c Hc. apply blocks_In in Hc. destruct Hc as (Hc & Es).
    specialize (Hgt _ Hc).
    pose proof (heap_ok_block st _ (fst c) Hok ltac:(apply in_or_app; right; exact Hc)) as (_ & Hs & _).
    specialize (Hall (fst c) ltac:(apply in_or_app; right; exact Hc)).
    unfold MyMalloc.apart in Hall. lia.
Qed.

(** Lines 235-243 on a well-formed heap.  Releasing the pointer of a live
    block (the last link of which is null when the free list is empty, see
    line 69) returns and leaves a well-formed heap in which no two free
    blocks are adjacent: the free list is the old one with the block
    inserted and coalesced, the bytes held by the free list grow by exactly
    the block (header and payload), the program break and the payload bytes
    are untouched, and the error state is [NO_ERROR]. *)
Theorem my_free_keeps_heap :
  forall (st : state) (l : list Z) (ptr : Z) (fuel : nat),
    heap_ok st l -> ptr <> NULL ->
    live_block st l (ptr - TOTAL_METADATA_SIZE) ->
    (l = [] -> next (hdr st (ptr - TOTAL_METADATA_SIZE)) = NULL) ->
    (length l + 1 < fuel)%nat ->
    exists st' l',
      my_free fuel ptr st = Some st' /\
      heap_ok st' l' /\ coalesced (blocks st' l') /\
      blocks st' l' =
        coalesce (blocks st (insert_by_address (ptr - TOTAL_METADATA_SIZE) l)) /\
      span (blocks st' l') =
        span (blocks st l) + TOTAL_METADATA_SIZE + size (hdr st (ptr - TOTAL_METADATA_SIZE)) /\
      mem st' = mem st /\ brk st' = brk st /\ heap_limit st' = heap_limit st /\
      my_malloc_errno st' = NO_ERROR.
Proof using HSZ_pos.
  clear SBRK_gt SBRK_le.
  intros st l ptr fuel Hok Hptr Hlive Hnext Hfuel.
  set (b := ptr - TOTAL_METADATA_SIZE) in *.
  pose proof Hok as (Hfl & Hlo & Hk1 & Hk2).
  pose proof (live_block_not_free _ _ _ Hlive) as Hnin.
  pose proof Hlive as (Hb1 & Hb2 & Hb3 & Hall).
  assert (Hb : wrap (ptr - TOTAL_METADATA_SIZE) = b) by (apply wrap_small; unfold b in *; lia).
  pose proof (my_free_spec st ptr l fuel) as Hfree. cbn zeta in Hfree. rewrite Hb in Hfree.
  destruct Hfree as (st1 & st' & _ & _ & _ & Hrun & Hfl' & Hblk' & _ & M1 & M2 & M3 & M4 & _); auto.
  { apply (heap_ok_ascending _ _ Hok). }
  { unfold NULL. lia. }
  destruct (live_block_insert st l b Hok Hlive) as (l1 & l2 & El & Hins & Hlo').
  rewrite Hins in *.
  exists st', (map fst (coalesce (blocks st (l1 ++ b :: l2)))).
  split; [exact Hrun|]. split.
  { split; [exact Hfl'|]. split; [|rewrite M2, M3; lia].
    rewrite Hblk', M2. apply coalesce_laid_out; auto; lia. }
  split; [rewrite Hblk'; apply coalesce_coalesced|].
  split; [exact Hblk'|]. split; [|auto].
  rewrite Hblk'. rewrite (span_coalesce _ 1 (brk st)); auto; try lia.
  subst l. rewrite !blocks_app.
  change (blocks st (b :: l2)) with ((b, size (hdr st b)) :: blocks st l2).
  rewrite !span_app. simpl. ring.
Qed.

(** Lines 235-243: a release of a live block whose [next] field is null in
    case the free list is empty (lines 68-70 do not write it) does not
    disturb another live block.  On a well-formed heap, a second live block
    that does not overlap the released one keeps its header and is still
    live, that is, inside the heap and overlapping no free block, after the
    release.  Without the premise on the [next] field the free list can
    receive a live block. *)
Theorem my_free_keeps_live :
  forall (st : state) (l : list Z) (ptr c : Z) (fuel : nat),
    heap_ok st l -> ptr <> NULL ->
    live_block st l (ptr - TOTAL_METADATA_SIZE) ->
    (l = [] -> next (hdr st (ptr - TOTAL_METADATA_SIZE)) = NULL) ->
    live_block st l c -> apart st c (ptr - TOTAL_METADATA_SIZE) ->
    (length l + 1 < fuel)%nat ->
    exists st' l',
      my_free fuel ptr st = Some st' /\ flist st' l' /\
      hdr st' c = hdr st c /\ live_block st' l' c.
Proof using HSZ_pos.
  clear SBRK_gt SBRK_le.
  intros st l ptr c fuel Hok Hptr Hlive Hnext Hc Hcb Hfuel.
  set (b := ptr - TOTAL_METADATA_SIZE) in *.
  pose proof Hok as (Hfl & Hlo & Hk1 & Hk2).
  pose proof (live_block_not_free _ _ _ Hlive) as Hnin.
  pose proof (live_block_not_free _ _ _ Hc) as Hcnin.
  pose proof Hlive as (Hb1 & Hb2 & Hb3 & Hall).
  pose proof Hc as (Hc1 & Hc2 & Hc3 & Hcall).
  assert (Hcneb : c <> b).
  { intros ->. unfold MyMalloc.apart in Hcb. lia. }
  assert (Hb : wrap (ptr - TOTAL_METADATA_SIZE) = b) by (apply wrap_small; unfold b in *; lia).
  pose proof (my_free_spec st ptr l fuel) as Hfree. cbn zeta in Hfree. rewrite Hb in Hfree.
  destruct Hfree as (st1 & st' & _ & _ & _ & Hrun & Hfl' & Hblk' & Hfoot & M1 & M2 & M3 & M4 & _); auto.
  { apply (heap_ok_ascending _ _ Hok). }
  { unfold NULL. lia. }
  destruct (live_block_insert st l b Hok Hlive) as (l1 & l2 & El & Hins & Hlo').
  rewrite Hins in *.
  assert (Hhc : hdr st' c = hdr st c) by (apply Hfoot; assumption).
  exists st', (map fst (coalesce (blocks st (l1 ++ b :: l2)))).
  split; [exact Hrun|]. split; [exact Hfl'|]. split; [exact Hhc|].
  unfold MyMalloc.live_block. rewrite Hhc, M2.
  split; [exact Hc1|]. split; [exact Hc2|]. split; [exact Hc3|].
  apply apart_blocks. rewrite Hhc, Hblk'.
  apply (coalesce_clear_of _ _ 1 (brk st)); auto; try lia.
  apply apart_blocks.
  apply Forall_app. subst l. apply Forall_app in Hcall. destruct Hcall as (A1 & A2).
  split; [exact A1|]. constructor; [exact Hcb | exact A2].
Qed.

(** ** Allocation on well-formed heaps *)

(** Lines 163-166 again, with the blocks that result. *)
Lemma register_chunk_blocks (st : state) (l : list Z) (fuel : nat) :
  heap_ok st l -> brk st + SBRK_SIZE <= heap_limit st ->
  (length l + 1 < fuel)%nat ->
  let nb := brk st in
  let st_c := set_next nb NULL
                (set_size nb (wrap (SBRK_SIZE - TOTAL_METADATA_SIZE))
                   (set_brk (brk st + SBRK_SIZE) st)) in
  let B := blocks st l ++ [(nb, SBRK_SIZE - TOTAL_METADATA_SIZE)] in
  exists st_d st_e,
    add_to_addr_list fuel nb st_c = Some st_d /\
    mergeAll fuel st_d = Some st_e /\
    laid_out 1 B (brk st + SBRK_SIZE) /\
    flist st_e (map fst (coalesce B)) /\
    blocks st_e (map fst (coalesce B)) = coalesce B /\
    (length (coalesce B) <= length l + 1)%nat /\
    (forall a, ~ In a l -> a <> nb -> hdr st_e a = hdr st a) /\
    mem st_e = mem st /\ my_malloc_errno st_e = my_malloc_errno st /\
    brk st_e = brk st + SBRK_SIZE /\ heap_limit st_e = heap_limit st.
Proof.
  intros Hok Hroom Hfuel nb st_c B.
  pose proof (heap_ok_brk st l Hok) as (Hbrk & Hall).
  pose proof (heap_ok_ascending st l Hok) as Hasc.
  pose proof Hok as (Hfl & Hlo & Hb1 & Hb2).
  assert (Hnb : ~ In nb l).
  { intros Hin. rewrite Forall_forall in Hall. specialize (Hall _ Hin). unfold nb in Hall. lia. }
  assert (Hflc : flist st_c l).
  { unfold flist, st_c. simpl. eapply lseg_frame; [|exact Hfl].
    intros a Ha. simpl.
    destruct (Z.eqb_spec a nb) as [->|_]; [contradiction | reflexivity]. }
  destruct (add_to_addr_list_spec st_c nb l fuel)
    as (st_d & Hadd & Hfld & Hszd & Hfootd & Hglobd); auto.
  { unfold nb, NULL. lia. }
  { intros _. unfold st_c. simpl. rewrite Z.eqb_refl. reflexivity. }
  { lia. }
  assert (Hins : insert_by_address nb l = l ++ [nb]).
  { rewrite <- (app_nil_r l) at 1.
    apply (insert_by_address_split nb l []); [|exact I].
    eapply Forall_impl; [|exact Hall]. simpl. unfold nb. intros a Ha. lia. }
  rewrite Hins in Hfld.
  assert (Hblkd : blocks st_d (l ++ [nb]) = B).
  { unfold B, blocks. rewrite map_app. simpl. f_equal.
    - apply map_ext_in. intros a Ha. rewrite Hszd. unfold st_c. simpl.
      destruct (Z.eqb_spec a nb) as [->|_]; [contradiction | reflexivity].
    - rewrite Hszd. unfold st_c. simpl. rewrite Z.eqb_refl. simpl.
      rewrite ?Z.eqb_refl. simpl. rewrite wrap_SBRK_payload. reflexivity. }
  destruct Hglobd as (D1 & D2 & D3 & D4). unfold st_c in D1, D2, D3, D4. simpl in D1, D2, D3, D4.
  assert (HloB : laid_out 1 B (brk st + SBRK_SIZE)).
  { unfold B. apply laid_out_app. exists (brk st). split; [exact Hlo|].
    simpl. unfold nb. lia. }
  assert (Hascd : ascending (l ++ [nb])).
  { apply laid_out_ascending in HloB. rewrite <- Hblkd in HloB.
    rewrite blocks_fst in HloB. exact HloB. }
  destruct (mergeAll_spec (length (l ++ [nb])) (l ++ [nb]) st_d fuel)
    as (st_e & Hrun & Hfle & Hblke & Hfoote & Hheade & Hglobe & _); auto.
  { rewrite length_app. simpl. lia. }
  destruct Hglobe as (E1 & E2 & E3 & E4).
  rewrite Hblkd in Hfle, Hblke.
  exists st_d, st_e.
  split; [exact Hadd|]. split; [exact Hrun|]. split; [exact HloB|].
  split; [exact Hfle|]. split; [exact Hblke|].
  split.
  { pose proof (coalesce_length B) as Hc. unfold B in Hc at 2.
    rewrite length_app in Hc. unfold blocks in Hc. rewrite length_map in Hc. simpl in Hc. exact Hc. }
  split.
  { intros a Hal Hanb. rewrite Hfoote.
    - rewrite Hfootd; auto. unfold st_c. simpl.
      destruct (Z.eqb_spec a nb) as [E|_]; [contradiction | reflexivity].
    - intros Hin. apply in_app_or in Hin. destruct Hin as [Hin|[Hin|[]]]; auto. }
  repeat split; congruence.
Qed.

Lemma live_block_frame (st st' : state) (l l' : list Z) (c : Z) :
  live_block st l c ->
  hdr st' c = hdr st c -> brk st <= brk st' ->
  Forall (clear_of (c, size (hdr st c))) (blocks st' l') ->
  live_block st' l' c.
Proof using Type.
  clear HSZ_pos SBRK_gt SBRK_le.
  intros (H1 & H2 & H3 & _) Hh Hb Hall.
  unfold MyMalloc.live_block. rewrite Hh.
  split; [exact H1|]. split; [exact H2|]. split; [lia|].
  apply apart_blocks. rewrite Hh. exact Hall.
Qed.

(** Lines 156-173 with the whole account: layout, coalescing, bytes, and the
    live blocks. *)
Lemma my_malloc_select_account (st : state) (l : list Z) (sz : Z) (fuel : nat) :
  heap_ok st l -> 0 < sz -> sz <= SBRK_SIZE - TOTAL_METADATA_SIZE ->
  (length l + 2 < fuel)%nat ->
  exists r st' l',
    my_malloc_select fuel sz st = Some r /\
    st' = match r with inl s => s | inr (_, s) => s end /\
    heap_ok st' l' /\ (length l' <= length l + 1)%nat /\
    (coalesced (blocks st l) -> coalesced (blocks st' l')) /\
    span (blocks st' l') = span (blocks st l) + (brk st' - brk st) /\
    brk st <= brk st' /\ mem st' = mem st /\
    (forall c, live_block st l c -> hdr st' c = hdr st c /\ live_block st' l' c) /\
    match r with
    | inl s => my_malloc_errno s = OUT_OF_MEMORY
    | inr (temp, s) =>
        In temp l' /\ sz <= size (hdr s temp) /\ my_malloc_errno s = my_malloc_errno st
    end.
Proof.
  intros Hok Hsz1 Hsz2 Hfuel.
  pose proof Hok as (Hfl & Hlo & Hb1 & Hb2).
  assert (Hsent : sz <= 0xffffffff) by lia.
  assert (Hkeep : forall c, live_block st l c -> hdr st c = hdr st c /\ live_block st l c)
    by (intros c Hc; auto).
  unfold MyMalloc.my_malloc_select.
  destruct (find_best_fit_in st sz l fuel Hfl ltac:(lia)) as (r1 & Hr1 & Hres1).
  rewrite Hr1. cbn [bind].
  destruct (Z.eqb_spec r1 NULL) as [E1|Hne1].
  - clear Hres1. unfold my_sbrk.
    destruct (Z.leb_spec (brk st + SBRK_SIZE) (heap_limit st)) as [Hroom|Hfull].
    + pose proof (heap_ok_brk st l Hok) as (Hbrk & _).
      destruct (Z.eqb_spec (brk st) (wrap (-1))) as [E|_].
      { rewrite wrap_minus_one in E. lia. }
      destruct (register_chunk_blocks st l fuel Hok Hroom ltac:(lia))
        as (st_d & st_e & Hadd & Hrun & HloB & Hfle & Hblke & Hlen & Hfoot & M1 & M2 & M3 & M4).
      cbn zeta in Hadd, HloB, Hfle, Hblke, Hlen.
      rewrite Hadd. cbn [bind]. rewrite Hrun. cbn [bind].
      set (B := blocks st l ++ [(brk st, SBRK_SIZE - TOTAL_METADATA_SIZE)]) in *.
      set (l_e := map fst (coalesce B)) in *.
      assert (Hoke : heap_ok st_e l_e).
      { split; [exact Hfle|]. split; [|rewrite M3, M4; lia].
        rewrite Hblke, M3. apply coalesce_laid_out; auto; lia. }
      assert (Hlene : (length l_e <= length l + 1)%nat).
      { unfold l_e. rewrite length_map. exact Hlen. }
      assert (Hcoe : coalesced (blocks st_e l_e)) by (rewrite Hblke; apply coalesce_coalesced).
      assert (Hspan : span (blocks st_e l_e) = span (blocks st l) + (brk st_e - brk st)).
      { rewrite Hblke. rewrite (span_coalesce _ 1 (brk st + SBRK_SIZE)); auto; try lia.
        unfold B. rewrite span_app. simpl. rewrite M3. ring. }
      assert (Hlive : forall c, live_block st l c -> hdr st_e c = hdr st c /\ live_block st_e l_e c).
      { intros c Hc. pose proof (live_block_not_free _ _ _ Hc) as Hcn.
        pose proof Hc as (C1 & C2 & C3 & Call).
        assert (Hh : hdr st_e c = hdr st c) by (apply Hfoot; [exact Hcn | lia]).
        split; [exact Hh|].
        apply (live_block_frame st st_e l l_e c Hc Hh); [lia|].
        rewrite Hblke. apply (coalesce_clear_of _ _ 1 (brk st + SBRK_SIZE)); auto; try lia.
        unfold B. apply Forall_app. split; [apply apart_blocks; exact Call|].
        constructor; [|constructor]. unfold MyMalloc.clear_of. simpl. lia. }
      destruct (find_best_fit_in st_e sz l_e fuel Hfle ltac:(lia)) as (r2 & Hr2 & Hres2).
      rewrite Hr2. cbn [bind].
      assert (Hoom : exists r st' l',
                 Some (inl (set_errno OUT_OF_MEMORY st_e) : state + Z * state) = Some r /\
                 st' = match r with inl s => s | inr (_, s) => s end /\
                 heap_ok st' l' /\ (length l' <= length l + 1)%nat /\
                 (coalesced (blocks st l) -> coalesced (blocks st' l')) /\
                 span (blocks st' l') = span (blocks st l) + (brk st' - brk st) /\
                 brk st <= brk st' /\ mem st' = mem st /\
                 (forall c, live_block st l c -> hdr st' c = hdr st c /\ live_block st' l' c) /\
                 match r with
                 | inl s => my_malloc_errno s = OUT_OF_MEMORY
                 | inr (temp, s) =>
                     In temp l' /\ sz <= size (hdr s temp) /\
                     my_malloc_errno s = my_malloc_errno st
                 end).
      { exists (inl (set_errno OUT_OF_MEMORY st_e)), (set_errno OUT_OF_MEMORY st_e), l_e.
        split; [reflexivity|]. split; [reflexivity|]. split; [exact Hoke|].
        split; [exact Hlene|]. split; [intros _; exact Hcoe|]. split; [exact Hspan|].
        split; [simpl; lia|]. split; [exact M1|]. split; [exact Hlive | reflexivity]. }
      destruct (Z.eqb_spec r2 NULL) as [E2|Hne2]; [exact Hoom|].
      destruct Hres2 as [E|(Hin2 & _)]; [contradiction|].
      destruct (Z.ltb_spec (size (hdr st_e r2)) sz) as [Hsmall|Hbig]; [exact Hoom|].
      cbn [orb].
      exists (inr (r2, st_e)), st_e, l_e.
      split; [reflexivity|]. split; [reflexivity|]. split; [exact Hoke|].
      split; [exact Hlene|]. split; [intros _; exact Hcoe|]. split; [exact Hspan|].
      split; [lia|]. split; [exact M1|]. split; [exact Hlive|].
      split; [exact Hin2|]. split; [exact Hbig | exact M2].
    + destruct (Z.eqb_spec (wrap (-1)) (wrap (-1))) as [_|E]; [|congruence].
      exists (inl (set_errno OUT_OF_MEMORY st)), (set_errno OUT_OF_MEMORY st), l.
      split; [reflexivity|]. split; [reflexivity|]. split; [exact Hok|].
      split; [lia|]. split; [intros Hc; exact Hc|].
      split; [change (span (blocks st l) = span (blocks st l) + (brk st - brk st)); lia|].
      split; [simpl; lia|]. split; [reflexivity|]. split; [exact Hkeep | reflexivity].
  - destruct Hres1 as [E|(Hin1 & Hsize1)]; [contradiction|].
    exists (inr (r1, st)), st, l.
    split; [reflexivity|]. split; [reflexivity|]. split; [exact Hok|].
    split; [lia|]. split; [intros Hc; exact Hc|]. split; [lia|].
    split; [lia|]. split; [reflexivity|]. split; [exact Hkeep|].
    split; [exact Hin1|]. split; [apply Hsize1; exact Hsent | reflexivity].
Qed.

Lemma heap_ok_around (st : state) (l1 l2 : list Z) (temp : Z) :
  heap_ok st (l1 ++ temp :: l2) ->
  (forall a, In a l1 -> a + TOTAL_METADATA_SIZE + size (hdr st a) <= temp) /\
  (forall a, In a l2 -> temp + TOTAL_METADATA_SIZE + size (hdr st temp) <= a) /\
  ~ In temp l1 /\ ~ In temp l2.
Proof using HSZ_pos.
  clear SBRK_gt SBRK_le.
  intros Hok. pose proof Hok as (_ & Hlo & _).
  pose proof (ascending_NoDup _ (heap_ok_ascending _ _ Hok)) as Hnd.
  apply NoDup_remove_2 in Hnd.
  rewrite blocks_app in Hlo. apply laid_out_app in Hlo. destruct Hlo as (mid & Hl1 & Hl2).
  change (blocks st (temp :: l2)) with ((temp, size (hdr st temp)) :: blocks st l2) in Hl2.
  simpl in Hl2. destruct Hl2 as (Hmid & Hs & Hl2).
  apply laid_out_bounds in Hl1. destruct Hl1 as (_ & Hl1).
  apply laid_out_bounds in Hl2. destruct Hl2 as (_ & Hl2).
  rewrite Forall_forall in Hl1, Hl2.
  split; [|split; [|split]].
  - intros a Ha. specialize (Hl1 (a, size (hdr st a))). simpl in Hl1.
    assert (In (a, size (hdr st a)) (blocks st l1)) by (apply in_map_iff; exists a; auto).
    specialize (Hl1 H). lia.
  - intros a Ha. specialize (Hl2 (a, size (hdr st a))). simpl in Hl2.
    assert (In (a, size (hdr st a)) (blocks st l2)) by (apply in_map_iff; exists a; auto).
    specialize (Hl2 H). lia.
  - intros Hin. apply Hnd, in_or_app. left. exact Hin.
  - intros Hin. apply Hnd, in_or_app. right. exact Hin.
Qed.

(** Lines 174-190 with the whole account. *)
Lemma my_malloc_serve_account (st : state) (l1 l2 : list Z) (sz temp : Z) (fuel : nat) :
  heap_ok st (l1 ++ temp :: l2) -> 0 < sz -> sz <= size (hdr st temp) ->
  (length l1 < fuel)%nat ->
  exists p st' l',
    my_malloc_serve fuel sz temp st = Some (p, st') /\ p <> NULL /\
    heap_ok st' l' /\ (length l' <= length (l1 ++ temp :: l2))%nat /\
    (coalesced (blocks st (l1 ++ temp :: l2)) -> coalesced (blocks st' l')) /\
    live_block st' l' (p - TOTAL_METADATA_SIZE) /\
    sz <= size (hdr st' (p - TOTAL_METADATA_SIZE)) /\
    span (blocks st' l') + TOTAL_METADATA_SIZE + size (hdr st' (p - TOTAL_METADATA_SIZE))
      = span (blocks st (l1 ++ temp :: l2)) /\
    brk st' = brk st /\ mem st' = mem st /\ my_malloc_errno st' = NO_ERROR /\
    (forall c, live_block st (l1 ++ temp :: l2) c ->
               hdr st' c = hdr st c /\ live_block st' l' c /\
               apart st' c (p - TOTAL_METADATA_SIZE)).
Proof using HSZ_pos.
  clear SBRK_gt SBRK_le.
  intros Hok Hsz Hfit Hfuel.
  set (l := l1 ++ temp :: l2) in *.
  assert (Hint : In temp l) by (apply in_or_app; right; left; reflexivity).
  pose proof (heap_ok_block st _ temp Hok Hint) as (Ht1 & Ht2 & Ht3 & Ht4).
  destruct (heap_ok_around st l1 l2 temp Hok) as (Hbefore & Hafter & Hn1 & Hn2).
  pose proof Hok as (Hfl & Hlo & Hk1 & Hk2).
  assert (HB : blocks st l = blocks st l1 ++ (temp, size (hdr st temp)) :: blocks st l2).
  { unfold l. rewrite blocks_app. reflexivity. }
  destruct (Z.le_gt_cases (sz + TOTAL_METADATA_SIZE + 1) (size (hdr st temp))) as [Hsplit|Hwhole].
  - (* split *)
    destruct (my_malloc_serve_split st l1 l2 sz temp fuel Hok Hsz Hsplit)
      as (st' & Hserve & Hhdr & Hhead & Hmem & Hbrk & Hlim & Herr & Hnin & Hlt & Hok').
    fold l in Hnin, Hok'.
    set (ret := temp + size (hdr st temp) - sz) in *.
    assert (Hp : ret + TOTAL_METADATA_SIZE - TOTAL_METADATA_SIZE = ret) by lia.
    assert (Hsret : size (hdr st' ret) = sz).
    { rewrite Hhdr. rewrite Z.eqb_refl. reflexivity. }
    assert (Hstemp : size (hdr st' temp) = size (hdr st temp) - sz - TOTAL_METADATA_SIZE).
    { rewrite Hhdr. destruct (Z.eqb_spec temp ret) as [E|_]; [lia|].
      rewrite Z.eqb_refl. reflexivity. }
    assert (Hother : forall a, a <> ret -> a <> temp -> hdr st' a = hdr st a).
    { intros a A1 A2. rewrite Hhdr.
      destruct (Z.eqb_spec a ret) as [E|_]; [contradiction|].
      destruct (Z.eqb_spec a temp) as [E|_]; [contradiction | reflexivity]. }
    assert (HB' : blocks st' l =
                  blocks st l1 ++ (temp, size (hdr st temp) - sz - TOTAL_METADATA_SIZE)
                    :: blocks st l2).
    { unfold l. rewrite blocks_app.
      change (blocks st' (temp :: l2)) with ((temp, size (hdr st' temp)) :: blocks st' l2).
      rewrite Hstemp. f_equal; [|f_equal]; apply blocks_same; intros a Ha; rewrite Hother; auto.
      - intros ->. apply Hnin, in_or_app. left. exact Ha.
      - intros ->. contradiction.
      - intros ->. apply Hnin, in_or_app. right. right. exact Ha.
      - intros ->. contradiction. }
    exists (ret + TOTAL_METADATA_SIZE), st', l. rewrite Hp.
    split; [exact Hserve|]. split; [unfold NULL, ret; lia|]. split; [exact Hok'|].
    split; [lia|]. split.
    { intros Hco. pose proof Hok' as (_ & Hlo' & _).
      apply (coalesced_spaced _ 1 (brk st')); auto; try lia.
      apply (coalesced_spaced _ 1 (brk st)) in Hco; auto; try lia.
      rewrite HB'. rewrite HB in Hco. eapply spaced_shrink; [exact Hco|].
      destruct l2 as [|d l2]; [exact I|]. simpl.
      specialize (Hafter d ltac:(left; reflexivity)). lia. }
    split.
    { unfold MyMalloc.live_block. rewrite Hsret, Hbrk.
      split; [unfold ret; lia|]. split; [lia|]. split; [unfold ret; lia|].
      rewrite Forall_forall. intros a Ha. unfold MyMalloc.apart. rewrite Hsret.
      apply in_app_or in Ha. destruct Ha as [Ha|[<-|Ha]].
      - left. rewrite Hother.
        + specialize (Hbefore _ Ha). unfold ret. lia.
        + intros ->. apply Hnin, in_or_app. left. exact Ha.
        + intros ->. contradiction.
      - left. rewrite Hstemp. unfold ret. lia.
      - right. specialize (Hafter _ Ha). unfold ret. lia. }
    split; [rewrite Hsret; lia|].
    split.
    { rewrite Hsret, HB', HB. rewrite !span_app. simpl. ring. }
    split; [exact Hbrk|]. split; [exact Hmem|]. split; [exact Herr|].
    intros c Hc. pose proof (live_block_not_free _ _ _ Hc) as Hcn.
    pose proof Hc as (C1 & C2 & C3 & Call).
    pose proof Call as Call'. rewrite Forall_forall in Call'.
    pose proof (Call' _ Hint) as Hct. unfold MyMalloc.apart in Hct.
    assert (Hcr : c <> ret) by (unfold ret; lia).
    assert (Hctemp : c <> temp) by (intros ->; contradiction).
    assert (Hh : hdr st' c = hdr st c) by (apply Hother; assumption).
    split; [exact Hh|]. split.
    + apply (live_block_frame st st' l l c Hc Hh); [lia|].
      rewrite HB'. apply apart_blocks in Call. rewrite HB in Call.
      apply Forall_app in Call. destruct Call as (A1 & A2).
      apply Forall_cons_iff in A2. destruct A2 as (A3 & A4).
      apply Forall_app. split; [exact A1|]. constructor; [|exact A4].
      unfold MyMalloc.clear_of in *. simpl in *. lia.
    + unfold MyMalloc.apart. rewrite Hsret, Hh. unfold ret. lia.
  - (* whole *)
    destruct (my_malloc_serve_whole st l1 l2 sz temp fuel Hok Hsz Hfit ltac:(lia) Hfuel)
      as (st' & Hserve & Hsz' & Hfoot & Hmem & Hbrk & Hlim & Herr & Hok').
    assert (Hp : temp + TOTAL_METADATA_SIZE - TOTAL_METADATA_SIZE = temp) by lia.
    assert (HB' : blocks st' (l1 ++ l2) = blocks st l1 ++ blocks st l2).
    { rewrite blocks_app. f_equal; apply blocks_same; intros a _; apply Hsz'. }
    exists (temp + TOTAL_METADATA_SIZE), st', (l1 ++ l2). rewrite Hp.
    split; [exact Hserve|]. split; [unfold NULL; lia|]. split; [exact Hok'|].
    split; [unfold l; rewrite !length_app; simpl; lia|]. split.
    { intros Hco. pose proof Hok' as (_ & Hlo' & _).
      apply (coalesced_spaced _ 1 (brk st')); auto; try lia.
      apply (coalesced_spaced _ 1 (brk st)) in Hco; auto; try lia.
      rewrite HB'. rewrite HB in Hco, Hlo. eapply spaced_remove; eauto. }
    split.
    { unfold MyMalloc.live_block. rewrite Hsz', Hbrk.
      split; [lia|]. split; [lia|]. split; [lia|].
      rewrite Forall_forall. intros a Ha. unfold MyMalloc.apart. rewrite !Hsz'.
      apply in_app_or in Ha. destruct Ha as [Ha|Ha].
      - left. apply Hbefore. exact Ha.
      - right. apply Hafter. exact Ha. }
    split; [rewrite Hsz'; exact Hfit|].
    split.
    { rewrite Hsz', HB', HB. rewrite !span_app. simpl. ring. }
    split; [exact Hbrk|]. split; [exact Hmem|]. split; [exact Herr|].
    intros c Hc. pose proof (live_block_not_free _ _ _ Hc) as Hcn.
    pose proof Hc as (C1 & C2 & C3 & Call).
    pose proof Call as Call'. rewrite Forall_forall in Call'.
    pose proof (Call' _ Hint) as Hct. unfold MyMalloc.apart in Hct.
    assert (Hh : hdr st' c = hdr st c).
    { apply Hfoot. intros Hin. apply Hcn, in_or_app. left. exact Hin. }
    split; [exact Hh|]. split.
    + apply (live_block_frame st st' l (l1 ++ l2) c Hc Hh); [lia|].
      rewrite HB'. apply apart_blocks in Call. rewrite HB in Call.
      apply Forall_app in Call. destruct Call as (A1 & A2).
      apply Forall_cons_iff in A2. destruct A2 as (A3 & A4).
      apply Forall_app. split; assumption.
    + unfold MyMalloc.apart. rewrite !Hsz'. exact Hct.
Qed.

(** [my_malloc] on a well-formed heap, with the whole account. *)
Lemma my_malloc_account (st : state) (l : list Z) (sz : Z) (fuel : nat) :
  heap_ok st l -> 0 <= sz < modulus -> (length l + 2 < fuel)%nat ->
  exists p st' l',
    my_malloc fuel sz st = Some (p, st') /\
    heap_ok st' l' /\ (length l' <= length l + 1)%nat /\
    (coalesced (blocks st l) -> coalesced (blocks st' l')) /\
    brk st <= brk st' /\ mem st' = mem st /\
    (forall c, live_block st l c ->
               hdr st' c = hdr st c /\ live_block st' l' c /\
               (p <> NULL -> apart st' c (p - TOTAL_METADATA_SIZE))) /\
    (p = NULL -> span (blocks st' l') = span (blocks st l) + (brk st' - brk st)) /\
    (p <> NULL ->
     my_malloc_errno st' = NO_ERROR /\
     live_block st' l' (p - TOTAL_METADATA_SIZE) /\
     sz <= size (hdr st' (p - TOTAL_METADATA_SIZE)) /\
     span (blocks st' l') + TOTAL_METADATA_SIZE + size (hdr st' (p - TOTAL_METADATA_SIZE))
       = span (blocks st l) + (brk st' - brk st)).
Proof.
  intros Hok Hsz Hfuel.
  assert (Hsame : forall e, exists p st' l',
             Some (NULL, set_errno e st) = Some (p, st') /\
             heap_ok st' l' /\ (length l' <= length l + 1)%nat /\
             (coalesced (blocks st l) -> coalesced (blocks st' l')) /\
             brk st <= brk st' /\ mem st' = mem st /\
             (forall c, live_block st l c ->
                        hdr st' c = hdr st c /\ live_block st' l' c /\
                        (p <> NULL -> apart st' c (p - TOTAL_METADATA_SIZE))) /\
             (p = NULL -> span (blocks st' l') = span (blocks st l) + (brk st' - brk st)) /\
             (p <> NULL ->
              my_malloc_errno st' = NO_ERROR /\
              live_block st' l' (p - TOTAL_METADATA_SIZE) /\
              sz <= size (hdr st' (p - TOTAL_METADATA_SIZE)) /\
              span (blocks st' l') + TOTAL_METADATA_SIZE
                + size (hdr st' (p - TOTAL_METADATA_SIZE))
              = span (blocks st l) + (brk st' - brk st))).
  { intros e. exists NULL, (set_errno e st), l.
    split; [reflexivity|]. split; [exact Hok|]. split; [lia|].
    split; [intros Hc; exact Hc|]. split; [simpl; lia|]. split; [reflexivity|].
    split; [intros c Hc; split; [reflexivity|]; split; [exact Hc | intros E; contradiction]|].
    split; [intros _; change (span (blocks st l) = span (blocks st l) + (brk st - brk st)); lia|].
    intros E. contradiction. }
  unfold MyMalloc.my_malloc. rewrite wrap_SBRK_payload.
  destruct (Z.gtb_spec sz (SBRK_SIZE - TOTAL_METADATA_SIZE)) as [Hbig|Hfit]; [apply Hsame|].
  destruct (Z.eqb_spec sz 0) as [->|Hnz]; [apply Hsame|].
  destruct (my_malloc_select_account (set_errno NO_ERROR st) l sz fuel
              (heap_ok_set_errno _ _ _ Hok) ltac:(lia) Hfit Hfuel)
    as (r & st1 & l1 & Hr & Est & Hok1 & Hlen1 & Hco1 & Hspan1 & Hbrk1 & Hmem1 & Hlive1 & Hres).
  fold my_malloc_select. rewrite Hr. cbn [bind].
  change (blocks (set_errno NO_ERROR st) l) with (blocks st l) in *.
  change (brk (set_errno NO_ERROR st)) with (brk st) in *.
  change (mem (set_errno NO_ERROR st)) with (mem st) in *.
  destruct r as [s|(temp, s)]; subst st1.
  - exists NULL, s, l1.
    split; [reflexivity|]. split; [exact Hok1|]. split; [exact Hlen1|].
    split; [exact Hco1|]. split; [exact Hbrk1|]. split; [exact Hmem1|].
    split.
    { intros c Hc. destruct (Hlive1 c Hc) as (A1 & A2).
      split; [exact A1|]. split; [exact A2 | intros E; contradiction]. }
    split; [intros _; exact Hspan1 | intros E; contradiction].
  - destruct Hres as (Hin & Hsize & _).
    destruct (in_split _ _ Hin) as (la & lb & El). subst l1.
    assert (Hfa : (length la < fuel)%nat).
    { rewrite length_app in Hlen1. simpl in Hlen1. lia. }
    destruct (my_malloc_serve_account s la lb sz temp fuel Hok1 ltac:(lia) Hsize Hfa)
      as (p & st' & l' & Hserve & Hp & Hok' & Hlen' & Hco' & Hlb & Hcap & Hspan' & Hbrk'
          & Hmem' & Herr' & Hlive').
    fold my_malloc_serve. rewrite Hserve.
    exists p, st', l'.
    split; [reflexivity|]. split; [exact Hok'|]. split; [lia|].
    split; [intros Hc; apply Hco', Hco1, Hc|]. split; [lia|]. split; [congruence|].
    split.
    { intros c Hc. destruct (Hlive1 c Hc) as (A1 & A2).
      destruct (Hlive' c A2) as (B1 & B2 & B3).
      split; [rewrite B1; exact A1|]. split; [exact B2 | intros _; exact B3]. }
    split; [intros E; contradiction|].
    intros _. split; [exact Herr'|]. split; [exact Hlb|]. split; [exact Hcap|].
    rewrite Hbrk'. lia.
Qed.

(** [my_free] on a well-formed heap, with the whole account. *)
Lemma my_free_account (st : state) (l : list Z) (ptr : Z) (fuel : nat) :
  heap_ok st l -> ptr <> NULL ->
  live_block st l (ptr - TOTAL_METADATA_SIZE) ->
  (l = [] -> next (hdr st (ptr - TOTAL_METADATA_SIZE)) = NULL) ->
  (length l + 1 < fuel)%nat ->
  exists st' l',
    my_free fuel ptr st = Some st' /\
    heap_ok st' l' /\
    span (blocks st' l') =
      span (blocks st l) + TOTAL_METADATA_SIZE + size (hdr st (ptr - TOTAL_METADATA_SIZE)) /\
    mem st' = mem st /\ brk st' = brk st /\ my_malloc_errno st' = NO_ERROR /\
    (forall c, live_block st l c -> apart st c (ptr - TOTAL_METADATA_SIZE) ->
               hdr st' c = hdr st c /\ live_block st' l' c).
Proof using HSZ_pos.
  clear SBRK_gt SBRK_le.
  intros Hok Hptr Hlive Hnext Hfuel.
  set (b := ptr - TOTAL_METADATA_SIZE) in *.
  pose proof Hok as (Hfl & Hlo & Hk1 & Hk2).
  pose proof (live_block_not_free _ _ _ Hlive) as Hnin.
  pose proof Hlive as (Hb1 & Hb2 & Hb3 & Hall).
  assert (Hb : wrap (ptr - TOTAL_METADATA_SIZE) = b) by (apply wrap_small; unfold b in *; lia).
  pose proof (my_free_spec st ptr l fuel) as Hfree. cbn zeta in Hfree. rewrite Hb in Hfree.
  destruct Hfree as (st1 & st' & _ & _ & _ & Hrun & Hfl' & Hblk' & Hfoot & M1 & M2 & M3 & M4 & _); auto.
  { apply (heap_ok_ascending _ _ Hok). }
  { unfold NULL. lia. }
  destruct (live_block_insert st l b Hok Hlive) as (l1 & l2 & El & Hins & Hlo').
  rewrite Hins in *.
  exists st', (map fst (coalesce (blocks st (l1 ++ b :: l2)))).
  split; [exact Hrun|]. split.
  { split; [exact Hfl'|]. split; [|rewrite M2, M3; lia].
    rewrite Hblk', M2. apply coalesce_laid_out; auto; lia. }
  split.
  { rewrite Hblk'. rewrite (span_coalesce _ 1 (brk st)); auto; try lia.
    subst l. rewrite !blocks_app.
    change (blocks st (b :: l2)) with ((b, size (hdr st b)) :: blocks st l2).
    rewrite !span_app. simpl. ring. }
  split; [exact M1|]. split; [exact M2|]. split; [exact M4|].
  intros c Hc Hcb.
  pose proof (live_block_not_free _ _ _ Hc) as Hcnin.
  pose proof Hc as (Hc1 & Hc2 & Hc3 & Hcall).
  assert (Hcneb : c <> b).
  { intros ->. unfold MyMalloc.apart in Hcb. lia. }
  assert (Hhc : hdr st' c = hdr st c) by (apply Hfoot; assumption).
  split; [exact Hhc|].
  apply (live_block_frame st st' l _ c Hc Hhc); [lia|].
  rewrite Hblk'.
  apply (coalesce_clear_of _ _ 1 (brk st)); auto; try lia.
  apply apart_blocks.
  apply Forall_app. subst l. apply Forall_app in Hcall. destruct Hcall as (A1 & A2).
  split; [exact A1|]. constructor; [exact Hcb | exact A2].
Qed.

(** Lines 147-191: [my_malloc] keeps the heap well formed.  On a well-formed
    heap every request returns; the free list is again well formed
    (null-terminated, strictly ascending, blocks inside the heap and not
    overlapping) and has no adjacent blocks when it had none; payload bytes
    are not written and the program break never moves down.  A non-null
    result is the payload of a block of at least the requested size that
    lies inside the heap and overlaps no free block, and the bytes of the
    free list plus that block (header and payload) are the old bytes of the
    free list plus the growth of the heap; a null result leaves the bytes of
    the free list equal to the old ones plus the growth of the heap. *)
Theorem my_malloc_keeps_heap :
  forall (st : state) (l : list Z) (sz : Z) (fuel : nat),
    heap_ok st l -> 0 <= sz < modulus -> (length l + 2 < fuel)%nat ->
    exists p st' l',
      my_malloc fuel sz st = Some (p, st') /\
      heap_ok st' l' /\
      (coalesced (blocks st l) -> coalesced (blocks st' l')) /\
      mem st' = mem st /\ brk st <= brk st' /\
      (p = NULL -> span (blocks st' l') = span (blocks st l) + (brk st' - brk st)) /\
      (p <> NULL ->
       live_block st' l' (p - TOTAL_METADATA_SIZE) /\
       sz <= size (hdr st' (p - TOTAL_METADATA_SIZE)) /\
       span (blocks st' l') + TOTAL_METADATA_SIZE + size (hdr st' (p - TOTAL_METADATA_SIZE))
         = span (blocks st l) + (brk st' - brk st)).
Proof.
  intros st l sz fuel Hok Hsz Hfuel.
  destruct (my_malloc_account st l sz fuel Hok Hsz Hfuel)
    as (p & st' & l' & Hrun & Hok' & _ & Hco & Hbrk & Hmem & _ & Hnull & Hsome).
  exists p, st', l'.
  split; [exact Hrun|]. split; [exact Hok'|]. split; [exact Hco|].
  split; [exact Hmem|]. split; [exact Hbrk|]. split; [exact Hnull|].
  intros Hp. destruct (Hsome Hp) as (_ & Hlive & Hcap & Hspan).
  split; [exact Hlive|]. split; [exact Hcap | exact Hspan].
Qed.

(** Lines 147-191: [my_malloc] never touches a live block.  A block that is
    inside the heap and overlaps no free block keeps its header over any
    request, still overlaps no free block afterwards, and does not overlap
    the block that the request returns. *)
Theorem my_malloc_keeps_live :
  forall (st : state) (l : list Z) (sz c : Z) (fuel : nat),
    heap_ok st l -> 0 <= sz < modulus -> live_block st l c ->
    (length l + 2 < fuel)%nat ->
    exists p st' l',
      my_malloc fuel sz st = Some (p, st') /\ flist st' l' /\
      hdr st' c = hdr st c /\ live_block st' l' c /\
      (p <> NULL ->
       apart st' c (p - TOTAL_METADATA_SIZE) /\
       (p + sz <= c + TOTAL_METADATA_SIZE \/
        c + TOTAL_METADATA_SIZE + size (hdr st c) <= p)).
Proof.
  intros st l sz c fuel Hok Hsz Hc Hfuel.
  destruct (my_malloc_account st l sz fuel Hok Hsz Hfuel)
    as (p & st' & l' & Hrun & Hok' & _ & _ & _ & _ & Hlive & _ & Hsome).
  destruct (Hlive c Hc) as (Hh & Hc' & Hap).
  exists p, st', l'.
  split; [exact Hrun|]. split; [apply Hok'|]. split; [exact Hh|]. split; [exact Hc'|].
  intros Hp. specialize (Hap Hp). split; [exact Hap|].
  destruct (Hsome Hp) as (_ & _ & Hcap & _).
  unfold MyMalloc.apart in Hap. rewrite Hh in Hap. lia.
Qed.

Lemma wrap_neg (z : Z) : - modulus <= z < 0 -> wrap z = z + modulus.
Proof using Type.
  clear HSZ_pos SBRK_gt SBRK_le.
  intros Hz. unfold wrap. symmetry. apply (Z.mod_unique z modulus (-1)); lia.
Qed.

(** A byte of the payload of a live block [c] is outside the first [n]
    bytes from [p], when [p] is the payload of another live block that does
    not overlap [c] and holds at least [n] bytes. *)
Lemma outside_payload (st : state) (l : list Z) (c p n i : Z) :
  live_block st l c -> live_block st l (p - TOTAL_METADATA_SIZE) ->
  apart st c (p - TOTAL_METADATA_SIZE) -> brk st < modulus ->
  n <= size (hdr st (p - TOTAL_METADATA_SIZE)) ->
  0 <= i < size (hdr st c) ->
  (wrap (c + TOTAL_METADATA_SIZE + i - p) <? n) = false.
Proof using HSZ_pos.
  clear SBRK_gt SBRK_le.
  intros (C1 & C2 & C3 & _) (P1 & P2 & P3 & _) Hap Hbrk Hn Hi.
  unfold MyMalloc.apart in Hap.
  apply Z.ltb_ge.
  destruct (Z.lt_ge_cases (c + TOTAL_METADATA_SIZE + i - p) 0) as [Hneg|Hpos].
  - rewrite wrap_neg by lia. lia.
  - rewrite wrap_small by lia. lia.
Qed.

(** [my_realloc] on a live block, with the whole account. *)
Lemma my_realloc_account (st : state) (l : list Z) (ptr sz : Z) (fuel : nat) :
  heap_ok st l -> ptr <> NULL ->
  live_block st l (ptr - TOTAL_METADATA_SIZE) ->
  next (hdr st (ptr - TOTAL_METADATA_SIZE)) = NULL ->
  0 < sz < modulus ->
  Z.min (size (hdr st (ptr - TOTAL_METADATA_SIZE))) sz < 2 ^ 31 ->
  (length l + 2 < fuel)%nat ->
  exists p st' l',
    my_realloc fuel ptr sz st = Some (p, st') /\
    heap_ok st' l' /\
    (forall c, live_block st l c -> apart st c (ptr - TOTAL_METADATA_SIZE) ->
               hdr st' c = hdr st c /\ live_block st' l' c /\
               (forall i, 0 <= i < size (hdr st c) ->
                          mem st' (c + TOTAL_METADATA_SIZE + i)
                          = mem st (c + TOTAL_METADATA_SIZE + i))) /\
    (p <> NULL ->
     my_malloc_errno st' = NO_ERROR /\
     live_block st' l' (p - TOTAL_METADATA_SIZE) /\
     sz <= size (hdr st' (p - TOTAL_METADATA_SIZE)) /\
     (forall i, 0 <= i < Z.min (size (hdr st (ptr - TOTAL_METADATA_SIZE))) sz ->
                mem st' (p + i) = mem st (ptr + i)) /\
     span (blocks st' l') + size (hdr st' (p - TOTAL_METADATA_SIZE))
       = span (blocks st l) + (brk st' - brk st)
         + size (hdr st (ptr - TOTAL_METADATA_SIZE))).
Proof.
  intros Hok Hptr Hlive Hnext Hsz Hmin Hfuel.
  set (b := ptr - TOTAL_METADATA_SIZE) in *.
  pose proof Hlive as (Hb1 & Hb2 & Hb3 & _).
  pose proof Hok as (_ & _ & Hk1 & Hk2).
  unfold MyMalloc.my_realloc.
  destruct (Z.eqb_spec ptr NULL) as [E|_]; [contradiction|].
  destruct (Z.eqb_spec sz 0) as [E|_]; [lia|].
  destruct (my_malloc_account (set_errno NO_ERROR st) l sz fuel
              (heap_ok_set_errno _ _ _ Hok) ltac:(lia) Hfuel)
    as (p & s1 & l1 & Hrun & Hok1 & Hlen1 & _ & Hbrk1 & Hmem1 & Hlive1 & _ & Hsome).
  fold my_malloc. rewrite Hrun. cbn [bind].
  change (brk (set_errno NO_ERROR st)) with (brk st) in Hbrk1, Hsome.
  change (mem (set_errno NO_ERROR st)) with (mem st) in Hmem1.
  change (blocks (set_errno NO_ERROR st) l) with (blocks st l) in Hsome.
  assert (Hlive1' : forall c, live_block st l c ->
                              hdr s1 c = hdr st c /\ live_block s1 l1 c /\
                              (p <> NULL -> apart s1 c (p - TOTAL_METADATA_SIZE))).
  { intros c Hc. exact (Hlive1 c Hc). }
  clear Hlive1.
  destruct (Z.eqb_spec p NULL) as [E|Hp].
  { exists NULL, s1, l1. split; [reflexivity|]. split; [exact Hok1|].
    split; [|intros F; contradiction].
    intros c Hc _. destruct (Hlive1' c Hc) as (A1 & A2 & _).
    split; [exact A1|]. split; [exact A2|]. intros i _. rewrite Hmem1. reflexivity. }
  destruct (Hsome Hp) as (_ & Hnew & Hcap & Hspan1).
  destruct (Hlive1' b Hlive) as (Hh & Hold & Hap). specialize (Hap Hp).
  assert (Hb : wrap (ptr - TOTAL_METADATA_SIZE) = b) by (apply wrap_small; unfold b in *; lia).
  rewrite Hb, Hh.
  set (m := Z.min (size (hdr st b)) sz) in *.
  assert (Hm0 : 0 <= m <= sz) by (unfold m; lia).
  assert (Hn : wrap (to_int (if size (hdr st b) >? sz then sz else size (hdr st b))) = m).
  { assert (E : (if size (hdr st b) >? sz then sz else size (hdr st b)) = m).
    { unfold m. destruct (Z.gtb_spec (size (hdr st b)) sz); lia. }
    rewrite E.
    unfold to_int. rewrite (Z.mod_small m (2 ^ 32)) by lia.
    destruct (Z.ltb_spec m (2 ^ 31)) as [_|F]; [|lia].
    apply wrap_small. unfold modulus. lia. }
  rewrite Hn.
  set (s2 := memcpy p ptr m s1).
  assert (Hok2 : heap_ok s2 l1) by exact Hok1.
  assert (Hold2 : live_block s2 l1 b) by exact Hold.
  assert (Hnew2 : live_block s2 l1 (p - TOTAL_METADATA_SIZE)) by exact Hnew.
  assert (Hap2 : apart s2 (p - TOTAL_METADATA_SIZE) b).
  { unfold MyMalloc.apart in *. change (hdr s2) with (hdr s1). tauto. }
  destruct (my_free_account s2 l1 ptr fuel Hok2 Hptr Hold2) as
    (st' & l' & Hfree & Hok' & Hspan' & Hmem' & Hbrk' & Herr' & Hlive'); [|lia|].
  { intros _. change (hdr s2) with (hdr s1). fold b. rewrite Hh. exact Hnext. }
  fold my_free. rewrite Hfree. cbn [bind].
  exists p, st', l'. split; [reflexivity|]. split; [exact Hok'|].
  fold b in Hlive'.
  split.
  { intros c Hc Hcb. destruct (Hlive1' c Hc) as (A1 & A2 & A3). specialize (A3 Hp).
    assert (Hcb2 : apart s2 c b).
    { unfold MyMalloc.apart in *. change (hdr s2) with (hdr s1). rewrite A1, Hh. exact Hcb. }
    destruct (Hlive' c A2 Hcb2) as (B1 & B2).
    change (hdr s2 c) with (hdr s1 c) in B1.
    split; [rewrite B1; exact A1|]. split; [exact B2|].
    intros i Hi. rewrite Hmem'. unfold s2, memcpy. cbn [mem set_mem].
    rewrite (outside_payload s1 l1 c p m i A2 Hnew A3); [apply (f_equal (fun f => f _) Hmem1) | | |].
    - destruct Hok1 as (_ & _ & K1 & K2). lia.
    - lia.
    - rewrite A1. exact Hi. }
  intros _.
  destruct (Hlive' _ Hnew2 Hap2) as (Hh' & Hnew').
  change (hdr s2) with (hdr s1) in Hh', Hspan'.
  change (blocks s2 l1) with (blocks s1 l1) in Hspan'.
  change (brk s2) with (brk s1) in Hbrk'.
  fold b in Hspan'. rewrite Hh in Hspan'.
  split; [exact Herr'|]. split; [exact Hnew'|].
  rewrite Hh'. split; [exact Hcap|]. split.
  - intros i Hi. rewrite Hmem'. unfold s2, memcpy. cbn [mem set_mem].
    replace (p + i - p) with i by ring.
    rewrite (wrap_small i) by (unfold m in *; lia).
    destruct (Z.ltb_spec i m) as [_|F]; [|lia].
    rewrite wrap_small by (unfold m in *; unfold b in *; lia).
    rewrite Hmem1. reflexivity.
  - rewrite Hbrk'. lia.
Qed.

(** Lines 196-216: a successful [my_realloc] moves the contents.  For a live
    block and a non-zero size, [my_realloc] returns and leaves the heap well
    formed; when the result is not null it is the payload of a live block of
    at least the requested size, its first min(old size, new size) bytes are
    the bytes of the old payload, the bytes of the old block are accounted
    to the free list (the bytes of the free list and the new block together
    are the old free bytes, the old block and the growth of the heap) and
    the error state is [NO_ERROR].  The byte count passes through an [int] (line 211), so the
    smaller of the two sizes must be below 2^31; the old block's link must
    be null because a release into an empty list does not write it. *)
Theorem my_realloc_moves_contents :
  forall (st : state) (l : list Z) (ptr sz : Z) (fuel : nat),
    heap_ok st l -> ptr <> NULL ->
    live_block st l (ptr - TOTAL_METADATA_SIZE) ->
    next (hdr st (ptr - TOTAL_METADATA_SIZE)) = NULL ->
    0 < sz < modulus ->
    Z.min (size (hdr st (ptr - TOTAL_METADATA_SIZE))) sz < 2 ^ 31 ->
    (length l + 2 < fuel)%nat ->
    exists p st' l',
      my_realloc fuel ptr sz st = Some (p, st') /\ heap_ok st' l' /\
      (p <> NULL ->
       my_malloc_errno st' = NO_ERROR /\
       live_block st' l' (p - TOTAL_METADATA_SIZE) /\
       sz <= size (hdr st' (p - TOTAL_METADATA_SIZE)) /\
       (forall i, 0 <= i < Z.min (size (hdr st (ptr - TOTAL_METADATA_SIZE))) sz ->
                  mem st' (p + i) = mem st (ptr + i)) /\
       span (blocks st' l') + size (hdr st' (p - TOTAL_METADATA_SIZE))
         = span (blocks st l) + (brk st' - brk st)
           + size (hdr st (ptr - TOTAL_METADATA_SIZE))).
Proof.
  intros st l ptr sz fuel Hok Hptr Hlive Hnext Hsz Hmin Hfuel.
  destruct (my_realloc_account st l ptr sz fuel Hok Hptr Hlive Hnext Hsz Hmin Hfuel)
    as (p & st' & l' & Hrun & Hok' & _ & Hsome).
  exists p, st', l'. split; [exact Hrun|]. split; [exact Hok' | exact Hsome].
Qed.

(** Lines 196-216: [my_realloc] of a live block to a non-zero size does not
    disturb another live block, under two premises: the [next] field of the
    reallocated block is null (its release may meet an empty free list,
    where lines 68-70 do not write the field), and the smaller of the old
    and the new size is below 2^31 (the byte count of the copy passes
    through an [int], line 211).  On a well-formed heap, a live block that
    does not overlap the reallocated one then keeps its header and every
    byte of its payload, whether the call succeeds or not, and is still
    live afterwards. *)
Theorem my_realloc_keeps_live :
  forall (st : state) (l : list Z) (ptr sz c : Z) (fuel : nat),
    heap_ok st l -> ptr <> NULL ->
    live_block st l (ptr - TOTAL_METADATA_SIZE) ->
    next (hdr st (ptr - TOTAL_METADATA_SIZE)) = NULL ->
    0 < sz < modulus ->
    Z.min (size (hdr st (ptr - TOTAL_METADATA_SIZE))) sz < 2 ^ 31 ->
    live_block st l c -> apart st c (ptr - TOTAL_METADATA_SIZE) ->
    (length l + 2 < fuel)%nat ->
    exists p st' l',
      my_realloc fuel ptr sz st = Some (p, st') /\ flist st' l' /\
      hdr st' c = hdr st c /\ live_block st' l' c /\
      (forall i, 0 <= i < size (hdr st c) ->
                 mem st' (c + TOTAL_METADATA_SIZE + i) = mem st (c + TOTAL_METADATA_SIZE + i)).
Proof.
  intros st l ptr sz c fuel Hok Hptr Hlive Hnext Hsz Hmin Hc Hcb Hfuel.
  destruct (my_realloc_account st l ptr sz fuel Hok Hptr Hlive Hnext Hsz Hmin Hfuel)
    as (p & st' & l' & Hrun & Hok' & Hkeep & _).
  destruct (Hkeep c Hc Hcb) as (A1 & A2 & A3).
  exists p, st', l'. split; [exact Hrun|]. split; [apply Hok'|].
  split; [exact A1|]. split; [exact A2 | exact A3].
Qed.

(** Lines 221-230: the zero fill of [my_calloc] stays inside the block it
    got.  Any other live block keeps its header and every byte of its
    payload and is still live; a non-null result is the payload of a live
    block that holds at least the (wrapped) product of bytes that are
    cleared. *)
Theorem my_calloc_keeps_live :
  forall (st : state) (l : list Z) (nmemb sz c : Z) (fuel : nat),
    heap_ok st l -> live_block st l c -> (length l + 2 < fuel)%nat ->
    exists p st' l',
      my_calloc fuel nmemb sz st = Some (p, st') /\ heap_ok st' l' /\
      hdr st' c = hdr st c /\ live_block st' l' c /\
      (forall i, 0 <= i < size (hdr st c) ->
                 mem st' (c + TOTAL_METADATA_SIZE + i) = mem st (c + TOTAL_METADATA_SIZE + i)) /\
      (p <> NULL ->
       live_block st' l' (p - TOTAL_METADATA_SIZE) /\
       wrap (nmemb * sz) <= size (hdr st' (p - TOTAL_METADATA_SIZE))).
Proof.
  intros st l nmemb sz c fuel Hok Hc Hfuel.
  unfold MyMalloc.my_calloc.
  destruct (my_malloc_account (set_errno NO_ERROR st) l (wrap (nmemb * sz)) fuel
              (heap_ok_set_errno _ _ _ Hok) (wrap_range _) Hfuel)
    as (p & s1 & l1 & Hrun & Hok1 & _ & _ & _ & Hmem1 & Hlive1 & _ & Hsome).
  fold my_malloc. rewrite Hrun. cbn [bind].
  change (mem (set_errno NO_ERROR st)) with (mem st) in Hmem1.
  destruct (Hlive1 c Hc) as (A1 & A2 & A3).
  change (hdr (set_errno NO_ERROR st) c) with (hdr st c) in A1.
  destruct (Z.eqb_spec p NULL) as [E|Hp].
  { exists NULL, s1, l1. split; [reflexivity|]. split; [exact Hok1|].
    split; [exact A1|]. split; [exact A2|].
    split; [intros i _; rewrite Hmem1; reflexivity | intros F; contradiction]. }
  destruct (Hsome Hp) as (_ & Hnew & Hcap & _). specialize (A3 Hp).
  set (s2 := memset p 0 (wrap (nmemb * sz)) s1).
  exists p, s2, l1. split; [reflexivity|]. split; [exact Hok1|].
  split; [exact A1|]. split; [exact A2|]. split.
  - intros i Hi. unfold s2, memset. cbn [mem set_mem].
    rewrite (outside_payload s1 l1 c p (wrap (nmemb * sz)) i A2 Hnew A3);
      [apply (f_equal (fun f => f _) Hmem1) | | exact Hcap | rewrite A1; exact Hi].
    destruct Hok1 as (_ & _ & K1 & K2). lia.
  - intros _. split; [exact Hnew | exact Hcap].
Qed.

(** Lines 116-139 and 147-191: [my_malloc] reuses free memory, best fit
    first.  When some free block holds a request of at least one and at most
    [SBRK_SIZE - TOTAL_METADATA_SIZE] bytes (and no free block has reached
    the [0xffffffff] sentinel of the search), the call succeeds
    without moving the program break, and the payload it returns lies inside
    a block of the old free list whose size is the least one that holds the
    request. *)
Theorem my_malloc_reuses_best_fit :
  forall (st : state) (l : list Z) (sz a : Z) (fuel : nat),
    heap_ok st l -> 0 < sz -> sz <= SBRK_SIZE - TOTAL_METADATA_SIZE ->
    Forall (fun x => size (hdr st x) < 0xffffffff) l ->
    In a l -> sz <= size (hdr st a) ->
    (length l + 2 < fuel)%nat ->
    exists p st' temp,
      my_malloc fuel sz st = Some (p, st') /\ p <> NULL /\
      brk st' = brk st /\ my_malloc_errno st' = NO_ERROR /\
      In temp l /\ sz <= size (hdr st temp) /\
      (forall x, In x l -> sz <= size (hdr st x) -> size (hdr st temp) <= size (hdr st x)) /\
      temp + TOTAL_METADATA_SIZE <= p /\
      p + sz <= temp + TOTAL_METADATA_SIZE + size (hdr st temp).
Proof.
  intros st l sz a fuel Hok Hsz Hfit Hbound Ha Hsa Hfuel.
  pose proof Hok as (Hfl & _).
  unfold MyMalloc.my_malloc. rewrite wrap_SBRK_payload.
  destruct (Z.gtb_spec sz (SBRK_SIZE - TOTAL_METADATA_SIZE)) as [Hbig|_]; [lia|].
  destruct (Z.eqb_spec sz 0) as [E|_]; [lia|].
  set (st0 := set_errno NO_ERROR st).
  assert (Hok0 : heap_ok st0 l) by exact Hok.
  destruct (find_best_fit_below_sentinel st0 sz l fuel Hfl Hbound ltac:(lia))
    as (r & Hr & Hnull & Hsome).
  assert (Hne : r <> NULL).
  { intros E. apply Hnull in E. rewrite Forall_forall in E.
    specialize (E a Ha). change (hdr st0) with (hdr st) in E. lia. }
  destruct (Hsome Hne) as (l1 & l2 & El & Hsr & Hleast & _).
  change (hdr st0) with (hdr st) in Hsr, Hleast.
  unfold MyMalloc.my_malloc_select. fold find_best_fit. rewrite Hr. cbn [bind].
  destruct (Z.eqb_spec r NULL) as [E|_]; [contradiction|].
  cbn [bind]. subst l.
  assert (Hin : In r (l1 ++ r :: l2)) by (apply in_or_app; right; left; reflexivity).
  pose proof (heap_ok_block _ _ _ Hok0 Hin) as (Ht1 & Ht2 & Ht3 & Ht4).
  change (hdr st0) with (hdr st) in Ht2, Ht3.
  rewrite length_app in Hfuel. simpl in Hfuel.
  destruct (Z.le_gt_cases (sz + TOTAL_METADATA_SIZE + 1) (size (hdr st r))) as [Hsplit|Hwhole].
  - destruct (my_malloc_serve_split st0 l1 l2 sz r fuel Hok0 Hsz Hsplit)
      as (st' & Hrun & _ & _ & _ & Hbrk & _ & Herr & _).
    fold my_malloc_serve. rewrite Hrun.
    change (hdr st0) with (hdr st).
    exists (r + size (hdr st r) - sz + TOTAL_METADATA_SIZE), st', r.
    split; [reflexivity|]. split; [unfold NULL; lia|]. split; [exact Hbrk|].
    split; [exact Herr|]. split; [exact Hin|]. split; [exact Hsr|].
    split; [exact Hleast|]. lia.
  - destruct (my_malloc_serve_whole st0 l1 l2 sz r fuel Hok0 Hsz Hsr ltac:(exact Hwhole) ltac:(lia))
      as (st' & Hrun & _ & _ & _ & Hbrk & _ & Herr & _).
    fold my_malloc_serve. rewrite Hrun.
    exists (r + TOTAL_METADATA_SIZE), st', r.
    split; [reflexivity|]. split; [unfold NULL; lia|]. split; [exact Hbrk|].
    split; [exact Herr|]. split; [exact Hin|]. split; [exact Hsr|].
    split; [exact Hleast|]. lia.
Qed.

(** Coalescing loses no byte of a block: every block of the list lies
    inside a block of the coalesced list. *)
Lemma coalesce_from_covers (rest : list (Z * Z)) :
  forall p lo hi x,
    0 <= lo -> hi < modulus -> laid_out lo (p :: rest) hi -> In x (p :: rest) ->
    exists y, In y (coalesce_from p rest) /\ fst y <= fst x /\
              fst x + TOTAL_METADATA_SIZE + snd x <= fst y + TOTAL_METADATA_SIZE + snd y.
Proof using HSZ_pos.
  clear SBRK_gt SBRK_le.
  induction rest as [|c rest IH]; intros p lo hi x Hlo Hhi Hl Hx.
  - destruct Hx as [<-|[]]. exists p. split; [left; reflexivity | lia].
  - cbn [MyMalloc.coalesce_from].
    pose proof Hl as Hl0. simpl in Hl. destruct Hl as (H1 & H2 & H3 & H4 & H5).
    pose proof (laid_out_bounds _ _ _ H5) as (Hb & _).
    rewrite adjacent_exact by lia.
    destruct (Z.eqb_spec (fst p + TOTAL_METADATA_SIZE + snd p) (fst c)) as [E|_].
    + assert (Hab : laid_out lo (absorb p c :: rest) hi).
      { unfold MyMalloc.absorb. simpl. rewrite wrap_small by lia.
        split; [lia|]. split; [lia|].
        replace (fst p + TOTAL_METADATA_SIZE + (snd p + snd c + TOTAL_METADATA_SIZE))
          with (fst c + TOTAL_METADATA_SIZE + snd c) by lia.
        exact H5. }
      assert (Hcov : exists z, In z (absorb p c :: rest) /\ fst z <= fst x /\
                fst x + TOTAL_METADATA_SIZE + snd x <= fst z + TOTAL_METADATA_SIZE + snd z).
      { destruct Hx as [<-|[<-|Hx]].
        - exists (absorb p c). split; [left; reflexivity|].
          unfold MyMalloc.absorb. simpl. rewrite wrap_small by lia. lia.
        - exists (absorb p c). split; [left; reflexivity|].
          unfold MyMalloc.absorb. simpl. rewrite wrap_small by lia. lia.
        - exists x. split; [right; exact Hx | lia]. }
      destruct Hcov as (z & Hz & Z1 & Z2).
      destruct (IH (absorb p c) lo hi z Hlo Hhi Hab Hz) as (y & Hy & Y1 & Y2).
      exists y. split; [exact Hy | lia].
    + destruct Hx as [<-|Hx].
      * exists p. split; [left; reflexivity | lia].
      * destruct (IH c (fst p + TOTAL_METADATA_SIZE + snd p) hi x ltac:(lia) Hhi
                    ltac:(simpl; auto) Hx) as (y & Hy & Y1 & Y2).
        exists y. split; [right; exact Hy | lia].
Qed.

(** Lines 156-173 when no free block holds the request and the heap can
    grow: one chunk is obtained and a block of the extended list is
    selected. *)
Lemma my_malloc_select_grows (st : state) (l : list Z) (sz : Z) (fuel : nat) :
  heap_ok st l -> 0 < sz -> sz <= SBRK_SIZE - TOTAL_METADATA_SIZE ->
  Forall (fun x => size (hdr st x) < sz) l ->
  brk st + SBRK_SIZE <= heap_limit st -> heap_limit st <= 0xffffffff ->
  (length l + 2 < fuel)%nat ->
  exists temp st1 l1,
    my_malloc_select fuel sz st = Some (inr (temp, st1)) /\
    heap_ok st1 l1 /\ In temp l1 /\ sz <= size (hdr st1 temp) /\
    brk st1 = brk st + SBRK_SIZE /\ (length l1 <= length l + 1)%nat /\
    my_malloc_errno st1 = my_malloc_errno st /\ mem st1 = mem st.
Proof.
  intros Hok Hsz Hfit Hnone Hroom Hlim Hfuel.
  pose proof Hok as (Hfl & Hlo & Hb1 & Hb2).
  unfold MyMalloc.my_malloc_select.
  destruct (find_best_fit_in st sz l fuel Hfl ltac:(lia)) as (r1 & Hr1 & Hres1).
  rewrite Hr1. cbn [bind].
  assert (E1 : r1 = NULL).
  { destruct Hres1 as [E|(Hin & Hs)]; [exact E|].
    rewrite Forall_forall in Hnone. specialize (Hnone _ Hin). lia. }
  subst r1. change (NULL =? NULL) with true. cbv iota.
  unfold my_sbrk.
  destruct (Z.leb_spec (brk st + SBRK_SIZE) (heap_limit st)) as [_|F]; [|lia].
  pose proof (heap_ok_brk st l Hok) as (Hbrk & _).
  destruct (Z.eqb_spec (brk st) (wrap (-1))) as [E|_].
  { rewrite wrap_minus_one in E. lia. }
  destruct (register_chunk_blocks st l fuel Hok Hroom ltac:(lia))
    as (st_d & st_e & Hadd & Hrun & HloB & Hfle & Hblke & Hlen & _ & M1 & M2 & M3 & M4).
  cbn zeta in Hadd. rewrite Hadd. cbn [bind]. rewrite Hrun. cbn [bind].
  set (B := blocks st l ++ [(brk st, SBRK_SIZE - TOTAL_METADATA_SIZE)]) in *.
  set (l_e := map fst (coalesce B)) in *.
  assert (HloC : laid_out 1 (coalesce B) (brk st + SBRK_SIZE)).
  { apply coalesce_laid_out; auto; lia. }
  assert (Hoke : heap_ok st_e l_e).
  { split; [exact Hfle|]. split; [rewrite Hblke, M3; exact HloC | lia]. }
  assert (Hbound : Forall (fun x => size (hdr st_e x) < 0xffffffff) l_e).
  { rewrite Forall_forall. intros x Hx.
    pose proof (heap_ok_block _ _ _ Hoke Hx). lia. }
  destruct (find_best_fit_below_sentinel st_e sz l_e fuel Hfle Hbound)
    as (r2 & Hr2 & Hnull & Hsome).
  { unfold l_e. rewrite length_map. lia. }
  rewrite Hr2. cbn [bind].
  assert (Hne : r2 <> NULL).
  { intros E. apply Hnull in E. rewrite Forall_forall in E.
    assert (Hx : In (brk st, SBRK_SIZE - TOTAL_METADATA_SIZE) B).
    { unfold B. apply in_or_app. right. left. reflexivity. }
    destruct B as [|b0 B0] eqn:EB; [destruct Hx|].
    destruct (coalesce_from_covers B0 b0 1 (brk st + SBRK_SIZE) _ ltac:(lia) ltac:(lia) HloB Hx)
      as (y & Hy & Y1 & Y2).
    simpl in Y1, Y2.
    change (coalesce_from b0 B0) with (coalesce (b0 :: B0)) in Hy.
    rewrite <- Hblke in Hy. apply in_map_iff in Hy. destruct Hy as (a & Ea & Hal).
    subst y. simpl in Y1, Y2. specialize (E _ Hal). simpl in E. lia. }
  destruct (Hsome Hne) as (la & lb & El & Hs2 & _).
  destruct (Z.eqb_spec r2 NULL) as [E|_]; [contradiction|].
  destruct (Z.ltb_spec (size (hdr st_e r2)) sz) as [F|_]; [lia|].
  cbn [orb].
  exists r2, st_e, l_e.
  split; [reflexivity|]. split; [exact Hoke|].
  split; [rewrite El; apply in_or_app; right; left; reflexivity|].
  split; [exact Hs2|]. split; [exact M3|].
  split; [unfold l_e; rewrite length_map; exact Hlen|].
  split; [exact M2 | exact M1].
Qed.

(** Lines 147-191: an allocation succeeds whenever the heap can grow.  When
    no free block holds the request and the bounded heap has room for one
    more chunk, [my_malloc] extends the heap by exactly [SBRK_SIZE], returns
    a non-null payload of the requested size that ends at or below the new
    program break, and sets [NO_ERROR].  The heap limit is kept below the
    [0xffffffff] sentinel of the search, so that every block can be found. *)
Theorem my_malloc_grows_when_needed :
  forall (st : state) (l : list Z) (sz : Z) (fuel : nat),
    heap_ok st l -> 0 < sz -> sz <= SBRK_SIZE - TOTAL_METADATA_SIZE ->
    Forall (fun x => size (hdr st x) < sz) l ->
    brk st + SBRK_SIZE <= heap_limit st -> heap_limit st <= 0xffffffff ->
    (length l + 2 < fuel)%nat ->
    exists p st',
      my_malloc fuel sz st = Some (p, st') /\ p <> NULL /\
      brk st' = brk st + SBRK_SIZE /\ my_malloc_errno st' = NO_ERROR /\
      p + sz <= brk st' /\
      sz <= size (hdr st' (p - TOTAL_METADATA_SIZE)) /\ mem st' = mem st.
Proof.
  intros st l sz fuel Hok Hsz Hfit Hnone Hroom Hlim Hfuel.
  unfold MyMalloc.my_malloc. rewrite wrap_SBRK_payload.
  destruct (Z.gtb_spec sz (SBRK_SIZE - TOTAL_METADATA_SIZE)) as [Hbig|_]; [lia|].
  destruct (Z.eqb_spec sz 0) as [E|_]; [lia|].
  destruct (my_malloc_select_grows (set_errno NO_ERROR st) l sz fuel
              (heap_ok_set_errno _ _ _ Hok) Hsz Hfit Hnone Hroom Hlim Hfuel)
    as (temp & st1 & l1 & Hsel & Hok1 & Hin & Hs & Hbrk1 & Hlen1 & _ & Hmem1).
  fold my_malloc_select. rewrite Hsel. cbn [bind].
  destruct (in_split _ _ Hin) as (la & lb & El). subst l1.
  assert (Hfa : (length la < fuel)%nat).
  { rewrite length_app in Hlen1. simpl in Hlen1. lia. }
  destruct (my_malloc_serve_account st1 la lb sz temp fuel Hok1 Hsz Hs Hfa)
    as (p & st' & l' & Hserve & Hp & Hok' & _ & _ & Hlive & Hcap & Hspan & Hbrk' & Hmem' & Herr' & _).
  fold my_malloc_serve. rewrite Hserve.
  exists p, st'. split; [reflexivity|]. split; [exact Hp|].
  change (brk (set_errno NO_ERROR st)) with (brk st) in Hbrk1.
  change (mem (set_errno NO_ERROR st)) with (mem st) in Hmem1.
  split; [congruence|]. split; [exact Herr'|].
  destruct Hlive as (L1 & L2 & L3 & _).
  split; [lia|]. split; [exact Hcap | congruence].
Qed.

(** Lines 147-191: a clean out-of-memory failure.  When no free block holds
    the request and the heap cannot grow by one more chunk, [my_malloc]
    returns NULL and changes nothing but the error state, which becomes
    [OUT_OF_MEMORY]. *)
Theorem my_malloc_out_of_memory :
  forall (st : state) (l : list Z) (sz : Z) (fuel : nat),
    flist st l -> 0 < sz -> sz <= SBRK_SIZE - TOTAL_METADATA_SIZE ->
    Forall (fun x => size (hdr st x) < sz) l ->
    heap_limit st < brk st + SBRK_SIZE ->
    (length l < fuel)%nat ->
    my_malloc fuel sz st = Some (NULL, set_errno OUT_OF_MEMORY st).
Proof.
  intros st l sz fuel Hfl Hsz Hfit Hnone Hfull Hfuel.
  unfold MyMalloc.my_malloc. rewrite wrap_SBRK_payload.
  destruct (Z.gtb_spec sz (SBRK_SIZE - TOTAL_METADATA_SIZE)) as [Hbig|_]; [lia|].
  destruct (Z.eqb_spec sz 0) as [E|_]; [lia|].
  unfold MyMalloc.my_malloc_select.
  destruct (find_best_fit_in (set_errno NO_ERROR st) sz l fuel Hfl Hfuel) as (r1 & Hr1 & Hres1).
  fold find_best_fit. rewrite Hr1. cbn [bind].
  assert (E1 : r1 = NULL).
  { destruct Hres1 as [E|(Hin & Hs)]; [exact E|].
    rewrite Forall_forall in Hnone. specialize (Hnone _ Hin).
    change (hdr (set_errno NO_ERROR st)) with (hdr st) in Hs. lia. }
  subst r1. change (NULL =? NULL) with true. cbv iota.
  unfold my_sbrk. cbn [brk heap_limit set_errno].
  destruct (Z.leb_spec (brk st + SBRK_SIZE) (heap_limit st)) as [F|_]; [lia|].
  rewrite Z.eqb_refl. reflexivity.
Qed.

(** Lines 116-139: an exact fit wins, whatever the sizes on the list.  When
    some free block has exactly the requested size, [find_best_fit] returns
    the first such block in list order (line 123), also when the request or
    other blocks have reached the [0xffffffff] sentinel. *)
Theorem find_best_fit_exact_first :
  forall (st : state) (l : list Z) (sz a : Z) (fuel : nat),
    flist st l -> In a l -> size (hdr st a) = sz -> (length l < fuel)%nat ->
    exists r l1 l2,
      find_best_fit fuel sz st = Some r /\
      l = l1 ++ r :: l2 /\ r <> NULL /\ size (hdr st r) = sz /\
      Forall (fun x => size (hdr st x) <> sz) l1.
Proof using Type.
  clear HSZ_pos SBRK_gt SBRK_le.
  intros st l sz a fuel Hfl Ha Hsa Hfuel.
  pose proof (lseg_not_null _ _ _ _ Hfl) as Hnn. rewrite Forall_forall in Hnn.
  destruct (find_best_fit_spec st sz l fuel Hfl Hfuel) as (r & Hr & Hspec).
  destruct Hspec as [(l1 & l2 & El & Hsz & Hfirst)|(Hnone & _)].
  - exists r, l1, l2.
    assert (Hin : In r l) by (subst l; apply in_or_app; right; left; reflexivity).
    split; [exact Hr|]. split; [exact El|]. split; [apply Hnn; exact Hin|].
    split; [exact Hsz | exact Hfirst].
  - rewrite Forall_forall in Hnone. exfalso. apply (Hnone _ Ha). exact Hsa.
Qed.

End Properties.

(** * The allocator with 16-byte headers and 2048-byte chunks *)

(** ** C1: the partition invariant *)

(** C1 (evaluation at the failing trace).  Starting from an empty heap, the
    calls of [stale_link_trace] are all legal and all return.  Afterwards the
    pointer 8208 is live, yet its block 8192 is on the free list (reached
    through the [next] field that the first block kept from its earlier stay
    on the list, line 69-70 leaving it as it was); the partition invariant
    fails; and two more allocations hand out 8208 a second time. *)
Theorem stale_link_breaks_partition :
  after_stale_link <> None /\
  live_of after_stale_link = [8208; 6160] /\
  flist (state_of after_stale_link) [4096; 8192] /\
  ~ partition_invariant 16 4096 (state_of after_stale_link) (live_of after_stale_link) /\
  option_map snd
    (run 16 2048 20 [Call_malloc 2032; Call_malloc 2032]
       (state_of after_stale_link, live_of after_stale_link))
  = Some [8208; 4112; 8208; 6160].
Proof.
  assert (Hfl : flist (state_of after_stale_link) [4096; 8192]).
  { vm_compute. repeat split; discriminate. }
  split; [vm_compute; discriminate|].
  split; [vm_compute; reflexivity|].
  split; [exact Hfl|].
  split; [|vm_compute; reflexivity].
  intros (l & segs & Hfl' & Hperm & Ht & _).
  assert (l = [4096; 8192]) by (eapply lseg_functional; [exact Hfl' | exact Hfl]).
  subst l.
  apply tiles_span in Ht. apply (span_Permutation 16) in Hperm.
  rewrite Hperm in Ht. vm_compute in Ht. discriminate Ht.
Qed.

(** The invariant does hold before the defect shows: on the empty heap, and
    after a first allocation. *)
Lemma partition_invariant_initially :
  partition_invariant 16 4096 heap0 [] /\
  partition_invariant 16 4096 (state_of after_one_malloc) (live_of after_one_malloc).
Proof.
  split.
  - exists [], []. repeat split; constructor.
  - exists [4096], [(4096, 1916); (6028, 100)].
    split; [vm_compute; repeat split; discriminate|].
    split; [vm_compute; apply Permutation_refl|].
    split; [vm_compute; repeat split; discriminate | reflexivity].
Qed.

(** ** C4: the sentinel of [find_best_fit] *)

(** C4 (evaluation at the failing inputs).  With a single free block of
    [2 ^ 32] bytes and a request of 1 byte, [find_best_fit] returns NULL
    although the block is large enough, and [my_malloc(1)] on that
    well-formed heap extends the heap, merges the chunk into the block and
    fails with [OUT_OF_MEMORY]; with a single free block of [0xffffffff]
    bytes and a request of [2 ^ 32] bytes, [find_best_fit] returns that block
    although it is too small.  In both cases [bestSize] never leaves its
    initial value [0xffffffff]. *)
Theorem find_best_fit_sentinel :
  (heap_ok 16 huge_block [4096] /\ 1 <= size (hdr huge_block 4096) /\
   find_best_fit 5 1 huge_block = Some NULL /\
   option_map fst (my_malloc 16 2048 5 1 huge_block) = Some NULL /\
   option_map (fun r => my_malloc_errno (snd r)) (my_malloc 16 2048 5 1 huge_block)
   = Some OUT_OF_MEMORY) /\
  (flist sentinel_block [4096] /\ size (hdr sentinel_block 4096) < 2 ^ 32 /\
   find_best_fit 5 (2 ^ 32) sentinel_block = Some 4096).
Proof.
  vm_compute. repeat split; discriminate.
Qed.

(** ** Worked examples *)

(** Best-fit determinism (specification, section 8): with free blocks of
    10, 20, 20 and 30 bytes and a request of 15, the first 20-byte block is
    returned whole, since the surplus of 5 is below a header plus one. *)
Example best_fit_determinism :
  heap_ok 16 four_blocks [4096; 4200; 4300; 4400] /\
  blocks four_blocks [4096; 4200; 4300; 4400] = [(4096, 10); (4200, 20); (4300, 20); (4400, 30)] /\
  find_best_fit 10 15 four_blocks = Some 4200 /\
  option_map fst (my_malloc 16 2048 10 15 four_blocks) = Some (4200 + 16) /\
  (forall st', option_map snd (my_malloc 16 2048 10 15 four_blocks) = Some st' ->
               flist st' [4096; 4300; 4400] /\ size (hdr st' 4200) = 20 /\
               my_malloc_errno st' = NO_ERROR).
Proof.
  split; [vm_compute; repeat split; discriminate|].
  split; [reflexivity|]. split; [reflexivity|]. split; [reflexivity|].
  intros st' E. vm_compute in E. inversion E; subst st'. clear E.
  vm_compute. repeat split; discriminate.
Qed.

(** Three adjacent chunks: the first pass merges the first two and then calls
    [merge] on the unlinked second chunk and the third, which changes no
    list entry; the second pass merges the third into the first. *)
Example mergeAll_three_chunks :
  flist three_adjacent_chunks [4096; 6144; 8192] /\
  option_map (fun st => walk 5 (hdr st) (address_list st)) (mergeAll 16 5 three_adjacent_chunks)
  = Some (Some [4096]) /\
  option_map (fun st => size (hdr st 4096)) (mergeAll 16 5 three_adjacent_chunks)
  = Some (2032 + 2032 + 2032 + 16 + 16) /\
  merge_pass 16 true (4096, 2032) [(6144, 2032); (8192, 2032)]
  = [(4096, 4080); (8192, 2032)].
Proof.
  vm_compute. repeat split; discriminate.
Qed.

(** The product of [my_calloc] wraps: [2 ^ 32] elements of [2 ^ 32] bytes
    are a request of 0 bytes, answered with NULL and [NO_ERROR]. *)
Example my_calloc_wraps :
  wrap (2 ^ 32 * 2 ^ 32) = 0 /\
  option_map fst (my_calloc 16 2048 5 (2 ^ 32) (2 ^ 32) heap0) = Some NULL /\
  option_map (fun r => my_malloc_errno (snd r)) (my_calloc 16 2048 5 (2 ^ 32) (2 ^ 32) heap0)
  = Some NO_ERROR.
Proof.
  vm_compute. repeat split.
Qed.

(** A resize that cannot obtain memory: the only chunk is allocated and the
    heap cannot grow. *)
Example my_realloc_out_of_memory :
  heap_ok 16 (state_of full_heap) [] /\ live_of full_heap = [4112] /\
  option_map fst (my_realloc 16 2048 5 4112 100 (state_of full_heap)) = Some NULL /\
  option_map (fun r => my_malloc_errno (snd r))
    (my_realloc 16 2048 5 4112 100 (state_of full_heap)) = Some OUT_OF_MEMORY /\
  option_map (fun r => hdr (snd r) 4096)
    (my_realloc 16 2048 5 4112 100 (state_of full_heap)) = Some (mk_metadata 0 2032).
Proof.
  vm_compute. repeat split; discriminate.
Qed.

(** ** Failing inputs and counterexamples *)

(** C2: a release into an empty free list does not keep the list ordered.
    The region obtained from [my_sbrk] is not zero-initialised; here the
    bytes at 6028 hold the value 4096 where a [next] field will lie.
    [my_malloc(100)] splits the block at 6028 off the first chunk and
    returns 6044, [my_malloc(1916)] hands out the remainder, the block at
    4096, as 4112, and the free list is empty, hence strictly ascending.
    The release of 6044 goes through lines 68-70 of [add_to_addr_list],
    which make the block the head and return without writing
    [block->next], where lines 80 and 83 set it to [curr]: the free list
    becomes [6028; 4096].  It is not ascending, and its second entry is the
    block of the live pointer 4112.  Every header that the calls read lies
    inside the heap. *)
Theorem my_free_into_empty_list :
  after_two_mallocs <> None /\
  flist (state_of after_two_mallocs) [] /\ ascending [] /\
  6044 <> NULL /\ In 6044 (live_of after_two_mallocs) /\
  In 4112 (live_of after_two_mallocs) /\
  next (hdr (state_of after_two_mallocs) (6044 - 16)) = 4096 /\
  my_free 16 20 6044 (state_of after_two_mallocs) = Some (state_of after_stale_free) /\
  address_list (state_of after_stale_free) = 6044 - 16 /\
  hdr (state_of after_stale_free) (6044 - 16) = hdr (state_of after_two_mallocs) (6044 - 16) /\
  flist (state_of after_stale_free) [6028; 4096] /\
  ~ ascending [6028; 4096] /\
  Forall (fun a => 4096 <= a /\ a + 16 <= brk (state_of after_stale_free)) [6028; 4096].
Proof.
  split; [vm_compute; discriminate|].
  split; [vm_compute; reflexivity|].
  split; [constructor|].
  split; [discriminate|].
  split; [vm_compute; auto|].
  split; [vm_compute; auto|].
  split; [vm_compute; reflexivity|].
  split; [vm_compute; reflexivity|].
  split; [vm_compute; reflexivity|].
  split; [vm_compute; reflexivity|].
  split; [vm_compute; repeat split; discriminate|].
  split.
  - intros Hasc. inversion Hasc as [|? ? _ Hall]; subst.
    inversion Hall as [|? ? Hlt _]; subst. vm_compute in Hlt. discriminate Hlt.
  - repeat (apply Forall_cons; [vm_compute; split; discriminate|]). apply Forall_nil.
Qed.

(** C7, as stated, fails.  The empty heap has no free block and no free
    byte; after [my_malloc(100)] and the release of the pointer it returned,
    the free list holds one block of 2032 bytes: the chunk obtained from
    [my_sbrk] stays with the allocator. *)
Lemma roundtrip_keeps_chunk :
  flist heap0 [] /\ free_bytes heap0 [] = 0 /\
  after_first_roundtrip <> None /\
  flist (state_of after_first_roundtrip) [4096] /\
  free_bytes (state_of after_first_roundtrip) [4096] = 2032 /\
  length [4096] <> length (@nil Z).
Proof.
  split; [reflexivity|]. split; [reflexivity|].
  split; [vm_compute; discriminate|].
  split; [vm_compute; repeat split; discriminate|].
  split; [vm_compute; reflexivity | discriminate].
Qed.

(** ** The theorems at concrete heaps *)

Ltac concrete := vm_compute; repeat split; try reflexivity; try discriminate.

(** A request of 3000 bytes on the empty heap. *)
Lemma my_malloc_boundary_witness :
  exists st',
    my_malloc 16 2048 0 3000 heap0 = Some (NULL, st') /\
    my_malloc_errno st' = (if 3000 =? 0 then NO_ERROR else SINGLE_REQUEST_TOO_LARGE) /\
    hdr st' = hdr heap0 /\ mem st' = mem heap0 /\
    address_list st' = address_list heap0 /\
    brk st' = brk heap0 /\ heap_limit st' = heap_limit heap0 /\
    (forall l, flist heap0 l -> flist st' l).
Proof.
  apply (my_malloc_boundary 16 2048); [lia | lia | concrete | right; lia].
Defined.

(** Two adjacent chunks are coalesced. *)
Lemma mergeAll_coalesces_witness :
  (exists st' l',
      mergeAll 16 5 two_adjacent_chunks = Some st' /\
      flist st' l' /\ ascending l' /\ incl l' [4096; 6144] /\
      blocks st' l' = coalesce 16 (blocks two_adjacent_chunks [4096; 6144]) /\
      (forall l1 a b l2,
          l' = l1 ++ a :: b :: l2 ->
          wrap (a + 16 + size (hdr st' a)) <> b) /\
      (Forall (fun a => 0 <= a < modulus) [4096; 6144] ->
       forall l1 a b l2,
         l' = l1 ++ a :: b :: l2 ->
         a + 16 + size (hdr st' a) <> b)) /\
  (forall l1 left right l2,
      [4096; 6144] = l1 ++ left :: right :: l2 ->
      let st1 := merge 16 left right two_adjacent_chunks in
      flist st1 (l1 ++ left :: l2) /\
      size (hdr st1 left) =
        wrap (size (hdr two_adjacent_chunks left) + size (hdr two_adjacent_chunks right) + 16) /\
      (0 <= size (hdr two_adjacent_chunks left) + size (hdr two_adjacent_chunks right) + 16
       < modulus ->
       size (hdr st1 left) =
         size (hdr two_adjacent_chunks left) + size (hdr two_adjacent_chunks right) + 16) /\
      (forall a, a <> left -> hdr st1 a = hdr two_adjacent_chunks a)).
Proof.
  apply (mergeAll_coalesces 16 two_adjacent_chunks [4096; 6144] 5).
  - concrete.
  - repeat constructor.
  - simpl. lia.
Defined.

(** A first request of 100 bytes on the empty heap. *)
Lemma my_malloc_outcome_witness :
  exists p st',
    my_malloc 16 2048 5 100 heap0 = Some (p, st') /\
    (p <> NULL ->
     my_malloc_errno st' = NO_ERROR /\ 100 <= size (hdr st' (wrap (p - 16)))) /\
    (p = NULL ->
     (100 = 0 /\ my_malloc_errno st' = NO_ERROR) \/
     my_malloc_errno st' = SINGLE_REQUEST_TOO_LARGE \/
     my_malloc_errno st' = OUT_OF_MEMORY).
Proof.
  apply (my_malloc_outcome 16 2048) with (l := []); [lia | lia | concrete | | | ].
  - concrete.
  - concrete.
  - simpl. lia.
Defined.

(** A request of 100 bytes served from a free block of 1916 bytes. *)
Lemma my_malloc_split_or_whole_witness :
  exists l1 l2,
    flist (set_errno NO_ERROR (state_of after_one_malloc)) (l1 ++ 4096 :: l2) /\
    if 100 + 16 + 1 <=? size (hdr (set_errno NO_ERROR (state_of after_one_malloc)) 4096) then
      let ret := 4096 + size (hdr (set_errno NO_ERROR (state_of after_one_malloc)) 4096) - 100 in
      exists st2,
        my_malloc 16 2048 5 100 (state_of after_one_malloc) = Some (ret + 16, st2) /\
        ret + 16 + 100 =
          4096 + 16 + size (hdr (set_errno NO_ERROR (state_of after_one_malloc)) 4096) /\
        size (hdr st2 ret) = 100 /\
        flist st2 (l1 ++ 4096 :: l2) /\
        ~ In ret (l1 ++ 4096 :: l2) /\
        size (hdr st2 4096) =
          size (hdr (set_errno NO_ERROR (state_of after_one_malloc)) 4096) - (100 + 16) /\
        (forall a, a <> 4096 -> a <> ret ->
                   hdr st2 a = hdr (set_errno NO_ERROR (state_of after_one_malloc)) a)
    else
      exists st2,
        my_malloc 16 2048 5 100 (state_of after_one_malloc) = Some (4096 + 16, st2) /\
        flist st2 (l1 ++ l2) /\
        ~ In 4096 (l1 ++ l2) /\
        (forall a, size (hdr st2 a) =
                   size (hdr (set_errno NO_ERROR (state_of after_one_malloc)) a)).
Proof.
  apply (my_malloc_split_or_whole 16 2048) with (l := [4096]);
    [lia | lia | concrete | | lia | lia | simpl; lia | | ].
  - concrete.
  - vm_compute. reflexivity.
  - vm_compute. reflexivity.
Defined.

(** A resize on a heap that is full and cannot grow. *)
Lemma my_realloc_failure_keeps_block_witness :
  exists p st1,
    my_malloc 16 2048 5 100 (set_errno NO_ERROR (state_of full_heap)) = Some (p, st1) /\
    (p = NULL ->
     my_realloc 16 2048 5 4112 100 (state_of full_heap) = Some (NULL, st1) /\
     hdr st1 (wrap (4112 - 16)) = hdr (state_of full_heap) (wrap (4112 - 16)) /\
     mem st1 = mem (state_of full_heap) /\
     (forall a, ~ In a [] -> a <> brk (state_of full_heap) ->
                hdr st1 a = hdr (state_of full_heap) a) /\
     (forall l', flist st1 l' -> ~ In (wrap (4112 - 16)) l')).
Proof.
  apply (my_realloc_failure_keeps_block 16 2048) with (l := []);
    [lia | lia | concrete | | | | | | ].
  - concrete.
  - discriminate.
  - concrete.
  - intros [].
  - vm_compute. reflexivity.
  - simpl. lia.
Defined.

(** Three elements of four bytes on the empty heap. *)
Lemma my_calloc_zero_fills_witness :
  exists p st1,
    my_malloc 16 2048 5 (wrap (3 * 4)) heap0 = Some (p, st1) /\
    ((p = NULL /\ my_calloc 16 2048 5 3 4 heap0 = Some (NULL, st1)) \/
     (p <> NULL /\
      exists st2,
        my_calloc 16 2048 5 3 4 heap0 = Some (p, st2) /\
        (forall i, 0 <= i < wrap (3 * 4) -> mem st2 (wrap (p + i)) = 0) /\
        (forall a, wrap (3 * 4) <= wrap (a - p) -> mem st2 a = mem st1 a) /\
        hdr st2 = hdr st1 /\ address_list st2 = address_list st1 /\
        my_malloc_errno st2 = my_malloc_errno st1 /\ brk st2 = brk st1)).
Proof.
  apply (my_calloc_zero_fills 16 2048) with (l := []); [lia | lia | concrete | | ].
  - concrete.
  - simpl. lia.
Defined.

(** The block split off a 2032-byte chunk is released next to the remainder. *)
Lemma my_free_keeps_order_witness :
  exists st1 st' l',
    add_to_addr_list 5 (wrap (6044 - 16)) (set_errno NO_ERROR (state_of after_one_malloc))
      = Some st1 /\
    (exists l1 l2,
        [4096] = l1 ++ l2 /\
        (forall a, In a l1 -> a < wrap (6044 - 16)) /\
        (forall a, In a l2 -> wrap (6044 - 16) < a) /\
        flist st1 (l1 ++ wrap (6044 - 16) :: l2)) /\
    my_free 16 5 6044 (state_of after_one_malloc) = Some st' /\
    flist st' l' /\ ascending l' /\ NoDup l' /\
    incl l' (wrap (6044 - 16) :: [4096]).
Proof.
  apply (my_free_keeps_order 16 (state_of after_one_malloc) [4096] 6044 5).
  - concrete.
  - repeat constructor.
  - discriminate.
  - discriminate.
  - concrete.
  - vm_compute. intros [E|[]]. discriminate E.
  - simpl. lia.
Defined.

(** A request of 50 bytes served from a free block of 1916 bytes. *)
Lemma malloc_free_roundtrip_witness :
  exists p st1,
    my_malloc 16 2048 5 50 (state_of after_one_malloc) = Some (p, st1) /\
    (brk st1 = brk (state_of after_one_malloc) ->
     exists st2,
       my_free 16 5 p st1 = Some st2 /\
       flist st2 [4096] /\
       blocks st2 [4096] = blocks (state_of after_one_malloc) [4096] /\
       free_bytes st2 [4096] = free_bytes (state_of after_one_malloc) [4096]).
Proof.
  apply (malloc_free_roundtrip 16 2048); [lia | lia | concrete | | | | ].
  - concrete.
  - vm_compute. reflexivity.
  - concrete.
  - simpl. lia.
Defined.

Ltac holds :=
  solve [ vm_compute; reflexivity
        | vm_compute; discriminate
        | vm_compute; repeat split; (reflexivity || discriminate) ].

Ltac is_apart := solve [left; holds | right; holds].

Ltac is_live :=
  split; [|split; [|split]];
  [ holds | holds | holds
  | repeat (apply Forall_cons; [is_apart|]); apply Forall_nil ].

(** The second of four free blocks is unlinked. *)
Lemma remove_from_addr_list_unlinks_witness :
  exists st' : state,
    remove_from_addr_list 5 4200 four_blocks = Some st' /\
    flist st' ([4096] ++ [4300; 4400]) /\
    ~ In 4200 ([4096] ++ [4300; 4400]) /\
    (forall a : Z, size (hdr st' a) = size (hdr four_blocks a)) /\
    hdr st' 4200 = hdr four_blocks 4200 /\
    (forall a : Z, ~ In a [4096] -> hdr st' a = hdr four_blocks a) /\
    same_globals four_blocks st'.
Proof.
  apply (remove_from_addr_list_unlinks four_blocks [4096] [4300; 4400] 4200 5).
  - holds.
  - simpl; repeat constructor; simpl; intuition lia.
  - simpl; lia.
Defined.

(** A block that is not on a list of four blocks. *)
Lemma remove_from_addr_list_absent_witness :
  remove_from_addr_list 5 5000 four_blocks = Some four_blocks.
Proof.
  apply (remove_from_addr_list_absent four_blocks [4096; 4200; 4300; 4400] 5000 5).
  - holds.
  - simpl; intuition lia.
  - simpl; lia.
Defined.

(** The second of four free blocks is unlinked and linked again. *)
Lemma remove_then_add_restores_witness :
  exists st1 st2 : state,
    remove_from_addr_list 5 4200 four_blocks = Some st1 /\
    add_to_addr_list 5 4200 st1 = Some st2 /\
    (forall a : Z, hdr st2 a = hdr four_blocks a) /\
    address_list st2 = address_list four_blocks /\ same_globals four_blocks st2.
Proof.
  apply (remove_then_add_restores four_blocks [4096] [4300; 4400] 4200 5).
  - holds.
  - simpl; repeat constructor; lia.
  - simpl; lia.
Defined.

(** Three adjacent chunks become one block of the same bytes. *)
Lemma mergeAll_conserves_witness :
  exists (st' : state) (l' : list Z),
    mergeAll 16 5 three_adjacent_chunks = Some st' /\
    heap_ok 16 st' l' /\
    coalesced 16 (blocks st' l') /\
    (length l' <= length [4096%Z; 6144%Z; 8192%Z])%nat /\
    span 16 (blocks st' l') = span 16 (blocks three_adjacent_chunks [4096; 6144; 8192]) /\
    mergeAll 16 5 st' = Some st'.
Proof.
  apply (mergeAll_conserves 16 ltac:(lia) three_adjacent_chunks [4096; 6144; 8192] 5).
  - holds.
  - simpl; lia.
Defined.

(** The block split off a chunk is released next to the remainder. *)
Lemma my_free_keeps_heap_witness :
  exists (st' : state) (l' : list Z),
    my_free 16 5 6044 (state_of after_one_malloc) = Some st' /\
    heap_ok 16 st' l' /\
    coalesced 16 (blocks st' l') /\
    blocks st' l' =
    coalesce 16
      (blocks (state_of after_one_malloc) (insert_by_address (6044 - 16) [4096])) /\
    span 16 (blocks st' l') =
    span 16 (blocks (state_of after_one_malloc) [4096]) + 16 +
    size (hdr (state_of after_one_malloc) (6044 - 16)) /\
    mem st' = mem (state_of after_one_malloc) /\
    brk st' = brk (state_of after_one_malloc) /\
    heap_limit st' = heap_limit (state_of after_one_malloc) /\
    my_malloc_errno st' = NO_ERROR.
Proof.
  apply (my_free_keeps_heap 16 ltac:(lia) (state_of after_one_malloc) [4096] 6044 5).
  - holds.
  - discriminate.
  - is_live.
  - discriminate.
  - simpl; lia.
Defined.

(** One of two live blocks is released; the other one stays. *)
Lemma my_free_keeps_live_witness :
  exists (st' : state) (l' : list Z),
    my_free 16 5 6044 (state_of after_two_splits) = Some st' /\
    flist st' l' /\
    hdr st' 5812 = hdr (state_of after_two_splits) 5812 /\ live_block 16 st' l' 5812.
Proof.
  apply (my_free_keeps_live 16 ltac:(lia) (state_of after_two_splits) [4096] 6044 5812 5).
  - holds.
  - discriminate.
  - is_live.
  - discriminate.
  - is_live.
  - is_apart.
  - simpl; lia.
Defined.

(** A request of 50 bytes on a heap with one free block and one live block. *)
Lemma my_malloc_keeps_heap_witness :
  exists (p : Z) (st' : state) (l' : list Z),
    my_malloc 16 2048 5 50 (state_of after_one_malloc) = Some (p, st') /\
    heap_ok 16 st' l' /\
    (coalesced 16 (blocks (state_of after_one_malloc) [4096]) ->
     coalesced 16 (blocks st' l')) /\
    mem st' = mem (state_of after_one_malloc) /\
    brk (state_of after_one_malloc) <= brk st' /\
    (p = NULL ->
     span 16 (blocks st' l') =
     span 16 (blocks (state_of after_one_malloc) [4096]) +
     (brk st' - brk (state_of after_one_malloc))) /\
    (p <> NULL ->
     live_block 16 st' l' (p - 16) /\
     50 <= size (hdr st' (p - 16)) /\
     span 16 (blocks st' l') + 16 + size (hdr st' (p - 16)) =
     span 16 (blocks (state_of after_one_malloc) [4096]) +
     (brk st' - brk (state_of after_one_malloc))).
Proof.
  apply (my_malloc_keeps_heap 16 2048 ltac:(lia) ltac:(lia) ltac:(holds) (state_of after_one_malloc) [4096] 50 5).
  - holds.
  - holds.
  - simpl; lia.
Defined.

(** A request of 50 bytes beside a live block of 100 bytes. *)
Lemma my_malloc_keeps_live_witness :
  exists (p : Z) (st' : state) (l' : list Z),
    my_malloc 16 2048 5 50 (state_of after_one_malloc) = Some (p, st') /\
    flist st' l' /\
    hdr st' 6028 = hdr (state_of after_one_malloc) 6028 /\
    live_block 16 st' l' 6028 /\
    (p <> NULL ->
     apart 16 st' 6028 (p - 16) /\
     (p + 50 <= 6028 + 16 \/ 6028 + 16 + size (hdr (state_of after_one_malloc) 6028) <= p)).
Proof.
  apply (my_malloc_keeps_live 16 2048 ltac:(lia) ltac:(lia) ltac:(holds) (state_of after_one_malloc) [4096] 50 6028 5).
  - holds.
  - holds.
  - is_live.
  - simpl; lia.
Defined.

(** A request of 15 bytes among free blocks of 10, 20, 20 and 30 bytes. *)
Lemma my_malloc_reuses_best_fit_witness :
  exists (p : Z) (st' : state) (temp : Z),
    my_malloc 16 2048 7 15 four_blocks = Some (p, st') /\
    p <> NULL /\
    brk st' = brk four_blocks /\
    my_malloc_errno st' = NO_ERROR /\
    In temp [4096; 4200; 4300; 4400] /\
    15 <= size (hdr four_blocks temp) /\
    (forall x : Z,
     In x [4096; 4200; 4300; 4400] ->
     15 <= size (hdr four_blocks x) ->
     size (hdr four_blocks temp) <= size (hdr four_blocks x)) /\
    temp + 16 <= p /\ p + 15 <= temp + 16 + size (hdr four_blocks temp).
Proof.
  apply (my_malloc_reuses_best_fit 16 2048 ltac:(lia) ltac:(lia) ltac:(holds) four_blocks [4096; 4200; 4300; 4400] 15 4400 7).
  - holds.
  - lia.
  - lia.
  - repeat (apply Forall_cons; [holds|]); apply Forall_nil.
  - simpl; tauto.
  - holds.
  - simpl; lia.
Defined.

(** A live block of 100 bytes is resized to 300 bytes. *)
Lemma my_realloc_moves_contents_witness :
  exists (p : Z) (st' : state) (l' : list Z),
    my_realloc 16 2048 5 6044 300 (state_of after_one_malloc) = Some (p, st') /\
    heap_ok 16 st' l' /\
    (p <> NULL ->
     my_malloc_errno st' = NO_ERROR /\
     live_block 16 st' l' (p - 16) /\
     300 <= size (hdr st' (p - 16)) /\
     (forall i : Z,
      0 <= i < Z.min (size (hdr (state_of after_one_malloc) (6044 - 16))) 300 ->
      mem st' (p + i) = mem (state_of after_one_malloc) (6044 + i)) /\
     span 16 (blocks st' l') + size (hdr st' (p - 16)) =
     span 16 (blocks (state_of after_one_malloc) [4096]) +
     (brk st' - brk (state_of after_one_malloc)) +
     size (hdr (state_of after_one_malloc) (6044 - 16))).
Proof.
  apply (my_realloc_moves_contents 16 2048 ltac:(lia) ltac:(lia) ltac:(holds) (state_of after_one_malloc) [4096] 6044 300 5).
  - holds.
  - discriminate.
  - is_live.
  - holds.
  - holds.
  - holds.
  - simpl; lia.
Defined.

(** A live block is resized beside a second live block of 200 bytes. *)
Lemma my_realloc_keeps_live_witness :
  exists (p : Z) (st' : state) (l' : list Z),
    my_realloc 16 2048 5 6044 300 (state_of after_two_splits) = Some (p, st') /\
    flist st' l' /\
    hdr st' 5812 = hdr (state_of after_two_splits) 5812 /\
    live_block 16 st' l' 5812 /\
    (forall i : Z,
     0 <= i < size (hdr (state_of after_two_splits) 5812) ->
     mem st' (5812 + 16 + i) = mem (state_of after_two_splits) (5812 + 16 + i)).
Proof.
  apply (my_realloc_keeps_live 16 2048 ltac:(lia) ltac:(lia) ltac:(holds) (state_of after_two_splits) [4096] 6044 300 5812 5).
  - holds.
  - discriminate.
  - is_live.
  - holds.
  - holds.
  - holds.
  - is_live.
  - is_apart.
  - simpl; lia.
Defined.

(** Three elements of four bytes beside a live block of 100 bytes. *)
Lemma my_calloc_keeps_live_witness :
  exists (p : Z) (st' : state) (l' : list Z),
    my_calloc 16 2048 5 3 4 (state_of after_one_malloc) = Some (p, st') /\
    heap_ok 16 st' l' /\
    hdr st' 6028 = hdr (state_of after_one_malloc) 6028 /\
    live_block 16 st' l' 6028 /\
    (forall i : Z,
     0 <= i < size (hdr (state_of after_one_malloc) 6028) ->
     mem st' (6028 + 16 + i) = mem (state_of after_one_malloc) (6028 + 16 + i)) /\
    (p <> NULL -> live_block 16 st' l' (p - 16) /\ wrap (3 * 4) <= size (hdr st' (p - 16))).
Proof.
  apply (my_calloc_keeps_live 16 2048 ltac:(lia) ltac:(lia) ltac:(holds) (state_of after_one_malloc) [4096] 3 4 6028 5).
  - holds.
  - is_live.
  - simpl; lia.
Defined.

(** A first request of 100 bytes on the empty heap. *)
Lemma my_malloc_grows_when_needed_witness :
  exists (p : Z) (st' : state),
    my_malloc 16 2048 5 100 heap0 = Some (p, st') /\
    p <> NULL /\
    brk st' = brk heap0 + 2048 /\
    my_malloc_errno st' = NO_ERROR /\
    p + 100 <= brk st' /\ 100 <= size (hdr st' (p - 16)) /\ mem st' = mem heap0.
Proof.
  apply (my_malloc_grows_when_needed 16 2048 ltac:(lia) ltac:(lia) ltac:(holds) heap0 [] 100 5).
  - holds.
  - lia.
  - lia.
  - apply Forall_nil.
  - holds.
  - holds.
  - simpl; lia.
Defined.

(** A request on a heap that is full and cannot grow. *)
Lemma my_malloc_out_of_memory_witness :
  my_malloc 16 2048 5 100 (state_of full_heap) =
  Some (NULL, set_errno OUT_OF_MEMORY (state_of full_heap)).
Proof.
  apply (my_malloc_out_of_memory 16 2048 ltac:(lia) ltac:(lia) ltac:(holds) (state_of full_heap) [] 100 5).
  - holds.
  - lia.
  - lia.
  - apply Forall_nil.
  - holds.
  - simpl; lia.
Defined.

(** A request of 20 bytes among free blocks of 10, 20, 20 and 30 bytes. *)
Lemma find_best_fit_exact_first_witness :
  exists r l1 l2,
    find_best_fit 5 20 four_blocks = Some r /\
    [4096; 4200; 4300; 4400] = l1 ++ r :: l2 /\ r <> NULL /\
    size (hdr four_blocks r) = 20 /\
    Forall (fun x => size (hdr four_blocks x) <> 20) l1.
Proof.
  apply (find_best_fit_exact_first four_blocks [4096; 4200; 4300; 4400] 20 4300 5).
  - holds.
  - simpl; tauto.
  - holds.
  - simpl; lia.
Defined.

End MyMalloc.
